(** * The invoice payment poller of cmswww

    A shallow embedding of the payment poller (package [main]:
    [pollHasExpired], [addInvoiceForPolling], [addInvoicesForPolling],
    [createPolledPaymentsCopy], [checkForInvoicePayments],
    [removeInvoicesFromPolling], [checkForPayments]) together with the
    part of the store that decides when the poller stops
    ([cockroachdb.GetInvoiceByToken], [cockroachdb.UpdateInvoice]).

    The poller talks to three collaborators: the database, the block
    explorers and the wall clock.  Every call to one of them is recorded,
    with its answer, in a history of events; a collaborator answers as a
    function of the history so far, which covers every deterministic
    environment, and the theorems quantify over all of them.  Log output
    has no influence on control flow and is left out.  The reader/writer
    lock of [cmswww] is not modelled: the poller is verified as the single
    task that it is. *)

From Stdlib Require Import ZArith String List Bool Lia.
From stdpp Require Import base option list strings gmap fin_maps.

Local Open Scope Z_scope.

(** ** Data model *)

Module Time.

(** [time.Time] restricted to its wall clock reading: seconds since the
    Unix epoch and nanoseconds within the second. *)
Record t := mk { sec : Z; nsec : Z }.

(** [time.Duration] is a count of nanoseconds. *)
Definition Nanosecond : Z := 1.
Definition Second : Z := 1000000000 * Nanosecond.
Definition Hour : Z := 3600 * Second.

(** Go's [int64]: sums wrap around. *)
Definition wrap64 (z : Z) : Z := (z + 2 ^ 63) mod 2 ^ 64 - 2 ^ 63.

(** [time.Time] keeps its seconds as an [int64] counted from year 1:
    the Unix seconds plus this constant. *)
Definition unixToInternal : Z := 62135596800.

(** [time.Unix(sec, nsec)]: [nsec] outside [0, 1e9) is carried into the
    seconds, and the seconds are shifted by [unixToInternal]; both sums
    are made in [int64].  A reading is given here by its Unix seconds,
    so the shift is taken back after the wrap-around. *)
Definition Unix (s n : Z) : t :=
  {| sec := wrap64 (wrap64 (s + n / 1000000000) + unixToInternal)
            - unixToInternal;
     nsec := n mod 1000000000 |}.

(** The Unix seconds, among the values of an [int64], that [time.Unix]
    shifts without wrap-around. *)
Definition representable (s : Z) : Prop :=
  - 2 ^ 63 <= s < 2 ^ 63 - unixToInternal.

(** The values of an [int64] for which the shift wraps around. *)
Definition wraps (s : Z) : Prop :=
  2 ^ 63 - unixToInternal <= s < 2 ^ 63.

(** [t.After(u)]: [t] is strictly later than [u]. *)
Definition After (a u : t) : bool :=
  (sec u <? sec a) || ((sec a =? sec u) && (nsec u <? nsec a)).

(** [t.Unix()]: the whole seconds of the reading. *)
Definition UnixSeconds (a : t) : Z := sec a.

(** The reading as a single count of nanoseconds. *)
Definition nanos (a : t) : Z := sec a * 1000000000 + nsec a.

Definition wf (a : t) : Prop := 0 <= nsec a < 1000000000.

End Time.

(** Modelled from the spec: the declaration of [v1.InvoiceStatusT] and of
    its constants is not among the sources; the spec describes the status
    as an enum including at least Unreviewed/Approved/Paid.  The named
    constructors are the constants the sources mention. *)
Inductive InvoiceStatusT : Type :=
| InvoiceStatusNotReviewed
| InvoiceStatusRejected
| InvoiceStatusApproved
| InvoiceStatusPaid
| InvoiceStatusOther (code : N).

#[global] Instance InvoiceStatusT_eq_dec : EqDecision InvoiceStatusT.
Proof. solve_decision. Defined.

(** The values of Go's [error] interface that the poller and the store
    can tell apart: the sentinels [database.ErrShutdown],
    [database.ErrInvoiceNotFound] and [gorm.ErrRecordNotFound], and
    everything else. *)
Inductive error : Type :=
| ErrShutdown
| ErrInvoiceNotFound
| gorm_ErrRecordNotFound
| ErrOther (msg : string).

#[global] Instance error_eq_dec : EqDecision error.
Proof. solve_decision. Defined.

(** A Go result pair [(value, error)] with [error] checked first. *)
Inductive result (A : Type) : Type :=
| Ok (a : A)
| Err (e : error).
Arguments Ok {A} a.
Arguments Err {A} e.

(** Modelled from the spec: [database.InvoicePayment] and
    [database.Invoice] are declared outside the sources at hand; these are
    the fields the poller reads and writes. *)
Record InvoicePayment : Type := mkInvoicePayment {
  Address : string;
  Amount : Z;
  TxNotBefore : Z;
  PollExpiry : Z
}.

Record Invoice : Type := mkInvoice {
  Token : string;
  Status : InvoiceStatusT;
  Payments : list InvoicePayment
}.

Definition set_Status (s : InvoiceStatusT) (i : Invoice) : Invoice :=
  {| Token := Token i; Status := s; Payments := Payments i |}.

Record polledPayment : Type := mkPolledPayment {
  address : string;
  amount : Z;
  txNotBefore : Z;
  pollExpiry : Z
}.

#[global] Instance polledPayment_eq_dec : EqDecision polledPayment.
Proof. solve_decision. Defined.

Definition pollExpiryDuration : Z := Time.Hour * 24.
Definition pollCheckGap : Z := Time.Second * 5.

(** ** The store

    The three functions of [cockroachdb] that the poller calls.  Each one
    first looks at the [shutdown] flag, which [Close] sets. *)
Module cockroachdb.

(** The gorm handle, by what it answers to the statement of each of the
    three functions.  The rows are taken as already decoded: the encoding
    and decoding of invoices is not among the sources at hand. *)
Record gorm_DB : Type := mkDB {
  Scan_invoice : string -> result Invoice;
  Scan_invoices : result (list Invoice);
  Save_invoice : Invoice -> option error
}.

Record cockroachdb : Type := mk {
  shutdown : bool;
  db : gorm_DB
}.

Definition UpdateInvoice (c : cockroachdb) (dbInvoice : Invoice)
  : option error :=
  if shutdown c then Some ErrShutdown
  else Save_invoice (db c) dbInvoice.

Definition GetInvoiceByToken (c : cockroachdb) (token : string)
  : result Invoice :=
  if shutdown c then Err ErrShutdown
  else
    match Scan_invoice (db c) token with
    | Err err =>
        if decide (err = gorm_ErrRecordNotFound) then Err ErrInvoiceNotFound
        else Err err
    | Ok invoice => Ok invoice
    end.

(** [GetInvoices] for the empty request of the poller: no clause is
    added to the statement. *)
Definition GetInvoices (c : cockroachdb) : result (list Invoice) :=
  if shutdown c then Err ErrShutdown
  else
    match Scan_invoices (db c) with
    | Err err =>
        if decide (err = gorm_ErrRecordNotFound) then Err ErrInvoiceNotFound
        else Err err
    | Ok invoices => Ok invoices
    end.

Definition Close (c : cockroachdb) : cockroachdb :=
  {| shutdown := true; db := db c |}.

End cockroachdb.

(** ** The collaborators *)

Inductive event : Type :=
| EvGetInvoices (r : result (list Invoice))
| EvGetInvoiceByToken (token : string) (r : result Invoice)
| EvUpdateInvoice (invoice : Invoice) (r : option error)
| EvFetchTx (addr : string) (amt notBefore minConf : Z)
            (r : string * Z * option error)
| EvNow (now : Time.t)
| EvSleep (d : Z).

Abbreviation history := (list event).

Record Env : Type := mkEnv {
  db_GetInvoices : history -> result (list Invoice);
  db_GetInvoiceByToken : history -> string -> result Invoice;
  db_UpdateInvoice : history -> Invoice -> option error;
  util_FetchTxWithBlockExplorers :
    history -> string -> Z -> Z -> Z -> string * Z * option error;
  time_Now : history -> Time.t;
  (** the order in which a [range] over a map visits its bindings *)
  map_range :
    history -> gmap string polledPayment -> list (string * polledPayment)
}.

(** Go visits every binding of the map exactly once, in some order. *)
Definition range_ok (env : Env) : Prop :=
  forall h m, map_range env h m ≡ₚ map_to_list m.

(** Computations that call the collaborators thread the history. *)
Definition IO (A : Type) : Type := history -> A * history.

#[global] Instance IO_ret : MRet IO := fun A a h => (a, h).
#[global] Instance IO_bind : MBind IO :=
  fun A B k m h => let (a, h') := m h in k a h'.

Definition emit (e : event) : IO unit := fun h => (tt, h ++ [e]).
Definition ask {A} (f : history -> A) : IO A := fun h => (f h, h).

Section Poller.

Variable env : Env.

(** *** Calls to the collaborators *)

Definition GetInvoices : IO (result (list Invoice)) :=
  r ← ask (db_GetInvoices env); _ ← emit (EvGetInvoices r); mret r.

Definition GetInvoiceByToken (token : string) : IO (result Invoice) :=
  r ← ask (fun h => db_GetInvoiceByToken env h token);
  _ ← emit (EvGetInvoiceByToken token r); mret r.

Definition UpdateInvoice (invoice : Invoice) : IO (option error) :=
  r ← ask (fun h => db_UpdateInvoice env h invoice);
  _ ← emit (EvUpdateInvoice invoice r); mret r.

Definition FetchTxWithBlockExplorers (addr : string) (amt notBefore minConf : Z)
  : IO (string * Z * option error) :=
  r ← ask (fun h => util_FetchTxWithBlockExplorers env h addr amt notBefore minConf);
  _ ← emit (EvFetchTx addr amt notBefore minConf r); mret r.

Definition Now : IO Time.t :=
  t ← ask (time_Now env); _ ← emit (EvNow t); mret t.

Definition Sleep (d : Z) : IO unit := emit (EvSleep d).

Definition range (m : gmap string polledPayment)
  : IO (list (string * polledPayment)) :=
  ask (fun h => map_range env h m).

(** *** The poller *)

Definition pollHasExpired (pollExpiry : Z) : IO bool :=
  now ← Now; mret (Time.After now (Time.Unix pollExpiry 0)).

Record cmswww : Type := mkCmswww {
  polledPayments : gmap string polledPayment;
  cfg_MinConfirmationsRequired : Z
}.

Definition with_polledPayments (m : gmap string polledPayment) (c : cmswww)
  : cmswww :=
  {| polledPayments := m;
     cfg_MinConfirmationsRequired := cfg_MinConfirmationsRequired c |}.

(** The pool entry built from a payment row of the store. *)
Definition polledPayment_of (invoicePayment : InvoicePayment) : polledPayment :=
  {| address := Address invoicePayment;
     amount := Amount invoicePayment;
     txNotBefore := TxNotBefore invoicePayment;
     pollExpiry := PollExpiry invoicePayment |}.

Definition addInvoiceForPolling (token : string)
    (invoicePayment : InvoicePayment) (c : cmswww) : cmswww :=
  with_polledPayments
    (<[token := polledPayment_of invoicePayment]> (polledPayments c)) c.

(** [addInvoiceForPollingLock] takes the lock around the same insertion. *)
Definition addInvoiceForPollingLock := addInvoiceForPolling.

(** The inner loop of [addInvoicesForPolling], over the payments of one
    invoice. *)
Fixpoint addInvoicesForPolling_payments (token : string)
    (payments : list InvoicePayment) (c : cmswww) : IO cmswww :=
  match payments with
  | [] => mret c
  | invoicePayment :: rest =>
      expired ← pollHasExpired (PollExpiry invoicePayment);
      if expired : bool
      then addInvoicesForPolling_payments token rest c
      else addInvoicesForPolling_payments token rest
             (addInvoiceForPolling token invoicePayment c)
  end.

(** The outer loop of [addInvoicesForPolling], over the invoices. *)
Fixpoint addInvoicesForPolling_invoices (invoices : list Invoice)
    (c : cmswww) : IO cmswww :=
  match invoices with
  | [] => mret c
  | invoice :: rest =>
      c' ← addInvoicesForPolling_payments (Token invoice) (Payments invoice) c;
      addInvoicesForPolling_invoices rest c'
  end.

Definition addInvoicesForPolling (c : cmswww) : IO (option error * cmswww) :=
  r ← GetInvoices;
  match r with
  | Err err => mret (Some err, c)
  | Ok invoices =>
      c' ← addInvoicesForPolling_invoices invoices c;
      mret (None, c')
  end.

Definition createPolledPaymentsCopy (c : cmswww)
  : IO (gmap string polledPayment) :=
  bindings ← range (polledPayments c);
  mret (foldl (fun copy kv => <[kv.1 := kv.2]> copy) ∅ bindings).

(** How one turn of the loop of [checkForInvoicePayments] ends: with the
    [return false, nil] of a shut down store, or by going on to the next
    binding with the tokens collected so far. *)
Inductive turn : Type :=
| ReturnFalse
| NextEntry (tokensToRemove : list string).

(** The body of the loop of [checkForInvoicePayments]. *)
Definition checkForInvoicePayments_body (c : cmswww) (token : string)
    (polledPayment : polledPayment) (tokensToRemove : list string) : IO turn :=
  r ← GetInvoiceByToken token;
  match r with
  | Err err =>
      if decide (err = ErrShutdown) then mret ReturnFalse
      else mret (NextEntry tokensToRemove)
  | Ok invoice =>
      if decide (Status invoice = InvoiceStatusPaid)
      then mret (NextEntry (tokensToRemove ++ [token]))
      else
        expired ← pollHasExpired (pollExpiry polledPayment);
        if expired : bool
        then mret (NextEntry (tokensToRemove ++ [Token invoice]))
        else
          r ← FetchTxWithBlockExplorers (address polledPayment)
                (amount polledPayment) (txNotBefore polledPayment)
                (cfg_MinConfirmationsRequired c);
          match r with
          | (_, _, Some err) => mret (NextEntry tokensToRemove)
          | (tx, _, None) =>
              if decide (tx ≠ ""%string)
              then
                let invoice := set_Status InvoiceStatusPaid invoice in
                err ← UpdateInvoice invoice;
                match err with
                | Some err =>
                    if decide (err = ErrShutdown) then mret ReturnFalse
                    else mret (NextEntry tokensToRemove)
                | None =>
                    _ ← Sleep pollCheckGap;
                    mret (NextEntry (tokensToRemove ++ [token]))
                end
              else
                _ ← Sleep pollCheckGap;
                mret (NextEntry tokensToRemove)
          end
  end.

(** The loop of [checkForInvoicePayments] over the bindings in the order
    the [range] visits them. *)
Fixpoint checkForInvoicePayments_loop (c : cmswww)
    (bindings : list (string * polledPayment))
    (tokensToRemove : list string) : IO (bool * list string) :=
  match bindings with
  | [] => mret (true, tokensToRemove)
  | (token, polledPayment) :: rest =>
      t ← checkForInvoicePayments_body c token polledPayment tokensToRemove;
      match t with
      | ReturnFalse => mret (false, [])
      | NextEntry tokensToRemove =>
          checkForInvoicePayments_loop c rest tokensToRemove
      end
  end.

Definition checkForInvoicePayments (c : cmswww)
    (polledPayments : gmap string polledPayment) : IO (bool * list string) :=
  bindings ← range polledPayments;
  checkForInvoicePayments_loop c bindings [].

Definition removeInvoicesFromPolling (tokensToRemove : list string)
    (c : cmswww) : cmswww :=
  with_polledPayments
    (foldl (fun m token => delete token m) (polledPayments c) tokensToRemove) c.

(** One turn of the endless loop of [checkForPayments]: [true] when the
    function returns. *)
Definition checkForPayments_cycle (c : cmswww) : IO (bool * cmswww) :=
  invoicePaymentsToCheck ← createPolledPaymentsCopy c;
  r ← checkForInvoicePayments c invoicePaymentsToCheck;
  let '(shouldContinue, invoiceTokensToRemove) := r in
  if negb shouldContinue then mret (true, c)
  else
    let c := removeInvoicesFromPolling invoiceTokensToRemove c in
    _ ← Sleep pollCheckGap;
    mret (false, c).

(** [checkForPayments] observed for at most [cycles] turns of its loop:
    [true] when it has returned, [false] when it is still running. *)
Fixpoint checkForPayments (cycles : nat) (c : cmswww) : IO (bool * cmswww) :=
  match cycles with
  | O => mret (false, c)
  | S cycles =>
      r ← checkForPayments_cycle c;
      let '(returned, c) := r in
      if returned : bool then mret (true, c)
      else checkForPayments cycles c
  end.

End Poller.

(** ** A simulated environment

    A store that holds a table of invoices, applies the updates recorded
    in the history and is shut down once the history has reached a given
    length; block explorers that know one transaction id per address; a
    clock that starts at a given reading and moves by the time slept. *)
Module Sim.

Record scenario : Type := mkScenario {
  table : list Invoice;
  missing : list string;          (* tokens whose rows cannot be read *)
  closed_from : option nat;       (* the store is closed from this length on *)
  txs : list (string * string);   (* address, transaction id *)
  explorers_down : bool;
  clock : Time.t
}.

Definition closed (s : scenario) (h : history) : bool :=
  match closed_from s with
  | Some n => bool_decide (n <= length h)%nat
  | None => false
  end.

(** The table after the successful updates of the history. *)
Fixpoint stored (tbl : list Invoice) (h : history) : list Invoice :=
  match h with
  | [] => tbl
  | EvUpdateInvoice inv None :: h' =>
      stored (map (fun i => if decide (Token i = Token inv) then inv else i) tbl) h'
  | _ :: h' => stored tbl h'
  end.

Definition slept (h : history) : Z :=
  foldr (fun e acc => match e with EvSleep d => d + acc | _ => acc end) 0 h.

(** The store as it is when the history has come to [h]. *)
Definition store_at (s : scenario) (h : history) : cockroachdb.cockroachdb :=
  {| cockroachdb.shutdown := closed s h;
     cockroachdb.db :=
       {| cockroachdb.Scan_invoice := fun token =>
            if bool_decide (token ∈ missing s) then Err gorm_ErrRecordNotFound
            else match find (fun i => bool_decide (Token i = token))
                         (stored (table s) h) with
                 | Some i => Ok i
                 | None => Err gorm_ErrRecordNotFound
                 end;
          cockroachdb.Scan_invoices := Ok (stored (table s) h);
          cockroachdb.Save_invoice := fun _ => None |} |}.

Definition env_of (s : scenario) : Env :=
  {| db_GetInvoices := fun h => cockroachdb.GetInvoices (store_at s h);
     db_GetInvoiceByToken := fun h token =>
       cockroachdb.GetInvoiceByToken (store_at s h) token;
     db_UpdateInvoice := fun h inv =>
       cockroachdb.UpdateInvoice (store_at s h) inv;
     util_FetchTxWithBlockExplorers := fun h addr amt notBefore minConf =>
       if explorers_down s then (""%string, 0, Some (ErrOther "explorer unreachable"))
       else match find (fun p => bool_decide (p.1 = addr)) (txs s) with
            | Some p => (p.2, amt, None)
            | None => (""%string, 0, None)
            end;
     time_Now := fun h =>
       Time.Unix (Time.sec (clock s)) (Time.nsec (clock s) + slept h);
     map_range := fun h m => map_to_list m |}.

Lemma env_of_range_ok (s : scenario) : range_ok (env_of s).
Proof. intros h m. reflexivity. Qed.

(** The scenario of the spec: invoice [abc] with one open payment. *)
Definition entry_abc : polledPayment :=
  {| address := "A1"; amount := 500; txNotBefore := 1000;
     pollExpiry := 9999999999 |}.

Definition invoice_abc : Invoice :=
  {| Token := "abc"; Status := InvoiceStatusApproved;
     Payments := [ {| Address := "A1"; Amount := 500; TxNotBefore := 1000;
                      PollExpiry := 9999999999 |} ] |}.

Definition quiet : scenario :=
  {| table := [invoice_abc]; missing := []; closed_from := None; txs := [];
     explorers_down := false; clock := Time.mk 2000 0 |}.

Definition paying : scenario :=
  {| table := [invoice_abc]; missing := []; closed_from := None;
     txs := [("A1"%string, "txid123"%string)];
     explorers_down := false; clock := Time.mk 2000 0 |}.

Definition server : cmswww :=
  {| polledPayments := {[ "abc"%string := entry_abc ]};
     cfg_MinConfirmationsRequired := 2 |}.

(** The invoice was marked as paid by some other path. *)
Definition settled_elsewhere : scenario :=
  {| table := [set_Status InvoiceStatusPaid invoice_abc]; missing := [];
     closed_from := None; txs := []; explorers_down := false;
     clock := Time.mk 2000 0 |}.

(** The expiry of the payment lies in the past. *)
Definition lapsed : scenario :=
  {| table := [invoice_abc]; missing := []; closed_from := None;
     txs := [("A1"%string, "txid123"%string)]; explorers_down := false;
     clock := Time.mk 10000000000 0 |}.

(** The expiry lies in the past and the row of the invoice cannot be
    read. *)
Definition lapsed_unreadable : scenario :=
  {| table := [invoice_abc]; missing := ["abc"%string]; closed_from := None;
     txs := []; explorers_down := false;
     clock := Time.mk 10000000000 0 |}.

(** The clock stands one nanosecond into the second of the expiry. *)
Definition just_lapsed : scenario :=
  {| table := [invoice_abc]; missing := []; closed_from := None;
     txs := [("A1"%string, "txid123"%string)]; explorers_down := false;
     clock := Time.mk 9999999999 1 |}.

(** The clock stands at the very instant of the expiry. *)
Definition on_the_dot : scenario :=
  {| table := [invoice_abc]; missing := []; closed_from := None;
     txs := []; explorers_down := false;
     clock := Time.mk 9999999999 0 |}.

(** Two invoices already paid. *)
Definition entry_def : polledPayment :=
  {| address := "A2"; amount := 700; txNotBefore := 1000;
     pollExpiry := 9999999999 |}.

Definition invoice_def : Invoice :=
  {| Token := "def"; Status := InvoiceStatusPaid;
     Payments := [ {| Address := "A2"; Amount := 700; TxNotBefore := 1000;
                      PollExpiry := 9999999999 |} ] |}.

Definition both_paid : scenario :=
  {| table := [set_Status InvoiceStatusPaid invoice_abc; invoice_def];
     missing := []; closed_from := None; txs := []; explorers_down := false;
     clock := Time.mk 2000 0 |}.

(** The same, with a store that is closed after its first answer. *)
Definition both_paid_then_closed : scenario :=
  {| table := [set_Status InvoiceStatusPaid invoice_abc; invoice_def];
     missing := []; closed_from := Some 1%nat; txs := [];
     explorers_down := false; clock := Time.mk 2000 0 |}.

Definition server2 : cmswww :=
  {| polledPayments :=
       <[ "def"%string := entry_def ]> {[ "abc"%string := entry_abc ]};
     cfg_MinConfirmationsRequired := 2 |}.

Definition empty_server : cmswww :=
  {| polledPayments := ∅; cfg_MinConfirmationsRequired := 2 |}.

(** The payment of [abc] has arrived; the store is closed once the turn
    of [abc] is over, before the row of [def] is asked for. *)
Definition paying_then_closed : scenario :=
  {| table := [invoice_abc; invoice_def]; missing := [];
     closed_from := Some 5%nat; txs := [("A1"%string, "txid123"%string)];
     explorers_down := false; clock := Time.mk 2000 0 |}.

(** A payment whose poll expiry is the largest [int64]. *)
Definition invoice_max : Invoice :=
  {| Token := "max"; Status := InvoiceStatusApproved;
     Payments := [ {| Address := "A9"; Amount := 900; TxNotBefore := 1000;
                      PollExpiry := 9223372036854775807 |} ] |}.

Definition far_future : scenario :=
  {| table := [invoice_max]; missing := []; closed_from := None; txs := [];
     explorers_down := false; clock := Time.mk 2000 0 |}.

End Sim.


(** ** General facts about the store and the poller *)

(** A store that is shut down answers every call with ErrShutdown, and
    [Close] shuts the store down. *)
Lemma shut_down_store_answers (c : cockroachdb.cockroachdb) :
  cockroachdb.shutdown c = true ->
  (forall token, cockroachdb.GetInvoiceByToken c token = Err ErrShutdown) /\
  (forall invoice, cockroachdb.UpdateInvoice c invoice = Some ErrShutdown) /\
  cockroachdb.GetInvoices c = Err ErrShutdown.
Proof.
  unfold cockroachdb.GetInvoiceByToken, cockroachdb.UpdateInvoice,
    cockroachdb.GetInvoices.
  intros ->. auto.
Qed.

Lemma Close_shuts_down (c : cockroachdb.cockroachdb) :
  cockroachdb.shutdown (cockroachdb.Close c) = true.
Proof. reflexivity. Qed.

(** A store that is open never makes up the answer ErrShutdown: it hands
    on what the gorm handle reports. *)
Lemma open_store_answers (c : cockroachdb.cockroachdb) (token : string) :
  cockroachdb.shutdown c = false ->
  cockroachdb.GetInvoiceByToken c token = Err ErrShutdown ->
  cockroachdb.Scan_invoice (cockroachdb.db c) token = Err ErrShutdown.
Proof.
  unfold cockroachdb.GetInvoiceByToken. intros ->.
  destruct (cockroachdb.Scan_invoice _ _) as [invoice|err]; [discriminate|].
  destruct (decide _); [discriminate|]. intros H. exact H.
Qed.

Ltac io_unfold :=
  unfold checkForInvoicePayments_body, pollHasExpired, GetInvoices,
    GetInvoiceByToken, UpdateInvoice, FetchTxWithBlockExplorers, Now, Sleep,
    range, ask, emit, mbind, mret, IO_bind, IO_ret in *.

Ltac io_step := io_unfold; cbn [fst snd] in *.

(** The store events that report a shut down store. *)
Definition store_shutdown (e : event) : bool :=
  match e with
  | EvGetInvoiceByToken _ (Err ErrShutdown) => true
  | EvUpdateInvoice _ (Some ErrShutdown) => true
  | _ => false
  end.

Definition is_UpdateInvoice (e : event) : bool :=
  match e with EvUpdateInvoice _ _ => true | _ => false end.

Definition is_FetchTx (e : event) : bool :=
  match e with EvFetchTx _ _ _ _ _ => true | _ => false end.

Definition is_Sleep (e : event) : bool :=
  match e with EvSleep _ => true | _ => false end.

(** No store call of [evs] found the store shut down. *)
Definition undisturbed (evs : history) : Prop :=
  forallb (fun e => negb (store_shutdown e)) evs = true.

(** The last event of [evs], and no earlier one, is a store call that
    found the store shut down. *)
Definition ends_in_shutdown (evs : history) : Prop :=
  exists evs' e, evs = evs' ++ [e] /\ store_shutdown e = true /\ undisturbed evs'.

Section Facts.

Variable env : Env.

Abbreviation body := (checkForInvoicePayments_body env).
Abbreviation loop := (checkForInvoicePayments_loop env).

(** What one turn of the loop adds to the history: a turn that returns
    ends on the answer of the shut down store, and no other turn sees
    such an answer. *)
Lemma body_history c token pp rem h :
  exists evs, (body c token pp rem h).2 = h ++ evs /\
    match (body c token pp rem h).1 with
    | ReturnFalse => ends_in_shutdown evs
    | NextEntry _ => undisturbed evs
    end.
Proof.
  unfold ends_in_shutdown, undisturbed. io_step.
  destruct (db_GetInvoiceByToken env h token) as [invoice|err] eqn:Hget; cbn.
  - destruct (decide (Status invoice = InvoiceStatusPaid)); cbn.
    { eexists; split; [reflexivity|]. reflexivity. }
    destruct (Time.After _ _); cbn.
    { eexists; split; [rewrite <- app_assoc; reflexivity|]. reflexivity. }
    destruct (util_FetchTxWithBlockExplorers _ _ _ _ _ _) as [[tx amt] [err|]]; cbn.
    { eexists; split; [rewrite <- !app_assoc; reflexivity|]. reflexivity. }
    destruct (decide (tx <> ""%string)); cbn.
    + destruct (db_UpdateInvoice _ _ _) as [err|]; cbn.
      * destruct (decide (err = ErrShutdown)) as [->|Hne]; cbn.
        -- eexists; split; [rewrite <- !app_assoc; reflexivity|].
           eexists [_; _; _], _. split; [reflexivity|]. split; reflexivity.
        -- eexists; split; [rewrite <- !app_assoc; reflexivity|].
           cbn. destruct err; try reflexivity. congruence.
      * eexists; split; [rewrite <- !app_assoc; reflexivity|]. reflexivity.
    + eexists; split; [rewrite <- !app_assoc; reflexivity|]. reflexivity.
  - destruct (decide (err = ErrShutdown)) as [->|Hne]; cbn.
    + eexists; split; [reflexivity|].
      exists [], (EvGetInvoiceByToken token (Err ErrShutdown)).
      split; [reflexivity|]. split; reflexivity.
    + eexists; split; [reflexivity|]. cbn.
      destruct err; try reflexivity. congruence.
Qed.

Lemma undisturbed_app evs1 evs2 :
  undisturbed evs1 -> undisturbed evs2 -> undisturbed (evs1 ++ evs2).
Proof.
  unfold undisturbed. rewrite forallb_app. intros -> ->. reflexivity.
Qed.

Lemma ends_in_shutdown_app evs1 evs2 :
  undisturbed evs1 -> ends_in_shutdown evs2 -> ends_in_shutdown (evs1 ++ evs2).
Proof.
  intros H1 (evs' & e & -> & He & H2).
  exists (evs1 ++ evs'), e. rewrite app_assoc.
  auto using undisturbed_app.
Qed.

Lemma undisturbed_existsb evs :
  undisturbed evs -> existsb store_shutdown evs = false.
Proof.
  unfold undisturbed. induction evs as [|e evs IH]; cbn; [reflexivity|].
  intros [He Hevs]%andb_prop. rewrite (IH Hevs).
  destruct (store_shutdown e); [discriminate|reflexivity].
Qed.

Lemma ends_in_shutdown_existsb evs :
  ends_in_shutdown evs -> existsb store_shutdown evs = true.
Proof.
  intros (evs' & e & -> & He & _). rewrite existsb_app. cbn.
  rewrite He. apply orb_true_iff. right. reflexivity.
Qed.

(** The loop either visits every binding undisturbed, or returns
    [false] with no tokens on the first shut down answer. *)
Lemma loop_history c l rem h :
  exists evs, (loop c l rem h).2 = h ++ evs /\
    match (loop c l rem h).1 with
    | (true, _) => undisturbed evs
    | (false, tokens) => tokens = [] /\ ends_in_shutdown evs
    end.
Proof.
  revert rem h. induction l as [|[token pp] l IH]; intros rem h.
  - exists []. cbn. rewrite app_nil_r. split; reflexivity.
  - cbn [checkForInvoicePayments_loop]. unfold mbind, IO_bind.
    destruct (body_history c token pp rem h) as (evs1 & Hh & Hq).
    destruct (body c token pp rem h) as [t h1]. cbn [fst snd] in Hh, Hq.
    subst h1. destruct t as [|rem1].
    + exists evs1. cbn. auto.
    + destruct (IH rem1 (h ++ evs1)) as (evs2 & Hh2 & Hq2).
      exists (evs1 ++ evs2). rewrite app_assoc. split; [exact Hh2|].
      destruct (loop c l rem1 (h ++ evs1)) as [[b tokens] h2]. cbn in *.
      destruct b.
      * auto using undisturbed_app.
      * destruct Hq2. auto using ends_in_shutdown_app.
Qed.

(** The tokens collected so far are kept by the turns that follow. *)
Lemma loop_keeps c l rem h tokens h' :
  loop c l rem h = ((true, tokens), h') -> exists more, tokens = rem ++ more.
Proof.
  revert rem h. induction l as [|[token pp] l IH]; intros rem h.
  - cbn. intros [= <- <-]. exists []. rewrite app_nil_r. reflexivity.
  - cbn [checkForInvoicePayments_loop]. unfold mbind, IO_bind.
    destruct (body c token pp rem h) as [t h1] eqn:Hbody.
    destruct t as [|rem1]; [discriminate|].
    intros (more & ->)%IH.
    assert (exists m1, rem1 = rem ++ m1) as (m1 & ->).
    { revert Hbody. io_step.
      repeat (match goal with
              | |- context [match ?x with _ => _ end] => destruct x
              end; cbn);
        intros [= <- _];
        solve [ exists []; rewrite app_nil_r; reflexivity | eexists; reflexivity ]. }
    exists (m1 ++ more). rewrite app_assoc. reflexivity.
Qed.

(** Splitting the run of the loop at a binding. *)
Lemma loop_app_true c l1 l2 rem h rem1 h1 :
  loop c l1 rem h = ((true, rem1), h1) ->
  loop c (l1 ++ l2) rem h = loop c l2 rem1 h1.
Proof.
  revert rem h. induction l1 as [|[token pp] l1 IH]; intros rem h.
  - cbn. intros [= <- <-]. reflexivity.
  - cbn [checkForInvoicePayments_loop app]. unfold mbind, IO_bind.
    destruct (body c token pp rem h) as [[|rem'] h'].
    + discriminate.
    + apply IH.
Qed.

Lemma loop_app_false c l1 l2 rem h tokens h1 :
  loop c l1 rem h = ((false, tokens), h1) ->
  loop c (l1 ++ l2) rem h = ((false, []), h1).
Proof.
  revert rem h. induction l1 as [|[token pp] l1 IH]; intros rem h.
  - cbn. discriminate.
  - cbn [checkForInvoicePayments_loop app]. unfold mbind, IO_bind.
    destruct (body c token pp rem h) as [[|rem'] h'].
    + intros [= _ <-]. reflexivity.
    + apply IH.
Qed.

End Facts.

(** ** The turn of one binding

    The history at the points of a turn where a collaborator is called,
    for a turn that starts at history [h], and the answers given there. *)
Section Turn.

Variable env : Env.
Variable c : cmswww.
Variable token : string.
Variable pp : polledPayment.

Definition after_fetch (h : history) (invoice : Invoice) : history :=
  h ++ [EvGetInvoiceByToken token (Ok invoice)].

Definition clock_reading (h : history) (invoice : Invoice) : Time.t :=
  time_Now env (after_fetch h invoice).

Definition after_clock (h : history) (invoice : Invoice) : history :=
  after_fetch h invoice ++ [EvNow (clock_reading h invoice)].

Definition oracle_answer (h : history) (invoice : Invoice)
  : string * Z * option error :=
  util_FetchTxWithBlockExplorers env (after_clock h invoice)
    (address pp) (amount pp) (txNotBefore pp) (cfg_MinConfirmationsRequired c).

Definition after_oracle (h : history) (invoice : Invoice) : history :=
  after_clock h invoice ++
    [EvFetchTx (address pp) (amount pp) (txNotBefore pp)
       (cfg_MinConfirmationsRequired c) (oracle_answer h invoice)].

Definition update_answer (h : history) (invoice : Invoice) : option error :=
  db_UpdateInvoice env (after_oracle h invoice)
    (set_Status InvoiceStatusPaid invoice).

Definition after_update (h : history) (invoice : Invoice) : history :=
  after_oracle h invoice ++
    [EvUpdateInvoice (set_Status InvoiceStatusPaid invoice)
       (update_answer h invoice)].

(** The expiry test as the turn makes it. *)
Definition expired_in_turn (h : history) (invoice : Invoice) : bool :=
  Time.After (clock_reading h invoice) (Time.Unix (pollExpiry pp) 0).

Abbreviation body := (checkForInvoicePayments_body env c token pp).

Lemma body_fetch_shutdown rem h :
  db_GetInvoiceByToken env h token = Err ErrShutdown ->
  body rem h = (ReturnFalse, h ++ [EvGetInvoiceByToken token (Err ErrShutdown)]).
Proof. intros H. io_step. rewrite H. reflexivity. Qed.

Lemma body_fetch_error rem h err :
  db_GetInvoiceByToken env h token = Err err -> err <> ErrShutdown ->
  body rem h = (NextEntry rem, h ++ [EvGetInvoiceByToken token (Err err)]).
Proof.
  intros H Hne. io_step. rewrite H. cbn.
  destruct (decide (err = ErrShutdown)); [contradiction|reflexivity].
Qed.

Lemma body_paid rem h invoice :
  db_GetInvoiceByToken env h token = Ok invoice ->
  Status invoice = InvoiceStatusPaid ->
  body rem h = (NextEntry (rem ++ [token]), after_fetch h invoice).
Proof.
  intros H Hpaid. io_step. rewrite H. cbn.
  destruct (decide (Status invoice = InvoiceStatusPaid)); [reflexivity|contradiction].
Qed.

Lemma body_expired rem h invoice :
  db_GetInvoiceByToken env h token = Ok invoice ->
  Status invoice <> InvoiceStatusPaid ->
  expired_in_turn h invoice = true ->
  body rem h = (NextEntry (rem ++ [Token invoice]), after_clock h invoice).
Proof.
  unfold expired_in_turn, after_clock, clock_reading, after_fetch.
  intros H Hpaid Hexp. io_step. rewrite H. cbn.
  destruct (decide (Status invoice = InvoiceStatusPaid)); [contradiction|].
  cbn. rewrite Hexp. reflexivity.
Qed.

Lemma body_oracle_error rem h invoice tx amt err :
  db_GetInvoiceByToken env h token = Ok invoice ->
  Status invoice <> InvoiceStatusPaid ->
  expired_in_turn h invoice = false ->
  oracle_answer h invoice = (tx, amt, Some err) ->
  body rem h = (NextEntry rem, after_oracle h invoice).
Proof.
  unfold after_oracle, oracle_answer, expired_in_turn, after_clock,
    clock_reading, after_fetch.
  intros H Hpaid Hexp Hor. io_step. rewrite H. cbn.
  destruct (decide (Status invoice = InvoiceStatusPaid)); [contradiction|].
  cbn. rewrite Hexp. cbn. rewrite Hor. reflexivity.
Qed.

Lemma body_pending rem h invoice amt :
  db_GetInvoiceByToken env h token = Ok invoice ->
  Status invoice <> InvoiceStatusPaid ->
  expired_in_turn h invoice = false ->
  oracle_answer h invoice = (""%string, amt, None) ->
  body rem h = (NextEntry rem, after_oracle h invoice ++ [EvSleep pollCheckGap]).
Proof.
  unfold after_oracle, oracle_answer, expired_in_turn, after_clock,
    clock_reading, after_fetch.
  intros H Hpaid Hexp Hor. io_step. rewrite H. cbn.
  destruct (decide (Status invoice = InvoiceStatusPaid)); [contradiction|].
  cbn. rewrite Hexp. cbn. rewrite Hor. cbn. reflexivity.
Qed.

Lemma body_settled rem h invoice tx amt :
  db_GetInvoiceByToken env h token = Ok invoice ->
  Status invoice <> InvoiceStatusPaid ->
  expired_in_turn h invoice = false ->
  oracle_answer h invoice = (tx, amt, None) -> tx <> ""%string ->
  update_answer h invoice = None ->
  body rem h =
    (NextEntry (rem ++ [token]), after_update h invoice ++ [EvSleep pollCheckGap]).
Proof.
  unfold after_update, update_answer, after_oracle, oracle_answer,
    expired_in_turn, after_clock, clock_reading, after_fetch.
  intros H Hpaid Hexp Hor Htx Hup. io_step. rewrite H. cbn.
  destruct (decide (Status invoice = InvoiceStatusPaid)); [contradiction|].
  cbn. rewrite Hexp. cbn. rewrite Hor in Hup |- *. cbn.
  destruct (decide (tx <> ""%string)); [|contradiction].
  cbn. rewrite Hup. cbn. reflexivity.
Qed.

Lemma body_update_shutdown rem h invoice tx amt :
  db_GetInvoiceByToken env h token = Ok invoice ->
  Status invoice <> InvoiceStatusPaid ->
  expired_in_turn h invoice = false ->
  oracle_answer h invoice = (tx, amt, None) -> tx <> ""%string ->
  update_answer h invoice = Some ErrShutdown ->
  body rem h = (ReturnFalse, after_update h invoice).
Proof.
  unfold after_update, update_answer, after_oracle, oracle_answer,
    expired_in_turn, after_clock, clock_reading, after_fetch.
  intros H Hpaid Hexp Hor Htx Hup. io_step. rewrite H. cbn.
  destruct (decide (Status invoice = InvoiceStatusPaid)); [contradiction|].
  cbn. rewrite Hexp. cbn. rewrite Hor in Hup |- *. cbn.
  destruct (decide (tx <> ""%string)); [|contradiction].
  cbn. rewrite Hup. cbn. reflexivity.
Qed.

Lemma body_update_error rem h invoice tx amt err :
  db_GetInvoiceByToken env h token = Ok invoice ->
  Status invoice <> InvoiceStatusPaid ->
  expired_in_turn h invoice = false ->
  oracle_answer h invoice = (tx, amt, None) -> tx <> ""%string ->
  update_answer h invoice = Some err -> err <> ErrShutdown ->
  body rem h = (NextEntry rem, after_update h invoice).
Proof.
  unfold after_update, update_answer, after_oracle, oracle_answer,
    expired_in_turn, after_clock, clock_reading, after_fetch.
  intros H Hpaid Hexp Hor Htx Hup Hne. io_step. rewrite H. cbn.
  destruct (decide (Status invoice = InvoiceStatusPaid)); [contradiction|].
  cbn. rewrite Hexp. cbn. rewrite Hor in Hup |- *. cbn.
  destruct (decide (tx <> ""%string)); [|contradiction].
  cbn. rewrite Hup. cbn.
  destruct (decide (err = ErrShutdown)); [contradiction|reflexivity].
Qed.

(** In the pass over [snapshot] that starts at history [h0], the range
    comes to the binding of [token] to [pp] once the turns before it have
    collected [rem] and brought the history to [h]; [rest] is still to be
    visited. *)
Definition reaches (snapshot : gmap string polledPayment) (h0 : history)
    (rest : list (string * polledPayment)) (rem : list string)
    (h : history) : Prop :=
  exists before,
    map_range env h0 snapshot = before ++ (token, pp) :: rest /\
    checkForInvoicePayments_loop env c before [] h0 = ((true, rem), h).

(** From there the pass is the turn of the binding followed by the
    turns of the rest. *)
Lemma reaches_pass snapshot h0 rest rem h :
  reaches snapshot h0 rest rem h ->
  checkForInvoicePayments env c snapshot h0 =
    checkForInvoicePayments_loop env c ((token, pp) :: rest) rem h.
Proof.
  intros (before & Hrange & Hbefore).
  unfold checkForInvoicePayments, range, ask, mbind, IO_bind.
  rewrite Hrange. apply loop_app_true. exact Hbefore.
Qed.

Lemma reaches_next snapshot h0 rest rem h rem' h' :
  reaches snapshot h0 rest rem h ->
  body rem h = (NextEntry rem', h') ->
  checkForInvoicePayments env c snapshot h0 =
    checkForInvoicePayments_loop env c rest rem' h'.
Proof.
  intros Hr Hb. rewrite (reaches_pass _ _ _ _ _ Hr).
  cbn [checkForInvoicePayments_loop]. unfold mbind, IO_bind.
  rewrite Hb. reflexivity.
Qed.

Lemma reaches_return snapshot h0 rest rem h h' :
  reaches snapshot h0 rest rem h ->
  body rem h = (ReturnFalse, h') ->
  checkForInvoicePayments env c snapshot h0 = ((false, []), h').
Proof.
  intros Hr Hb. rewrite (reaches_pass _ _ _ _ _ Hr).
  cbn [checkForInvoicePayments_loop]. unfold mbind, IO_bind.
  rewrite Hb. reflexivity.
Qed.

(** The binding that the range reaches is a binding of the snapshot. *)
Lemma reaches_lookup snapshot h0 rest rem h :
  range_ok env -> reaches snapshot h0 rest rem h ->
  snapshot !! token = Some pp.
Proof.
  intros Hok (before & Hrange & _).
  apply elem_of_map_to_list. rewrite <- (Hok h0 snapshot), Hrange.
  apply elem_of_app. right. apply elem_of_cons. left. reflexivity.
Qed.

End Turn.

(** ** The snapshot and the live pool *)

(** The store hands out, for a token, the invoice of that token (the
    query of [GetInvoiceByToken] selects on it). *)
Definition tokens_match (env : Env) : Prop :=
  forall h token invoice,
    db_GetInvoiceByToken env h token = Ok invoice -> Token invoice = token.

Section Pool.

Variable env : Env.

Lemma foldl_insert_lookup (l : list (string * polledPayment))
    (m : gmap string polledPayment) k v :
  NoDup l.*1 -> (k, v) ∈ l ->
  foldl (fun copy kv => <[kv.1 := kv.2]> copy) m l !! k = Some v.
Proof.
  revert m. induction l as [|[k' v'] l IH]; intros m Hnd Hin.
  - apply elem_of_nil in Hin. contradiction.
  - cbn in Hnd. apply NoDup_cons in Hnd as [Hk' Hnd].
    apply elem_of_cons in Hin as [[= <- <-]|Hin]; cbn.
    + clear IH Hnd. revert m.
      induction l as [|[k2 v2] l IH]; intros m; cbn.
      * apply lookup_insert_eq.
      * cbn in Hk'. apply not_elem_of_cons in Hk' as [Hne Hk'].
        rewrite insert_insert_ne by congruence. apply IH. exact Hk'.
    + apply IH; assumption.
Qed.

Lemma foldl_insert_lookup_None (l : list (string * polledPayment))
    (m : gmap string polledPayment) k :
  k ∉ l.*1 ->
  foldl (fun copy kv => <[kv.1 := kv.2]> copy) m l !! k = m !! k.
Proof.
  revert m. induction l as [|[k' v'] l IH]; intros m Hk; [reflexivity|].
  cbn in *. apply not_elem_of_cons in Hk as [Hne Hk].
  rewrite IH by exact Hk. apply lookup_insert_ne. congruence.
Qed.

(** Copying the bindings one by one into a fresh map gives the map. *)
Lemma copy_of_range (m : gmap string polledPayment) l :
  l ≡ₚ map_to_list m ->
  foldl (fun copy kv => <[kv.1 := kv.2]> copy) ∅ l = m.
Proof.
  intros Hperm. apply map_eq. intros k.
  assert (NoDup l.*1) as Hnd.
  { rewrite Hperm. apply NoDup_fst_map_to_list. }
  destruct (m !! k) as [v|] eqn:Hk.
  - apply foldl_insert_lookup; [exact Hnd|].
    rewrite Hperm. apply elem_of_map_to_list. exact Hk.
  - rewrite foldl_insert_lookup_None; [apply lookup_empty|].
    intros ([k' v] & -> & Hin)%list_elem_of_fmap.
    rewrite Hperm in Hin. apply elem_of_map_to_list in Hin.
    cbn in Hk. congruence.
Qed.

Lemma createPolledPaymentsCopy_eq c h :
  range_ok env ->
  createPolledPaymentsCopy env c h = (polledPayments c, h).
Proof.
  intros Hok. unfold createPolledPaymentsCopy, range, ask, mbind, mret,
    IO_bind, IO_ret.
  rewrite (copy_of_range _ _ (Hok h (polledPayments c))). reflexivity.
Qed.

Lemma removeInvoicesFromPolling_lookup tokens c token :
  polledPayments (removeInvoicesFromPolling tokens c) !! token =
    if bool_decide (token ∈ tokens) then None else polledPayments c !! token.
Proof.
  unfold removeInvoicesFromPolling, with_polledPayments. cbn.
  generalize (polledPayments c). induction tokens as [|t tokens IH]; intros m.
  - reflexivity.
  - cbn. rewrite IH. destruct (decide (t = token)) as [->|Hne].
    + rewrite lookup_delete_eq.
      rewrite (bool_decide_eq_true_2 (token ∈ token :: tokens))
        by (apply elem_of_cons; auto).
      destruct (bool_decide _); reflexivity.
    + rewrite lookup_delete_ne by exact Hne.
      destruct (decide (token ∈ tokens)) as [Hin|Hnin].
      * rewrite !bool_decide_eq_true_2; auto. apply elem_of_cons; auto.
      * rewrite !bool_decide_eq_false_2; auto.
        intros [?|?]%elem_of_cons; congruence.
Qed.

(** With a store that answers for the token asked, a turn collects at
    most the token of its own binding. *)
Lemma body_tokens c token pp rem h rem' h' :
  tokens_match env ->
  checkForInvoicePayments_body env c token pp rem h = (NextEntry rem', h') ->
  rem' = rem \/ rem' = rem ++ [token].
Proof.
  intros Hmatch. io_step.
  destruct (db_GetInvoiceByToken env h token) as [invoice|err] eqn:Hget; cbn.
  - apply Hmatch in Hget. rewrite Hget.
    repeat (match goal with
            | |- context [match ?x with _ => _ end] => destruct x
            end; cbn);
      intros [= <- _]; auto.
  - destruct (decide _); cbn; intros [= <- _]; auto.
Qed.

Lemma loop_tokens c l rem h b tokens h' :
  tokens_match env ->
  checkForInvoicePayments_loop env c l rem h = ((b, tokens), h') ->
  forall t, t ∈ tokens -> t ∈ rem \/ t ∈ l.*1.
Proof.
  intros Hmatch. revert rem h.
  induction l as [|[token pp] l IH]; intros rem h.
  - cbn. intros [= <- <- <-]. auto.
  - cbn [checkForInvoicePayments_loop]. unfold mbind, IO_bind.
    destruct (checkForInvoicePayments_body env c token pp rem h)
      as [[|rem1] h1] eqn:Hbody.
    + intros [= <- <- <-] t Hin. apply elem_of_nil in Hin. contradiction.
    + intros Hloop t Hin. cbn.
      destruct (IH _ _ Hloop t Hin) as [Hrem1|Hl].
      * destruct (body_tokens _ _ _ _ _ _ _ Hmatch Hbody) as [->| ->].
        -- auto.
        -- apply elem_of_app in Hrem1 as [?|Ht]; auto.
           apply list_elem_of_singleton in Ht. subst t.
           right. apply elem_of_cons. auto.
      * right. apply elem_of_cons. auto.
Qed.

End Pool.

(** ** Reconciliation, binding by binding *)

Section Reconciliation.

Variable env : Env.
Variable c : cmswww.
Variable token : string.
Variable pp : polledPayment.
Variable snapshot : gmap string polledPayment.
Variable h0 : history.
Variable rest : list (string * polledPayment).
Variable rem : list string.
Variable h : history.

Hypothesis Hreaches : reaches env c token pp snapshot h0 rest rem h.

Abbreviation pass := (checkForInvoicePayments env c snapshot h0).
Abbreviation turn_of := (checkForInvoicePayments_body env c token pp rem h).

(** When the turn of the binding goes on to the next binding, the
    returned tokens and history of the pass extend the ones of the
    turn. *)
Lemma pass_extends rem' h' tokens hend :
  turn_of = (NextEntry rem', h') ->
  pass = ((true, tokens), hend) ->
  (exists more, tokens = rem' ++ more) /\ (exists evs, hend = h' ++ evs).
Proof.
  intros Hturn Hpass.
  rewrite (reaches_next _ _ _ _ _ _ _ _ _ _ _ Hreaches Hturn) in Hpass.
  split.
  - eapply loop_keeps. exact Hpass.
  - destruct (loop_history env c rest rem' h') as (evs & Hevs & _).
    rewrite Hpass in Hevs. exists evs. exact Hevs.
Qed.

(** When a binding visited later meets a store that is shut down, the
    pass returns no token at all: what the turn had collected is lost. *)
Lemma pass_cut_short rem' h' tokens hend :
  turn_of = (NextEntry rem', h') ->
  pass = ((false, tokens), hend) ->
  tokens = [] /\ (exists evs, hend = h' ++ evs).
Proof.
  intros Hturn Hpass.
  rewrite (reaches_next _ _ _ _ _ _ _ _ _ _ _ Hreaches Hturn) in Hpass.
  destruct (loop_history env c rest rem' h') as (evs & Hevs & Hq).
  rewrite Hpass in Hevs, Hq. cbn [fst snd] in Hevs, Hq.
  split; [tauto|]. exists evs. exact Hevs.
Qed.

(** The token of the binding is neither among the tokens collected
    before its turn nor the key of a binding still to be visited. *)
Lemma reaches_fresh :
  range_ok env -> tokens_match env -> (token ∉ rem) /\ (token ∉ rest.*1).
Proof.
  intros Hok Hmatch. destruct Hreaches as (before & Hrange & Hbefore).
  pose proof (NoDup_fst_map_to_list snapshot) as Hnd.
  rewrite <- (Hok h0 snapshot), Hrange, fmap_app, fmap_cons in Hnd.
  cbn in Hnd. apply NoDup_app in Hnd as (_ & Hdisj & Hnd).
  apply NoDup_cons in Hnd as [Hrest _].
  split; [|exact Hrest].
  intros Hin.
  destruct (loop_tokens env c before [] h0 true rem h Hmatch Hbefore token Hin)
    as [Hnil|Hbef].
  - apply elem_of_nil in Hnil. contradiction.
  - apply (Hdisj token Hbef). apply elem_of_cons. auto.
Qed.

(** C1, amended.  A binding whose invoice is fetched with a status other
    than Paid, whose expiry has not passed, for which the block explorers
    report a transaction id that is not empty, with no error, and whose
    store update then succeeds: its turn adds its token to the tokens to
    remove; the store has been given, and has accepted, the fetched
    invoice with its status set to Paid; a pass that returns [true]
    returns a list that holds the token; and a pass that returns [false],
    a binding visited later having met a store that is shut down, returns
    the empty list, the invoice being Paid in the store all the same. *)
Theorem settled_entry_is_removed_and_paid invoice tx amt :
  db_GetInvoiceByToken env h token = Ok invoice ->
  Status invoice <> InvoiceStatusPaid ->
  expired_in_turn env token pp h invoice = false ->
  oracle_answer env c token pp h invoice = (tx, amt, None) ->
  tx <> ""%string ->
  update_answer env c token pp h invoice = None ->
  let paid := set_Status InvoiceStatusPaid invoice in
  let h' := after_update env c token pp h invoice ++ [EvSleep pollCheckGap] in
  turn_of = (NextEntry (rem ++ [token]), h') /\
  EvUpdateInvoice paid None ∈ h' /\
  Status paid = InvoiceStatusPaid /\ Token paid = Token invoice /\
  Payments paid = Payments invoice /\
  pass = checkForInvoicePayments_loop env c rest (rem ++ [token]) h' /\
  (forall tokens hend, pass = ((true, tokens), hend) ->
     token ∈ tokens /\ EvUpdateInvoice paid None ∈ hend) /\
  (forall tokens hend, pass = ((false, tokens), hend) ->
     tokens = [] /\ EvUpdateInvoice paid None ∈ hend).
Proof.
  intros Hget Hstatus Hexp Horacle Htx Hupdate paid h'.
  pose proof (body_settled env c token pp rem h invoice tx amt
                Hget Hstatus Hexp Horacle Htx Hupdate) as Hturn.
  assert (EvUpdateInvoice paid None ∈ h') as Hin.
  { unfold h', after_update. rewrite Hupdate.
    apply elem_of_app. left. apply elem_of_app. right.
    apply list_elem_of_singleton. reflexivity. }
  split; [exact Hturn|]. split; [exact Hin|].
  split; [reflexivity|]. split; [reflexivity|]. split; [reflexivity|].
  split; [exact (reaches_next _ _ _ _ _ _ _ _ _ _ _ Hreaches Hturn)|].
  split; intros tokens hend Hpass.
  - destruct (pass_extends _ _ _ _ Hturn Hpass) as [[more ->] [evs ->]].
    split.
    + apply elem_of_app. left. apply elem_of_app. right.
      apply list_elem_of_singleton. reflexivity.
    + apply elem_of_app. left. exact Hin.
  - destruct (pass_cut_short _ _ _ _ Hturn Hpass) as [-> [evs ->]].
    split; [reflexivity|]. apply elem_of_app. left. exact Hin.
Qed.

(** C4, amended.  A binding whose fetched invoice already has the status
    Paid: its turn adds its token to the tokens to remove and consists of
    the fetch alone, so the block explorers are not asked; a pass that
    returns [true] returns a list that holds the token; and a pass that
    returns [false], a binding visited later having met a store that is
    shut down, returns the empty list. *)
Theorem paid_entry_is_removed_without_oracle invoice :
  db_GetInvoiceByToken env h token = Ok invoice ->
  Status invoice = InvoiceStatusPaid ->
  let evs := [EvGetInvoiceByToken token (Ok invoice)] in
  turn_of = (NextEntry (rem ++ [token]), h ++ evs) /\
  existsb is_FetchTx evs = false /\
  pass = checkForInvoicePayments_loop env c rest (rem ++ [token]) (h ++ evs) /\
  (forall tokens hend, pass = ((true, tokens), hend) -> token ∈ tokens) /\
  (forall tokens hend, pass = ((false, tokens), hend) -> tokens = []).
Proof.
  intros Hget Hstatus evs.
  pose proof (body_paid env c token pp rem h invoice Hget Hstatus) as Hturn.
  split; [exact Hturn|]. split; [reflexivity|].
  split; [exact (reaches_next _ _ _ _ _ _ _ _ _ _ _ Hreaches Hturn)|].
  split; intros tokens hend Hpass.
  - destruct (pass_extends _ _ _ _ Hturn Hpass) as [[more ->] _].
    apply elem_of_app. left. apply elem_of_app. right.
    apply list_elem_of_singleton. reflexivity.
  - exact (proj1 (pass_cut_short _ _ _ _ Hturn Hpass)).
Qed.

(** C5.  A binding for which the block explorers are asked and answer
    with the empty transaction id and no error: its turn leaves the
    tokens to remove as they were and calls the store for the fetch
    only, never for an update; the pass goes on with the same tokens;
    and, with a range that visits each binding once and a store that
    answers for the token asked, the token is not in the list the pass
    returns, so that the cycle of the driver that runs this pass leaves
    the binding in the pool. *)
Theorem pending_entry_is_retained invoice amt :
  db_GetInvoiceByToken env h token = Ok invoice ->
  Status invoice <> InvoiceStatusPaid ->
  expired_in_turn env token pp h invoice = false ->
  oracle_answer env c token pp h invoice = (""%string, amt, None) ->
  let evs := [EvGetInvoiceByToken token (Ok invoice);
              EvNow (clock_reading env token h invoice);
              EvFetchTx (address pp) (amount pp) (txNotBefore pp)
                (cfg_MinConfirmationsRequired c) (""%string, amt, None);
              EvSleep pollCheckGap] in
  turn_of = (NextEntry rem, h ++ evs) /\
  existsb is_UpdateInvoice evs = false /\
  pass = checkForInvoicePayments_loop env c rest rem (h ++ evs) /\
  (range_ok env -> tokens_match env ->
     (forall b tokens hend, pass = ((b, tokens), hend) -> token ∉ tokens) /\
     (snapshot = polledPayments c ->
      forall returned c' hend,
        checkForPayments_cycle env c h0 = ((returned, c'), hend) ->
        polledPayments c' !! token = Some pp)).
Proof.
  intros Hget Hstatus Hexp Horacle evs.
  pose proof (body_pending env c token pp rem h invoice amt
                Hget Hstatus Hexp Horacle) as Hturn.
  assert (after_oracle env c token pp h invoice ++ [EvSleep pollCheckGap]
          = h ++ evs) as Hevs.
  { unfold after_oracle, after_clock, after_fetch, evs. rewrite Horacle.
    rewrite <- !app_assoc. reflexivity. }
  rewrite Hevs in Hturn.
  pose proof (reaches_next _ _ _ _ _ _ _ _ _ _ _ Hreaches Hturn) as Hpass.
  split; [exact Hturn|]. split; [reflexivity|]. split; [exact Hpass|].
  intros Hok Hmatch.
  destruct (reaches_fresh Hok Hmatch) as [Hrem Hrest].
  assert (forall b tokens hend, pass = ((b, tokens), hend) -> token ∉ tokens)
    as Hnotin.
  { intros b tokens hend Hp Hin. rewrite Hpass in Hp.
    destruct (loop_tokens env c rest rem _ b tokens hend Hmatch Hp token Hin);
      contradiction. }
  split; [exact Hnotin|].
  intros -> returned c' hend.
  unfold checkForPayments_cycle, mbind, IO_bind.
  rewrite (createPolledPaymentsCopy_eq env c h0 Hok).
  destruct (checkForInvoicePayments env c (polledPayments c) h0)
    as [[b tokens] h1] eqn:Hp.
  pose proof (reaches_lookup env c token pp _ _ _ _ _ Hok Hreaches) as Hpool.
  destruct b; cbn.
  - intros [= _ <- _]. rewrite removeInvoicesFromPolling_lookup.
    rewrite bool_decide_eq_false_2 by exact (Hnotin _ _ _ eq_refl). exact Hpool.
  - intros [= _ <- _]. exact Hpool.
Qed.

(** C3, amended.  A binding whose invoice is fetched, the store
    answering with the invoice of that token, and whose expiry is in the
    past when its turn comes: the turn adds the token to the tokens to
    remove, makes no store update and does not ask the block explorers;
    a pass that returns [true] returns a list that holds the token; and
    a pass that returns [false], a binding visited later having met a
    store that is shut down, returns the empty list. *)
Theorem expired_entry_is_removed_once_fetched invoice :
  db_GetInvoiceByToken env h token = Ok invoice ->
  Token invoice = token ->
  expired_in_turn env token pp h invoice = true ->
  exists evs,
    turn_of = (NextEntry (rem ++ [token]), h ++ evs) /\
    existsb is_UpdateInvoice evs = false /\
    existsb is_FetchTx evs = false /\
    pass = checkForInvoicePayments_loop env c rest (rem ++ [token]) (h ++ evs) /\
    (forall tokens hend, pass = ((true, tokens), hend) -> token ∈ tokens) /\
    (forall tokens hend, pass = ((false, tokens), hend) -> tokens = []).
Proof.
  intros Hget Htoken Hexp.
  assert (exists evs, turn_of = (NextEntry (rem ++ [token]), h ++ evs) /\
            existsb is_UpdateInvoice evs = false /\
            existsb is_FetchTx evs = false) as (evs & Hturn & Hu & Hf).
  { destruct (decide (Status invoice = InvoiceStatusPaid)) as [Hpaid|Hpaid].
    - exists [EvGetInvoiceByToken token (Ok invoice)].
      split; [|split; reflexivity].
      exact (body_paid env c token pp rem h invoice Hget Hpaid).
    - exists [EvGetInvoiceByToken token (Ok invoice);
              EvNow (clock_reading env token h invoice)].
      split; [|split; reflexivity].
      rewrite (body_expired env c token pp rem h invoice Hget Hpaid Hexp).
      unfold after_clock, after_fetch. rewrite Htoken, <- app_assoc.
      reflexivity. }
  exists evs. split; [exact Hturn|]. split; [exact Hu|]. split; [exact Hf|].
  split; [exact (reaches_next _ _ _ _ _ _ _ _ _ _ _ Hreaches Hturn)|].
  split; intros tokens hend Hpass.
  - destruct (pass_extends _ _ _ _ Hturn Hpass) as [[more ->] _].
    apply elem_of_app. left. apply elem_of_app. right.
    apply list_elem_of_singleton. reflexivity.
  - exact (proj1 (pass_cut_short _ _ _ _ Hturn Hpass)).
Qed.

(** C6, amended.  The sleep of [pollCheckGap] inside the pass follows the
    turn of a binding for which the block explorers were asked and
    answered without error, and which was then settled (the store update
    succeeded) or left pending (no transaction yet): the sleep is the
    last event of that turn and the next binding is visited after it.
    The turn of a binding that is dealt with without asking the block
    explorers (its fetch failed with an error other than Shutdown, its
    invoice is already Paid, or it has expired) contains no sleep: the
    next binding is visited at once. *)
Theorem sleep_follows_only_a_polled_entry :
  (forall invoice tx amt,
     db_GetInvoiceByToken env h token = Ok invoice ->
     Status invoice <> InvoiceStatusPaid ->
     expired_in_turn env token pp h invoice = false ->
     oracle_answer env c token pp h invoice = (tx, amt, None) ->
     tx = ""%string \/ update_answer env c token pp h invoice = None ->
     exists rem' evs,
       turn_of = (NextEntry rem', (h ++ evs) ++ [EvSleep pollCheckGap]) /\
       existsb is_FetchTx evs = true /\
       existsb is_Sleep evs = false /\
       pass = checkForInvoicePayments_loop env c rest rem'
                ((h ++ evs) ++ [EvSleep pollCheckGap])) /\
  (forall r,
     db_GetInvoiceByToken env h token = r ->
     match r with
     | Err err => err <> ErrShutdown
     | Ok invoice => Status invoice = InvoiceStatusPaid \/
                     expired_in_turn env token pp h invoice = true
     end ->
     exists rem' evs,
       turn_of = (NextEntry rem', h ++ evs) /\
       existsb is_FetchTx evs = false /\
       existsb is_Sleep evs = false /\
       pass = checkForInvoicePayments_loop env c rest rem' (h ++ evs)).
Proof.
  split.
  - intros invoice tx amt Hget Hstatus Hexp Horacle Hcase.
    destruct (decide (tx = ""%string)) as [->|Htx].
    + exists rem,
        [EvGetInvoiceByToken token (Ok invoice);
         EvNow (clock_reading env token h invoice);
         EvFetchTx (address pp) (amount pp) (txNotBefore pp)
           (cfg_MinConfirmationsRequired c) (""%string, amt, None)].
      assert (turn_of = (NextEntry rem,
                (h ++ [EvGetInvoiceByToken token (Ok invoice);
                       EvNow (clock_reading env token h invoice);
                       EvFetchTx (address pp) (amount pp) (txNotBefore pp)
                         (cfg_MinConfirmationsRequired c) (""%string, amt, None)])
                ++ [EvSleep pollCheckGap])) as Hturn.
      { rewrite (body_pending env c token pp rem h invoice amt
                   Hget Hstatus Hexp Horacle).
        unfold after_oracle, after_clock, after_fetch. rewrite Horacle.
        rewrite <- !app_assoc. reflexivity. }
      split; [exact Hturn|]. split; [reflexivity|]. split; [reflexivity|].
      exact (reaches_next _ _ _ _ _ _ _ _ _ _ _ Hreaches Hturn).
    + destruct Hcase as [?|Hupdate]; [contradiction|].
      exists (rem ++ [token]),
        [EvGetInvoiceByToken token (Ok invoice);
         EvNow (clock_reading env token h invoice);
         EvFetchTx (address pp) (amount pp) (txNotBefore pp)
           (cfg_MinConfirmationsRequired c) (tx, amt, None);
         EvUpdateInvoice (set_Status InvoiceStatusPaid invoice) None].
      assert (turn_of = (NextEntry (rem ++ [token]),
                (h ++ [EvGetInvoiceByToken token (Ok invoice);
                       EvNow (clock_reading env token h invoice);
                       EvFetchTx (address pp) (amount pp) (txNotBefore pp)
                         (cfg_MinConfirmationsRequired c) (tx, amt, None);
                       EvUpdateInvoice (set_Status InvoiceStatusPaid invoice) None])
                ++ [EvSleep pollCheckGap])) as Hturn.
      { rewrite (body_settled env c token pp rem h invoice tx amt
                   Hget Hstatus Hexp Horacle Htx Hupdate).
        unfold after_update, after_oracle, after_clock, after_fetch.
        rewrite Hupdate, Horacle. rewrite <- !app_assoc. reflexivity. }
      split; [exact Hturn|]. split; [reflexivity|]. split; [reflexivity|].
      exact (reaches_next _ _ _ _ _ _ _ _ _ _ _ Hreaches Hturn).
  - intros [invoice|err] Hget Hcase.
    + destruct (decide (Status invoice = InvoiceStatusPaid)) as [Hpaid|Hpaid].
      * exists (rem ++ [token]), [EvGetInvoiceByToken token (Ok invoice)].
        pose proof (body_paid env c token pp rem h invoice Hget Hpaid) as Hturn.
        split; [exact Hturn|]. split; [reflexivity|]. split; [reflexivity|].
        exact (reaches_next _ _ _ _ _ _ _ _ _ _ _ Hreaches Hturn).
      * destruct Hcase as [?|Hexp]; [contradiction|].
        exists (rem ++ [Token invoice]),
          [EvGetInvoiceByToken token (Ok invoice);
           EvNow (clock_reading env token h invoice)].
        assert (turn_of = (NextEntry (rem ++ [Token invoice]),
                  h ++ [EvGetInvoiceByToken token (Ok invoice);
                        EvNow (clock_reading env token h invoice)])) as Hturn.
        { rewrite (body_expired env c token pp rem h invoice Hget Hpaid Hexp).
          unfold after_clock, after_fetch. rewrite <- app_assoc. reflexivity. }
        split; [exact Hturn|]. split; [reflexivity|]. split; [reflexivity|].
        exact (reaches_next _ _ _ _ _ _ _ _ _ _ _ Hreaches Hturn).
    + exists rem, [EvGetInvoiceByToken token (Err err)].
      pose proof (body_fetch_error env c token pp rem h err Hget Hcase) as Hturn.
      split; [exact Hturn|]. split; [reflexivity|]. split; [reflexivity|].
      exact (reaches_next _ _ _ _ _ _ _ _ _ _ _ Hreaches Hturn).
Qed.

End Reconciliation.

(** ** The driver *)

Section Driver.

Variable env : Env.

Lemma createPolledPaymentsCopy_history c h :
  (createPolledPaymentsCopy env c h).2 = h.
Proof. reflexivity. Qed.

(** A cycle in terms of its pass. *)
Lemma cycle_unfold c h :
  checkForPayments_cycle env c h =
    let snapshot := (createPolledPaymentsCopy env c h).1 in
    match checkForInvoicePayments env c snapshot h with
    | ((true, tokens), h') =>
        ((false, removeInvoicesFromPolling tokens c), h' ++ [EvSleep pollCheckGap])
    | ((false, _), h') => ((true, c), h')
    end.
Proof.
  unfold checkForPayments_cycle, createPolledPaymentsCopy, range, ask,
    Sleep, emit, mbind, mret, IO_bind, IO_ret. cbn.
  destruct (checkForInvoicePayments _ _ _ _) as [[[] tokens] h']; reflexivity.
Qed.

Lemma pass_history c snapshot h :
  exists evs, (checkForInvoicePayments env c snapshot h).2 = h ++ evs /\
    match (checkForInvoicePayments env c snapshot h).1 with
    | (true, _) => undisturbed evs
    | (false, tokens) => tokens = [] /\ ends_in_shutdown evs
    end.
Proof.
  unfold checkForInvoicePayments, range, ask, mbind, IO_bind.
  apply loop_history.
Qed.

Lemma cycle_history c h :
  exists evs, (checkForPayments_cycle env c h).2 = h ++ evs /\
    if (checkForPayments_cycle env c h).1.1
    then ends_in_shutdown evs /\ (checkForPayments_cycle env c h).1.2 = c
    else undisturbed evs.
Proof.
  rewrite cycle_unfold. cbn zeta.
  destruct (pass_history c (createPolledPaymentsCopy env c h).1 h)
    as (evs & Hh & Hq).
  destruct (checkForInvoicePayments _ _ _ _) as [[[] tokens] h']; cbn in *.
  - exists (evs ++ [EvSleep pollCheckGap]). rewrite Hh, app_assoc.
    split; [reflexivity|]. apply undisturbed_app; [exact Hq|reflexivity].
  - exists evs. destruct Hq. auto.
Qed.

Lemma checkForPayments_S cycles c h :
  checkForPayments env (S cycles) c h =
    match checkForPayments_cycle env c h with
    | ((true, c'), h') => ((true, c'), h')
    | ((false, c'), h') => checkForPayments env cycles c' h'
    end.
Proof.
  cbn [checkForPayments]. unfold mbind, mret, IO_bind, IO_ret.
  destruct (checkForPayments_cycle env c h) as [[[] c'] h']; reflexivity.
Qed.

Lemma checkForPayments_one c h :
  checkForPayments env 1 c h = checkForPayments_cycle env c h.
Proof.
  rewrite checkForPayments_S.
  destruct (checkForPayments_cycle env c h) as [[[] c'] h']; reflexivity.
Qed.

(** Observing the driver for [n + m] cycles is observing it for [n]
    cycles and, if it is still running, for [m] more. *)
Lemma checkForPayments_plus n m c h :
  checkForPayments env (n + m) c h =
    match checkForPayments env n c h with
    | ((true, c'), h') => ((true, c'), h')
    | ((false, c'), h') => checkForPayments env m c' h'
    end.
Proof.
  revert c h. induction n as [|n IH]; intros c h; [reflexivity|].
  change (S n + m)%nat with (S (n + m)). rewrite !checkForPayments_S.
  destruct (checkForPayments_cycle env c h) as [[[] c'] h']; [reflexivity|].
  apply IH.
Qed.

Lemma driver_history cycles c h :
  exists evs, (checkForPayments env cycles c h).2 = h ++ evs /\
    if (checkForPayments env cycles c h).1.1
    then ends_in_shutdown evs else undisturbed evs.
Proof.
  revert c h. induction cycles as [|n IH]; intros c h.
  - exists []. cbn. rewrite app_nil_r. split; reflexivity.
  - rewrite checkForPayments_S.
    destruct (cycle_history c h) as (evs1 & Hh1 & Hq1).
    destruct (checkForPayments_cycle env c h) as [[[] c1] h1]; cbn in *.
    + exists evs1. destruct Hq1. auto.
    + subst h1. destruct (IH c1 (h ++ evs1)) as (evs2 & Hh2 & Hq2).
      exists (evs1 ++ evs2). rewrite app_assoc. split; [exact Hh2|].
      destruct ((checkForPayments env n c1 (h ++ evs1)).1.1).
      * apply ends_in_shutdown_app; assumption.
      * apply undisturbed_app; assumption.
Qed.

(** The driver that has returned has returned in its last cycle, from
    the server as it was when that cycle began. *)
Lemma driver_returned cycles c h c' h' :
  checkForPayments env cycles c h = ((true, c'), h') ->
  exists k hk,
    (k < cycles)%nat /\
    checkForPayments env k c h = ((false, c'), hk) /\
    checkForPayments_cycle env c' hk = ((true, c'), h').
Proof.
  revert c h. induction cycles as [|n IH]; intros c h.
  - cbn. discriminate.
  - rewrite checkForPayments_S.
    destruct (cycle_history c h) as (evs1 & Hh1 & Hq1).
    destruct (checkForPayments_cycle env c h) as [[[] c1] h1] eqn:Hcycle;
      cbn in *.
    + intros [= <- <-]. destruct Hq1 as [_ ->].
      exists O, h. split; [lia|]. split; [reflexivity|exact Hcycle].
    + intros (k & hk & Hk & Hrun & Hlast)%IH.
      exists (S k), hk. split; [lia|]. split; [|exact Hlast].
      rewrite checkForPayments_S, Hcycle. exact Hrun.
Qed.

End Driver.

(** C2.  Observed for any number of cycles, the driver has returned
    exactly when one of the store calls it made (the fetch of an invoice
    by token or the update of an invoice) was answered with ErrShutdown.
    That answer is then the last event of the run: nothing of the snapshot
    is looked at after it, and observing the driver for longer shows
    nothing more.  As long as no store call was answered with ErrShutdown,
    whatever other errors occurred, every pass returns [true] and the
    driver goes into a further cycle. *)
Theorem driver_stops_iff_store_shutdown (env : Env) (cycles : nat)
    (c : cmswww) (h : history) :
  let run := checkForPayments env cycles c h in
  exists evs,
    run.2 = h ++ evs /\
    (run.1.1 = true <-> existsb store_shutdown evs = true) /\
    (run.1.1 = true ->
       ends_in_shutdown evs /\
       forall more, checkForPayments env (cycles + more) c h = run) /\
    (run.1.1 = false ->
       undisturbed evs /\
       checkForPayments env (S cycles) c h =
         checkForPayments_cycle env run.1.2 run.2) /\
    (forall snapshot h0,
       exists evs0,
         (checkForInvoicePayments env c snapshot h0).2 = h0 ++ evs0 /\
         ((checkForInvoicePayments env c snapshot h0).1.1 = false <->
          existsb store_shutdown evs0 = true)).
Proof.
  intros run. destruct (driver_history env cycles c h) as (evs & Hh & Hq).
  fold run in Hh, Hq. exists evs. split; [exact Hh|].
  split; [|split; [|split]].
  - destruct (run.1.1).
    + split; [intros _; apply ends_in_shutdown_existsb; exact Hq|reflexivity].
    + rewrite (undisturbed_existsb _ Hq). split; discriminate.
  - intros Hret. rewrite Hret in Hq. split; [exact Hq|].
    intros more. rewrite checkForPayments_plus. fold run.
    destruct run as [[[] c'] h']; [reflexivity|discriminate].
  - intros Hrun. rewrite Hrun in Hq. split; [exact Hq|].
    rewrite <- Nat.add_1_r, checkForPayments_plus. fold run.
    destruct run as [[[] c'] h']; [discriminate|].
    apply checkForPayments_one.
  - intros snapshot h0.
    destruct (pass_history env c snapshot h0) as (evs0 & Hh0 & Hq0).
    exists evs0. split; [exact Hh0|].
    destruct (checkForInvoicePayments env c snapshot h0) as [[[] tokens] h1];
      cbn in *.
    + rewrite (undisturbed_existsb _ Hq0). split; discriminate.
    + destruct Hq0 as [_ Hq0]. rewrite (ends_in_shutdown_existsb _ Hq0).
      split; reflexivity.
Qed.

(** C9.  A pass that returns [false] returns no tokens, whatever the
    turns before the shut down answer had collected; the cycle of the
    driver then returns without removing anything, with the server as it
    was; and a driver that has returned has left the pool as it was when
    its last cycle began. *)
Theorem shutdown_discards_removals (env : Env) (c : cmswww)
    (snapshot : gmap string polledPayment) (h0 : history)
    (tokens : list string) (hend : history) :
  checkForInvoicePayments env c snapshot h0 = ((false, tokens), hend) ->
  tokens = [] /\
  (forall token pp rest rem h h',
     reaches env c token pp snapshot h0 rest rem h ->
     checkForInvoicePayments_body env c token pp rem h = (ReturnFalse, h') ->
     hend = h' /\ tokens = []) /\
  (snapshot = (createPolledPaymentsCopy env c h0).1 ->
     checkForPayments_cycle env c h0 = ((true, c), hend) /\
     forall cycles, checkForPayments env (S cycles) c h0 = ((true, c), hend)) /\
  (forall cycles c0 h c' h',
     checkForPayments env cycles c0 h = ((true, c'), h') ->
     exists k hk,
       (k < cycles)%nat /\
       checkForPayments env k c0 h = ((false, c'), hk) /\
       checkForPayments_cycle env c' hk = ((true, c'), h')).
Proof.
  intros Hpass.
  assert (tokens = []) as Htokens.
  { destruct (pass_history env c snapshot h0) as (evs & _ & Hq).
    rewrite Hpass in Hq. cbn in Hq. tauto. }
  split; [exact Htokens|]. split; [|split].
  - intros token pp rest rem h h' Hreaches Hturn.
    rewrite (reaches_return env c token pp _ _ _ _ _ _ Hreaches Hturn) in Hpass.
    split; congruence.
  - intros ->.
    assert (checkForPayments_cycle env c h0 = ((true, c), hend)) as Hcycle.
    { rewrite cycle_unfold. cbn zeta. rewrite Hpass. reflexivity. }
    split; [exact Hcycle|].
    intros cycles. rewrite checkForPayments_S, Hcycle. reflexivity.
  - intros cycles c0 h c' h'. apply driver_returned.
Qed.

(** ** Seeding the pool at startup *)

(** The payment rows of the invoices, each under the token of its
    invoice, in the order in which [addInvoicesForPolling] visits them. *)
Definition payment_rows (invoices : list Invoice)
  : list (string * InvoicePayment) :=
  flat_map (fun invoice => map (pair (Token invoice)) (Payments invoice)) invoices.

(** The rows together with the clock reading at which each is tested,
    the first at history [h]. *)
Fixpoint clock_readings (env : Env) (rows : list (string * InvoicePayment))
    (h : history) : list (string * InvoicePayment * Time.t) :=
  match rows with
  | [] => []
  | row :: rows' =>
      let now := time_Now env h in
      (row, now) :: clock_readings env rows' (h ++ [EvNow now])
  end.

Definition passed (chk : string * InvoicePayment * Time.t) : bool :=
  Time.After chk.2 (Time.Unix (PollExpiry chk.1.2) 0).

(** What the test of one row does to the pool. *)
Definition seed_step (m : gmap string polledPayment)
    (chk : string * InvoicePayment * Time.t) : gmap string polledPayment :=
  if passed chk then m else <[chk.1.1 := polledPayment_of chk.1.2]> m.

Definition readings_events (checks : list (string * InvoicePayment * Time.t))
  : history :=
  map (fun chk => EvNow chk.2) checks.

Section Seeding.

Variable env : Env.

Lemma with_polledPayments_same c : with_polledPayments (polledPayments c) c = c.
Proof. destruct c. reflexivity. Qed.

Lemma clock_readings_app rows1 rows2 h :
  clock_readings env (rows1 ++ rows2) h =
    clock_readings env rows1 h ++
    clock_readings env rows2 (h ++ readings_events (clock_readings env rows1 h)).
Proof.
  revert h. induction rows1 as [|row rows1 IH]; intros h; cbn.
  - rewrite app_nil_r. reflexivity.
  - rewrite IH, <- app_assoc. reflexivity.
Qed.

Lemma payments_seeded token payments c h :
  let checks := clock_readings env (map (pair token) payments) h in
  addInvoicesForPolling_payments env token payments c h =
    (with_polledPayments (foldl seed_step (polledPayments c) checks) c,
     h ++ readings_events checks).
Proof.
  revert c h. induction payments as [|p payments IH]; intros c h; cbn.
  - rewrite app_nil_r, with_polledPayments_same. reflexivity.
  - io_step. unfold seed_step at 2, passed. cbn.
    destruct (Time.After (time_Now env h) (Time.Unix (PollExpiry p) 0)).
    + rewrite IH. cbn. rewrite <- app_assoc. reflexivity.
    + rewrite IH. cbn. rewrite <- app_assoc. reflexivity.
Qed.

Lemma invoices_seeded invoices c h :
  let checks := clock_readings env (payment_rows invoices) h in
  addInvoicesForPolling_invoices env invoices c h =
    (with_polledPayments (foldl seed_step (polledPayments c) checks) c,
     h ++ readings_events checks).
Proof.
  revert c h. induction invoices as [|invoice invoices IH]; intros c h; cbn.
  - rewrite app_nil_r, with_polledPayments_same. reflexivity.
  - unfold mbind, IO_bind. rewrite payments_seeded. cbn zeta.
    rewrite IH. cbn zeta. rewrite clock_readings_app.
    unfold readings_events. rewrite foldl_app, map_app, app_assoc.
    reflexivity.
Qed.

Lemma seeded_is_Some checks m t :
  is_Some (foldl seed_step m checks !! t) <->
  is_Some (m !! t) \/
  exists p now, (t, p, now) ∈ checks /\ passed (t, p, now) = false.
Proof.
  revert m. induction checks as [|[[t' p'] now'] checks IH]; intros m; cbn.
  - split; [auto|]. intros [?|(p & now & Hin & _)]; [assumption|].
    apply elem_of_nil in Hin. contradiction.
  - rewrite IH. unfold seed_step. cbn [fst snd].
    destruct (passed (t', p', now')) eqn:Hpassed.
    + split.
      * intros [?|(p & now & Hin & Hp)]; [auto|].
        right. exists p, now. split; [apply elem_of_cons; auto|exact Hp].
      * intros [?|(p & now & Hin & Hp)]; [auto|].
        apply elem_of_cons in Hin as [[= -> -> ->]|Hin]; [congruence|].
        right. exists p, now. auto.
    + split.
      * intros [Hs|(p & now & Hin & Hp)].
        -- destruct (decide (t' = t)) as [->|Hne].
           ++ right. exists p', now'. split; [apply elem_of_cons; auto|exact Hpassed].
           ++ rewrite lookup_insert_ne in Hs by exact Hne. auto.
        -- right. exists p, now. split; [apply elem_of_cons; auto|exact Hp].
      * intros [Hs|(p & now & Hin & Hp)].
        -- left. destruct (decide (t' = t)) as [->|Hne].
           ++ rewrite lookup_insert_eq. eauto.
           ++ rewrite lookup_insert_ne by exact Hne. exact Hs.
        -- apply elem_of_cons in Hin as [[= -> -> ->]|Hin].
           ++ left. rewrite lookup_insert_eq. eauto.
           ++ right. exists p, now. auto.
Qed.

Lemma seeded_lookup checks m t e :
  foldl seed_step m checks !! t = Some e ->
  m !! t = Some e \/
  exists p now, (t, p, now) ∈ checks /\ passed (t, p, now) = false /\
                e = polledPayment_of p.
Proof.
  revert m. induction checks as [|[[t' p'] now'] checks IH]; intros m; cbn.
  - auto.
  - intros [Hm|(p & now & Hin & Hp & He)]%IH.
    + unfold seed_step in Hm. cbn in Hm.
      destruct (passed (t', p', now')) eqn:Hpassed; [auto|].
      destruct (decide (t' = t)) as [->|Hne].
      * rewrite lookup_insert_eq in Hm. injection Hm as <-.
        right. exists p', now'. split; [apply elem_of_cons; auto|auto].
      * rewrite lookup_insert_ne in Hm by exact Hne. auto.
    + right. exists p, now. split; [apply elem_of_cons; auto|auto].
Qed.

End Seeding.

(** *** The instant of an expiry *)

Lemma wrap64_small (z : Z) : - 2 ^ 63 <= z < 2 ^ 63 -> Time.wrap64 z = z.
Proof.
  unfold Time.wrap64.
  change (2 ^ 63) with 9223372036854775808.
  change (2 ^ 64) with 18446744073709551616.
  intros Hz. rewrite Z.mod_small by lia. lia.
Qed.

Lemma wrap64_over (z : Z) :
  2 ^ 63 <= z < 2 ^ 63 + 2 ^ 64 -> Time.wrap64 z = z - 2 ^ 64.
Proof.
  unfold Time.wrap64.
  change (2 ^ 63) with 9223372036854775808.
  change (2 ^ 64) with 18446744073709551616.
  intros Hz.
  rewrite <- (Z.mod_unique_pos (z + 9223372036854775808) 18446744073709551616
                1 (z + 9223372036854775808 - 18446744073709551616)) by lia.
  lia.
Qed.

(** Below the bound the instant of an expiry is second [expiry],
    nanosecond 0. *)
Lemma Unix_representable (expiry : Z) :
  Time.representable expiry -> Time.Unix expiry 0 = Time.mk expiry 0.
Proof.
  unfold Time.representable, Time.Unix, Time.unixToInternal.
  change (0 / 1000000000) with 0. change (0 mod 1000000000) with 0.
  change (2 ^ 63) with 9223372036854775808. intros Hr.
  rewrite Z.add_0_r, (wrap64_small expiry), wrap64_small;
    change (2 ^ 63) with 9223372036854775808; try lia.
  f_equal. lia.
Qed.

(** From the bound on the shifted seconds wrap around: the instant lies
    [2 ^ 64] seconds earlier. *)
Lemma Unix_wraps (expiry : Z) :
  Time.wraps expiry -> Time.Unix expiry 0 = Time.mk (expiry - 2 ^ 64) 0.
Proof.
  unfold Time.wraps, Time.Unix, Time.unixToInternal.
  change (0 / 1000000000) with 0. change (0 mod 1000000000) with 0.
  change (2 ^ 63) with 9223372036854775808. intros Hr.
  rewrite Z.add_0_r, (wrap64_small expiry), wrap64_over;
    change (2 ^ 63) with 9223372036854775808;
    change (2 ^ 64) with 18446744073709551616; try lia.
  f_equal. lia.
Qed.

Lemma After_Unix (now : Time.t) (expiry : Z) :
  Time.representable expiry ->
  (Time.After now (Time.Unix expiry 0) = true <->
   expiry < Time.sec now \/ (Time.sec now = expiry /\ 0 < Time.nsec now)).
Proof.
  intros Hr. rewrite (Unix_representable expiry Hr).
  unfold Time.After. cbn.
  rewrite orb_true_iff, andb_true_iff, !Z.ltb_lt, Z.eqb_eq.
  reflexivity.
Qed.

Lemma After_Unix_wraps (now : Time.t) (expiry : Z) :
  Time.wraps expiry -> - 2 ^ 63 <= Time.sec now ->
  Time.After now (Time.Unix expiry 0) = true.
Proof.
  intros Hw Hnow. rewrite (Unix_wraps expiry Hw).
  unfold Time.After. cbn. apply orb_true_iff. left. apply Z.ltb_lt.
  unfold Time.wraps, Time.unixToInternal in Hw. revert Hw Hnow.
  change (2 ^ 63) with 9223372036854775808.
  change (2 ^ 64) with 18446744073709551616. lia.
Qed.

Lemma After_Unix_self (expiry : Z) :
  Time.After (Time.Unix expiry 0) (Time.Unix expiry 0) = false.
Proof.
  unfold Time.After. rewrite Z.ltb_irrefl, andb_false_r. reflexivity.
Qed.

(** C7, amended.  When the store returns the invoices,
    [addInvoicesForPolling] tests every payment row of every invoice
    against the clock, with [pollHasExpired], and inserts, under the
    token of the invoice, the entry made of the address, the amount, the
    earliest transaction time and the poll expiry of exactly those rows
    that the test does not find expired.  For a poll expiry below
    [2 ^ 63 - unixToInternal] the test finds the row expired iff the
    reading of the clock is later than second [expiry], nanosecond 0: the
    row is inserted iff its expiry is not in the past.  For a poll expiry
    from that bound on the seconds of [time.Unix] wrap around and the row
    is skipped at every reading.  The pool afterwards binds a token iff
    it was bound before or one of its rows was inserted, and what a token
    is bound to is the entry of such a row (or what it was bound to
    before). *)
Theorem pool_is_seeded_with_unexpired_rows (env : Env) (c : cmswww)
    (h : history) (invoices : list Invoice) :
  db_GetInvoices env h = Ok invoices ->
  let checks :=
    clock_readings env (payment_rows invoices) (h ++ [EvGetInvoices (Ok invoices)]) in
  let seeded := foldl seed_step (polledPayments c) checks in
  addInvoicesForPolling env c h =
    ((None, with_polledPayments seeded c),
     (h ++ [EvGetInvoices (Ok invoices)]) ++ readings_events checks) /\
  checks.*1 = payment_rows invoices /\
  (forall m token p now,
     seed_step m (token, p, now) =
       if Time.After now (Time.Unix (PollExpiry p) 0) then m
       else <[token := {| address := Address p; amount := Amount p;
                          txNotBefore := TxNotBefore p;
                          pollExpiry := PollExpiry p |}]> m) /\
  (forall p now,
     Time.representable (PollExpiry p) ->
     (Time.After now (Time.Unix (PollExpiry p) 0) = false <->
      Time.sec now < PollExpiry p \/
      (Time.sec now = PollExpiry p /\ Time.nsec now <= 0))) /\
  (forall p now,
     Time.wraps (PollExpiry p) -> - 2 ^ 63 <= Time.sec now ->
     Time.After now (Time.Unix (PollExpiry p) 0) = true) /\
  (forall token,
     is_Some (seeded !! token) <->
     is_Some (polledPayments c !! token) \/
     exists p now, (token, p, now) ∈ checks /\
       Time.After now (Time.Unix (PollExpiry p) 0) = false) /\
  (forall token e,
     seeded !! token = Some e ->
     polledPayments c !! token = Some e \/
     exists p now, (token, p, now) ∈ checks /\
       Time.After now (Time.Unix (PollExpiry p) 0) = false /\
       e = {| address := Address p; amount := Amount p;
              txNotBefore := TxNotBefore p; pollExpiry := PollExpiry p |}).
Proof.
  intros Hget checks seeded.
  split; [|split; [|split; [|split; [|split; [|split]]]]].
  - unfold addInvoicesForPolling, GetInvoices, ask, emit, mbind, mret,
      IO_bind, IO_ret. rewrite Hget. cbn.
    rewrite invoices_seeded. reflexivity.
  - unfold checks. generalize (h ++ [EvGetInvoices (Ok invoices)]).
    induction (payment_rows invoices) as [|row rows IH]; intros h1; cbn.
    + reflexivity.
    + rewrite IH. reflexivity.
  - reflexivity.
  - intros p now Hr. rewrite <- not_true_iff_false, (After_Unix now _ Hr). lia.
  - intros p now. apply After_Unix_wraps.
  - intros token. apply seeded_is_Some.
  - intros token e. apply seeded_lookup.
Qed.

(** ** Insertion and snapshot *)

(** C8.  For every server, token and payment: after the insertion for the
    token, the snapshot binds the token to the entry made of the address,
    amount, earliest transaction time and poll expiry given, and the
    snapshot equals the live pool at that moment; taking it calls no
    collaborator.  Every pool entry can be inserted this way. *)
Theorem snapshot_after_insert (env : Env) (c : cmswww) (token : string)
    (invoicePayment : InvoicePayment) (h : history) :
  range_ok env ->
  let c' := addInvoiceForPolling token invoicePayment c in
  let snapshot := (createPolledPaymentsCopy env c' h).1 in
  snapshot !! token = Some (polledPayment_of invoicePayment) /\
  snapshot !! token =
    Some {| address := Address invoicePayment; amount := Amount invoicePayment;
            txNotBefore := TxNotBefore invoicePayment;
            pollExpiry := PollExpiry invoicePayment |} /\
  snapshot = polledPayments c' /\
  snapshot = <[token := polledPayment_of invoicePayment]> (polledPayments c) /\
  (createPolledPaymentsCopy env c' h).2 = h /\
  addInvoiceForPollingLock token invoicePayment c = c' /\
  (forall entry : polledPayment, exists payment, polledPayment_of payment = entry).
Proof.
  intros Hok c' snapshot.
  assert (snapshot = polledPayments c') as Hsnap.
  { unfold snapshot. rewrite (createPolledPaymentsCopy_eq env c' h Hok).
    reflexivity. }
  rewrite Hsnap. cbn.
  repeat split; try apply lookup_insert_eq.
  intros [a n t e]. exists (mkInvoicePayment a n t e). reflexivity.
Qed.

(** ** The expiry test *)

Lemma pollHasExpired_eq (env : Env) (expiry : Z) (h : history) :
  pollHasExpired env expiry h =
    (Time.After (time_Now env h) (Time.Unix expiry 0),
     h ++ [EvNow (time_Now env h)]).
Proof. reflexivity. Qed.

(** A turn that gets past the expiry test asks the block explorers. *)
Lemma body_polls (env : Env) (c : cmswww) (token : string)
    (pp : polledPayment) (rem : list string) (h : history) (invoice : Invoice) :
  db_GetInvoiceByToken env h token = Ok invoice ->
  Status invoice <> InvoiceStatusPaid ->
  expired_in_turn env token pp h invoice = false ->
  exists t evs,
    checkForInvoicePayments_body env c token pp rem h =
      (t, after_oracle env c token pp h invoice ++ evs).
Proof.
  intros Hget Hstatus Hexp.
  destruct (oracle_answer env c token pp h invoice) as [[tx amt] [err|]] eqn:Hor.
  - exists (NextEntry rem), []. rewrite app_nil_r.
    eapply body_oracle_error; eassumption.
  - destruct (decide (tx = ""%string)) as [->|Htx].
    + exists (NextEntry rem), [EvSleep pollCheckGap].
      eapply body_pending; eassumption.
    + destruct (update_answer env c token pp h invoice) as [err|] eqn:Hup.
      * destruct (decide (err = ErrShutdown)) as [->|Hne].
        -- exists ReturnFalse,
             [EvUpdateInvoice (set_Status InvoiceStatusPaid invoice)
                (Some ErrShutdown)].
           rewrite (body_update_shutdown env c token pp rem h invoice tx amt)
             by assumption.
           unfold after_update. rewrite Hup. reflexivity.
        -- exists (NextEntry rem),
             [EvUpdateInvoice (set_Status InvoiceStatusPaid invoice) (Some err)].
           rewrite (body_update_error env c token pp rem h invoice tx amt err)
             by assumption.
           unfold after_update. rewrite Hup. reflexivity.
      * exists (NextEntry (rem ++ [token])),
          [EvUpdateInvoice (set_Status InvoiceStatusPaid invoice) None;
           EvSleep pollCheckGap].
        rewrite (body_settled env c token pp rem h invoice tx amt)
          by assumption.
        unfold after_update. rewrite Hup, <- app_assoc. reflexivity.
Qed.

(** C10, amended.  The expiry test is strict at the resolution of the
    clock.  For an expiry below [2 ^ 63 - unixToInternal], which
    [time.Unix] shifts without wrap-around, [pollHasExpired e] holds iff
    the reading is later than second [e], nanosecond 0; in nanoseconds,
    iff [e * 10^9 < now]; so at any reading of second [e] after its
    first instant the entry is expired.  For an expiry from that bound on
    the shifted seconds wrap around, and [pollHasExpired e] holds at
    every reading.  An entry whose expiry is the very instant of the
    reading is not expired: at startup its row is inserted, and in
    reconciliation (its invoice being fetched and not Paid) the block
    explorers are asked for it. *)
Theorem expiry_test_is_strict (env : Env) (expiry : Z) (h : history) :
  let now := time_Now env h in
  (Time.representable expiry ->
   ((pollHasExpired env expiry h).1 = true <->
    expiry < Time.sec now \/ (Time.sec now = expiry /\ 0 < Time.nsec now)) /\
   (Time.wf now ->
    ((pollHasExpired env expiry h).1 = true <->
     expiry * 1000000000 < Time.nanos now)) /\
   (Time.sec now = expiry -> 0 < Time.nsec now ->
    (pollHasExpired env expiry h).1 = true)) /\
  (Time.wraps expiry -> - 2 ^ 63 <= Time.sec now ->
   (pollHasExpired env expiry h).1 = true) /\
  (now = Time.Unix expiry 0 -> (pollHasExpired env expiry h).1 = false) /\
  (forall c token p,
     PollExpiry p = expiry -> now = Time.Unix expiry 0 ->
     addInvoicesForPolling_payments env token [p] c h =
       (addInvoiceForPolling token p c, h ++ [EvNow now])) /\
  (forall c token pp rem h1 invoice,
     pollExpiry pp = expiry ->
     h = after_fetch token h1 invoice ->
     now = Time.Unix expiry 0 ->
     db_GetInvoiceByToken env h1 token = Ok invoice ->
     Status invoice <> InvoiceStatusPaid ->
     exists t evs,
       checkForInvoicePayments_body env c token pp rem h1 =
         (t, after_oracle env c token pp h1 invoice ++ evs) /\
       existsb is_FetchTx (after_oracle env c token pp h1 invoice) = true).
Proof.
  intros now. rewrite pollHasExpired_eq. cbn [fst].
  split; [|split; [|split; [|split]]].
  - intros Hr. split; [apply After_Unix; exact Hr|]. split.
    + intros [Hlo Hhi]. rewrite (After_Unix _ _ Hr). unfold Time.nanos.
      fold now. lia.
    + intros Hsec Hnsec. apply (After_Unix _ _ Hr). fold now. auto.
  - apply After_Unix_wraps.
  - intros Hnow. fold now. rewrite Hnow. apply After_Unix_self.
  - intros c token p Hp Hnow. cbn. io_step. fold now.
    rewrite Hp, Hnow, After_Unix_self. reflexivity.
  - intros c token pp rem h1 invoice Hpp Hh Hnow Hget Hstatus.
    assert (expired_in_turn env token pp h1 invoice = false) as Hexp.
    { unfold expired_in_turn, clock_reading. rewrite <- Hh. fold now.
      rewrite Hpp, Hnow. apply After_Unix_self. }
    destruct (body_polls env c token pp rem h1 invoice Hget Hstatus Hexp)
      as (t & evs & Hbody).
    exists t, evs. split; [exact Hbody|].
    unfold after_oracle. rewrite existsb_app. cbn. apply orb_true_r.
Qed.

(** ** The scenarios, run *)

Lemma env_of_tokens_match (s : Sim.scenario) : tokens_match (Sim.env_of s).
Proof.
  intros h token invoice. cbn. unfold cockroachdb.GetInvoiceByToken. cbn.
  destruct (Sim.closed s h); [discriminate|].
  destruct (bool_decide (token ∈ Sim.missing s)); [discriminate|].
  destruct (find _ _) as [i|] eqn:Hfind; [|discriminate].
  intros [= <-]. apply find_some in Hfind as [_ Hi].
  apply bool_decide_eq_true in Hi. exact Hi.
Qed.

Ltac by_running := vm_compute; first [reflexivity | discriminate | congruence].

(** The single binding of [Sim.server] is reached at once. *)
Lemma reaches_abc (s : Sim.scenario) :
  reaches (Sim.env_of s) Sim.server "abc" Sim.entry_abc
    (polledPayments Sim.server) [] [] [] [].
Proof. exists []. split; vm_compute; reflexivity. Defined.

(** C1 as stated fails: the payment of [abc] is found and the store
    accepts the update, so that the turn of [abc] collects its token; the
    store is then closed, the fetch for [def] is answered with Shutdown,
    and the pass returns [false] with no token: [abc] is in no removal
    list and the cycle leaves it in the pool. *)
Lemma settled_entry_is_kept_when_the_store_closes :
  let env := Sim.env_of Sim.paying_then_closed in
  checkForInvoicePayments_body env Sim.server2 "abc" Sim.entry_abc [] [] =
    (NextEntry ["abc"%string],
     [EvGetInvoiceByToken "abc" (Ok Sim.invoice_abc);
      EvNow (Time.mk 2000 0);
      EvFetchTx "A1" 500 1000 2 ("txid123"%string, 500, None);
      EvUpdateInvoice (set_Status InvoiceStatusPaid Sim.invoice_abc) None;
      EvSleep pollCheckGap]) /\
  (checkForInvoicePayments env Sim.server2 (polledPayments Sim.server2) []).1 =
    (false, []) /\
  ("abc"%string ∉
    (checkForInvoicePayments env Sim.server2 (polledPayments Sim.server2) []).1.2) /\
  polledPayments (checkForPayments_cycle env Sim.server2 []).1.2 !! "abc"%string =
    Some Sim.entry_abc.
Proof.
  cbn zeta. split; [vm_compute; reflexivity|].
  assert ((checkForInvoicePayments (Sim.env_of Sim.paying_then_closed)
             Sim.server2 (polledPayments Sim.server2) []).1 = (false, []))
    as Hpass by (vm_compute; reflexivity).
  split; [exact Hpass|]. split.
  - rewrite Hpass. apply not_elem_of_nil.
  - vm_compute. reflexivity.
Qed.

Lemma settled_entry_witness :
  exists tokens hend,
    checkForInvoicePayments (Sim.env_of Sim.paying) Sim.server
      (polledPayments Sim.server) [] = ((true, tokens), hend) /\
    "abc"%string ∈ tokens /\
    EvUpdateInvoice (set_Status InvoiceStatusPaid Sim.invoice_abc) None ∈ hend /\
    cockroachdb.GetInvoiceByToken (Sim.store_at Sim.paying hend) "abc" =
      Ok (set_Status InvoiceStatusPaid Sim.invoice_abc).
Proof.
  destruct (settled_entry_is_removed_and_paid (Sim.env_of Sim.paying)
              Sim.server "abc" Sim.entry_abc (polledPayments Sim.server)
              [] [] [] [] (reaches_abc Sim.paying)
              Sim.invoice_abc "txid123" 500)
    as (_ & _ & _ & _ & _ & _ & Hpass & _); try by_running.
  eexists _, _. split; [vm_compute; reflexivity|].
  split; [|split].
  - eapply (fun tokens hend Heq => proj1 (Hpass tokens hend Heq)).
    vm_compute. reflexivity.
  - eapply (fun tokens hend Heq => proj2 (Hpass tokens hend Heq)).
    vm_compute. reflexivity.
  - vm_compute. reflexivity.
Defined.

(** C4 as stated fails: the invoice of [abc] is fetched as Paid and its
    turn collects the token; the store is then closed, the fetch for
    [def] is answered with Shutdown, and the pass returns [false] with no
    token: [abc] is in no removal list and the cycle leaves it in the
    pool. *)
Lemma paid_entry_is_kept_when_the_store_closes :
  let env := Sim.env_of Sim.both_paid_then_closed in
  checkForInvoicePayments_body env Sim.server2 "abc" Sim.entry_abc [] [] =
    (NextEntry ["abc"%string],
     [EvGetInvoiceByToken "abc"
        (Ok (set_Status InvoiceStatusPaid Sim.invoice_abc))]) /\
  (checkForInvoicePayments env Sim.server2 (polledPayments Sim.server2) []).1 =
    (false, []) /\
  ("abc"%string ∉
    (checkForInvoicePayments env Sim.server2 (polledPayments Sim.server2) []).1.2) /\
  polledPayments (checkForPayments_cycle env Sim.server2 []).1.2 !! "abc"%string =
    Some Sim.entry_abc.
Proof.
  cbn zeta. split; [vm_compute; reflexivity|].
  assert ((checkForInvoicePayments (Sim.env_of Sim.both_paid_then_closed)
             Sim.server2 (polledPayments Sim.server2) []).1 = (false, []))
    as Hpass by (vm_compute; reflexivity).
  split; [exact Hpass|]. split.
  - rewrite Hpass. apply not_elem_of_nil.
  - vm_compute. reflexivity.
Qed.

Lemma paid_entry_witness :
  exists tokens hend,
    checkForInvoicePayments (Sim.env_of Sim.settled_elsewhere) Sim.server
      (polledPayments Sim.server) [] = ((true, tokens), hend) /\
    "abc"%string ∈ tokens /\ existsb is_FetchTx hend = false.
Proof.
  destruct (paid_entry_is_removed_without_oracle
              (Sim.env_of Sim.settled_elsewhere)
              Sim.server "abc" Sim.entry_abc (polledPayments Sim.server)
              [] [] [] [] (reaches_abc Sim.settled_elsewhere)
              (set_Status InvoiceStatusPaid Sim.invoice_abc))
    as (_ & _ & _ & Hpass & _); try by_running.
  eexists _, _. split; [vm_compute; reflexivity|].
  split; [|reflexivity]. eapply Hpass. vm_compute. reflexivity.
Defined.

Lemma pending_entry_witness :
  exists returned c' hend,
    checkForPayments_cycle (Sim.env_of Sim.quiet) Sim.server [] =
      ((returned, c'), hend) /\
    polledPayments c' !! "abc"%string = Some Sim.entry_abc /\
    existsb is_UpdateInvoice hend = false.
Proof.
  destruct (pending_entry_is_retained (Sim.env_of Sim.quiet)
              Sim.server "abc" Sim.entry_abc (polledPayments Sim.server)
              [] [] [] [] (reaches_abc Sim.quiet) Sim.invoice_abc 0)
    as (_ & _ & _ & Hkept); try by_running.
  destruct (Hkept (Sim.env_of_range_ok Sim.quiet) (env_of_tokens_match Sim.quiet))
    as [_ Hcycle].
  eexists _, _, _. split; [vm_compute; reflexivity|].
  split; [|reflexivity]. eapply (Hcycle eq_refl).
  vm_compute. reflexivity.
Defined.

(** C3 as stated fails: the expiry of the entry is in the past, but the
    row of its invoice cannot be read; the turn ends on the failed fetch,
    the pass returns no token and the cycle leaves the entry in the
    pool. *)
Lemma expired_entry_with_unreadable_invoice_is_kept :
  let env := Sim.env_of Sim.lapsed_unreadable in
  polledPayments Sim.server !! "abc"%string = Some Sim.entry_abc /\
  Time.After (time_Now env []) (Time.Unix (pollExpiry Sim.entry_abc) 0) = true /\
  checkForInvoicePayments env Sim.server (polledPayments Sim.server) [] =
    ((true, []), [EvGetInvoiceByToken "abc" (Err ErrInvoiceNotFound)]) /\
  ("abc"%string ∉
    (checkForInvoicePayments env Sim.server (polledPayments Sim.server) []).1.2) /\
  polledPayments (checkForPayments_cycle env Sim.server []).1.2 !! "abc"%string =
    Some Sim.entry_abc.
Proof.
  cbn zeta. split; [vm_compute; reflexivity|]. split; [vm_compute; reflexivity|].
  assert (checkForInvoicePayments (Sim.env_of Sim.lapsed_unreadable) Sim.server
            (polledPayments Sim.server) [] =
          ((true, []), [EvGetInvoiceByToken "abc" (Err ErrInvoiceNotFound)]))
    as Hpass by (vm_compute; reflexivity).
  split; [exact Hpass|]. split.
  - rewrite Hpass. apply not_elem_of_nil.
  - vm_compute. reflexivity.
Qed.

Lemma expired_entry_witness :
  exists tokens hend,
    checkForInvoicePayments (Sim.env_of Sim.lapsed) Sim.server
      (polledPayments Sim.server) [] = ((true, tokens), hend) /\
    "abc"%string ∈ tokens /\
    existsb is_UpdateInvoice hend = false /\ existsb is_FetchTx hend = false.
Proof.
  destruct (expired_entry_is_removed_once_fetched (Sim.env_of Sim.lapsed)
              Sim.server "abc" Sim.entry_abc (polledPayments Sim.server)
              [] [] [] [] (reaches_abc Sim.lapsed) Sim.invoice_abc)
    as (evs & _ & _ & _ & _ & Hpass & _); try by_running.
  eexists _, _. split; [vm_compute; reflexivity|].
  split; [|split; reflexivity]. eapply Hpass. vm_compute. reflexivity.
Defined.

(** C6 as stated fails: two entries whose invoices are already paid are
    visited one right after the other; the pass consists of the two
    fetches and contains no sleep. *)
Lemma no_sleep_between_paid_entries :
  let env := Sim.env_of Sim.both_paid in
  checkForInvoicePayments env Sim.server2 (polledPayments Sim.server2) [] =
    ((true, ["abc"%string; "def"%string]),
     [EvGetInvoiceByToken "abc" (Ok (set_Status InvoiceStatusPaid Sim.invoice_abc));
      EvGetInvoiceByToken "def" (Ok Sim.invoice_def)]) /\
  existsb is_Sleep
    (checkForInvoicePayments env Sim.server2 (polledPayments Sim.server2) []).2
    = false.
Proof. cbn zeta. split; vm_compute; reflexivity. Qed.

Lemma sleep_follows_witness :
  exists rem' evs,
    checkForInvoicePayments_body (Sim.env_of Sim.quiet) Sim.server "abc"
      Sim.entry_abc [] [] = (NextEntry rem', evs ++ [EvSleep pollCheckGap]) /\
    existsb is_FetchTx evs = true /\ existsb is_Sleep evs = false.
Proof.
  destruct (sleep_follows_only_a_polled_entry (Sim.env_of Sim.quiet)
              Sim.server "abc" Sim.entry_abc (polledPayments Sim.server)
              [] [] [] [] (reaches_abc Sim.quiet)) as [Hpolled _].
  destruct (Hpolled Sim.invoice_abc ""%string 0)
    as (rem' & evs & Hturn & Hfetch & Hsleep & _); try by_running.
  - left. reflexivity.
  - exists rem', evs. auto.
Defined.

(** C10 as stated fails: the expiry of the entry equals the current
    second, the clock standing one nanosecond into it, and the entry is
    expired: reconciliation removes it without asking the block explorers
    and the seeding at startup skips its row. *)
Lemma expiry_within_current_second_is_expired :
  let env := Sim.env_of Sim.just_lapsed in
  Time.UnixSeconds (time_Now env []) = pollExpiry Sim.entry_abc /\
  (pollHasExpired env (pollExpiry Sim.entry_abc) []).1 = true /\
  (checkForInvoicePayments env Sim.server (polledPayments Sim.server) []).1 =
    (true, ["abc"%string]) /\
  existsb is_FetchTx
    (checkForInvoicePayments env Sim.server (polledPayments Sim.server) []).2
    = false /\
  polledPayments (addInvoicesForPolling env Sim.empty_server []).1.2 = ∅.
Proof. cbn zeta. repeat split; vm_compute; reflexivity. Qed.

Lemma expiry_test_witness :
  (pollHasExpired (Sim.env_of Sim.on_the_dot) 9999999999 []).1 = false /\
  (pollHasExpired (Sim.env_of Sim.just_lapsed) 9999999999 []).1 = true /\
  (pollHasExpired (Sim.env_of Sim.quiet) 9223372036854775807 []).1 = true.
Proof.
  split; [|split].
  - destruct (expiry_test_is_strict (Sim.env_of Sim.on_the_dot) 9999999999 [])
      as (_ & _ & Hdot & _).
    apply Hdot. vm_compute. reflexivity.
  - destruct (expiry_test_is_strict (Sim.env_of Sim.just_lapsed) 9999999999 [])
      as (Hbelow & _).
    destruct Hbelow as (_ & _ & Hlate);
      [split; vm_compute; first [reflexivity|discriminate]|].
    apply Hlate; vm_compute; reflexivity.
  - destruct (expiry_test_is_strict (Sim.env_of Sim.quiet)
                9223372036854775807 []) as (_ & Hwraps & _).
    apply Hwraps; [split|]; vm_compute; first [reflexivity|discriminate].
Defined.

(** C7 as stated fails: the poll expiry of the row is the largest
    [int64], far from being in the past at the reading of the clock, but
    the seconds of [time.Unix] wrap around, [pollHasExpired] holds and
    the row is skipped: the pool stays empty. *)
Lemma row_with_wrapping_expiry_is_skipped :
  let env := Sim.env_of Sim.far_future in
  let row := mkInvoicePayment "A9" 900 1000 9223372036854775807 in
  db_GetInvoices env [] = Ok [Sim.invoice_max] /\
  payment_rows [Sim.invoice_max] = [("max"%string, row)] /\
  Time.sec (time_Now env [EvGetInvoices (Ok [Sim.invoice_max])]) <
    PollExpiry row /\
  (pollHasExpired env (PollExpiry row)
     [EvGetInvoices (Ok [Sim.invoice_max])]).1 = true /\
  polledPayments (addInvoicesForPolling env Sim.empty_server []).1.2 = ∅.
Proof. cbn zeta. repeat split; vm_compute; reflexivity. Qed.

Lemma seeding_witness :
  polledPayments
    (addInvoicesForPolling (Sim.env_of Sim.quiet) Sim.empty_server []).1.2
    !! "abc"%string =
  Some {| address := "A1"; amount := 500; txNotBefore := 1000;
          pollExpiry := 9999999999 |}.
Proof.
  destruct (pool_is_seeded_with_unexpired_rows (Sim.env_of Sim.quiet)
              Sim.empty_server [] [Sim.invoice_abc])
    as (Hrun & _ & _ & Hfresh & _ & Hbound & Hentry); [vm_compute; reflexivity|].
  rewrite Hrun. cbn [fst snd polledPayments with_polledPayments].
  assert (is_Some
            (foldl seed_step (polledPayments Sim.empty_server)
               (clock_readings (Sim.env_of Sim.quiet)
                  (payment_rows [Sim.invoice_abc])
                  ([] ++ [EvGetInvoices (Ok [Sim.invoice_abc])]))
             !! "abc"%string)) as [e He].
  { apply Hbound. right.
    exists (mkInvoicePayment "A1" 500 1000 9999999999), (Time.mk 2000 0).
    split; [apply elem_of_cons; left; vm_compute; reflexivity|].
    apply Hfresh; [split; vm_compute; first [reflexivity|discriminate]|].
    left. vm_compute. reflexivity. }
  rewrite He. destruct (Hentry _ _ He) as [Hold|(p & now & Hin & _ & ->)].
  - vm_compute in Hold. discriminate.
  - vm_compute in Hin. apply list_elem_of_singleton in Hin.
    injection Hin as -> _. reflexivity.
Defined.

Lemma snapshot_witness :
  (createPolledPaymentsCopy (Sim.env_of Sim.quiet)
     (addInvoiceForPolling "def"
        (mkInvoicePayment "A2" 700 1000 9999999999) Sim.server) []).1
    !! "def"%string = Some Sim.entry_def.
Proof.
  destruct (snapshot_after_insert (Sim.env_of Sim.quiet) Sim.server "def"
              (mkInvoicePayment "A2" 700 1000 9999999999) []
              (Sim.env_of_range_ok Sim.quiet)) as (_ & Hbound & _).
  exact Hbound.
Defined.

Lemma shutdown_witness :
  (checkForInvoicePayments_loop (Sim.env_of Sim.both_paid_then_closed)
     Sim.server2 [("abc"%string, Sim.entry_abc)] [] []).1 = (true, ["abc"%string]) /\
  forall cycles,
    (checkForPayments (Sim.env_of Sim.both_paid_then_closed) (S cycles)
       Sim.server2 []).1 = (true, Sim.server2).
Proof.
  split; [vm_compute; reflexivity|].
  destruct (shutdown_discards_removals (Sim.env_of Sim.both_paid_then_closed)
              Sim.server2 (polledPayments Sim.server2) [] []
              [EvGetInvoiceByToken "abc"
                 (Ok (set_Status InvoiceStatusPaid Sim.invoice_abc));
               EvGetInvoiceByToken "def" (Err ErrShutdown)])
    as (_ & _ & Hcycle & _); [vm_compute; reflexivity|].
  destruct Hcycle as [_ Hdriver].
  - rewrite createPolledPaymentsCopy_eq
      by apply Sim.env_of_range_ok. reflexivity.
  - intros cycles. rewrite Hdriver. reflexivity.
Defined.

Lemma driver_witness :
  (checkForPayments (Sim.env_of Sim.both_paid_then_closed) 3 Sim.server2 []).1.1
    = true /\
  (checkForPayments (Sim.env_of Sim.quiet) 3 Sim.server []).1.1 = false.
Proof.
  split.
  - destruct (driver_stops_iff_store_shutdown
                (Sim.env_of Sim.both_paid_then_closed) 3 Sim.server2 [])
      as (evs & Hh & Hiff & _).
    apply Hiff. cbn [app] in Hh. rewrite <- Hh. vm_compute. reflexivity.
  - destruct (driver_stops_iff_store_shutdown
                (Sim.env_of Sim.quiet) 3 Sim.server [])
      as (evs & Hh & Hiff & _).
    apply not_true_is_false. intros Hret. apply Hiff in Hret.
    cbn [app] in Hh. rewrite <- Hh in Hret. vm_compute in Hret. discriminate.
Defined.


(** * Further properties

    ** The pool: insertion and removal *)

Section PoolOperations.

Variable c : cmswww.

Lemma removeInvoicesFromPolling_cfg tokens :
  cfg_MinConfirmationsRequired (removeInvoicesFromPolling tokens c) =
    cfg_MinConfirmationsRequired c.
Proof. reflexivity. Qed.

Lemma cmswww_eq (c1 c2 : cmswww) :
  polledPayments c1 = polledPayments c2 ->
  cfg_MinConfirmationsRequired c1 = cfg_MinConfirmationsRequired c2 ->
  c1 = c2.
Proof. destruct c1, c2. cbn. intros -> ->. reflexivity. Qed.

(** X1.  After [removeInvoicesFromPolling] the pool binds exactly the
    tokens it bound before that are not in the list, each to the entry it
    had: a token of the list is unbound, every other binding is untouched,
    the pool has only shrunk and the configuration is the same.  Tokens of
    the list that the pool does not bind are passed over: a list of such
    tokens leaves the server as it is. *)
Theorem removeInvoicesFromPolling_removes_exactly (tokens : list string) :
  let c' := removeInvoicesFromPolling tokens c in
  (forall token, token ∈ tokens -> polledPayments c' !! token = None) /\
  (forall token, token ∉ tokens ->
     polledPayments c' !! token = polledPayments c !! token) /\
  dom (polledPayments c') =
    dom (polledPayments c) ∖ (list_to_set tokens : gset string) /\
  polledPayments c' ⊆ polledPayments c /\
  cfg_MinConfirmationsRequired c' = cfg_MinConfirmationsRequired c /\
  ((forall token, token ∈ tokens -> polledPayments c !! token = None) -> c' = c).
Proof.
  intros c'.
  assert (forall token, token ∈ tokens -> polledPayments c' !! token = None) as Hin.
  { intros token Hin. unfold c'. rewrite removeInvoicesFromPolling_lookup.
    rewrite bool_decide_eq_true_2 by exact Hin. reflexivity. }
  assert (forall token, token ∉ tokens ->
            polledPayments c' !! token = polledPayments c !! token) as Hout.
  { intros token Hnin. unfold c'. rewrite removeInvoicesFromPolling_lookup.
    rewrite bool_decide_eq_false_2 by exact Hnin. reflexivity. }
  split; [exact Hin|]. split; [exact Hout|]. split; [|split; [|split]].
  - apply set_eq. intros token.
    rewrite elem_of_difference, elem_of_list_to_set, !elem_of_dom.
    destruct (decide (token ∈ tokens)) as [Ht|Ht].
    + rewrite (Hin _ Ht). split; [intros [? [=]]|tauto].
    + rewrite (Hout _ Ht). tauto.
  - apply map_subseteq_spec. intros token e.
    destruct (decide (token ∈ tokens)) as [Ht|Ht].
    + rewrite (Hin _ Ht). discriminate.
    + rewrite (Hout _ Ht). auto.
  - reflexivity.
  - intros Hnone. apply cmswww_eq; [|reflexivity].
    apply map_eq. intros token.
    destruct (decide (token ∈ tokens)) as [Ht|Ht].
    + rewrite (Hin _ Ht), (Hnone _ Ht). reflexivity.
    + apply Hout, Ht.
Qed.

(** X2.  What [removeInvoicesFromPolling] leaves depends only on which
    tokens are in the list, not on their order or on how often they occur:
    two lists with the same tokens remove the same bindings.  (The order
    of the tokens that reconciliation returns is the order in which the
    range happened to visit the snapshot.) *)
Theorem removeInvoicesFromPolling_order_irrelevant (tokens1 tokens2 : list string) :
  (forall token, token ∈ tokens1 <-> token ∈ tokens2) ->
  removeInvoicesFromPolling tokens1 c = removeInvoicesFromPolling tokens2 c.
Proof.
  intros Hsame. apply cmswww_eq; [|reflexivity].
  apply map_eq. intros token. rewrite !removeInvoicesFromPolling_lookup.
  destruct (decide (token ∈ tokens1)) as [Ht|Ht].
  - rewrite !bool_decide_eq_true_2; [reflexivity|apply Hsame, Ht|exact Ht].
  - rewrite !bool_decide_eq_false_2; [reflexivity| |exact Ht].
    intros Ht2. apply Ht, Hsame, Ht2.
Qed.

(** X3.  Removals compose: removing one list and then another is removing
    their concatenation, and removing the same list again changes
    nothing. *)
Theorem removeInvoicesFromPolling_composes (tokens1 tokens2 : list string) :
  removeInvoicesFromPolling tokens2 (removeInvoicesFromPolling tokens1 c) =
    removeInvoicesFromPolling (tokens1 ++ tokens2) c /\
  removeInvoicesFromPolling tokens1 (removeInvoicesFromPolling tokens1 c) =
    removeInvoicesFromPolling tokens1 c /\
  removeInvoicesFromPolling [] c = c.
Proof.
  assert (forall l1 l2,
            removeInvoicesFromPolling l2 (removeInvoicesFromPolling l1 c) =
              removeInvoicesFromPolling (l1 ++ l2) c) as Happ.
  { intros l1 l2. unfold removeInvoicesFromPolling, with_polledPayments. cbn.
    rewrite foldl_app. reflexivity. }
  split; [apply Happ|]. split.
  - rewrite Happ. apply cmswww_eq; [|reflexivity].
    apply map_eq. intros token. rewrite !removeInvoicesFromPolling_lookup.
    destruct (decide (token ∈ tokens1)) as [Ht|Ht].
    + rewrite !bool_decide_eq_true_2; [reflexivity|exact Ht|].
      apply elem_of_app. auto.
    + rewrite !bool_decide_eq_false_2; [reflexivity|exact Ht|].
      intros [?|?]%elem_of_app; contradiction.
  - apply cmswww_eq; reflexivity.
Qed.

(** X4.  An insertion binds its token and nothing else: the bindings of
    the other tokens and the configuration are untouched, a second
    insertion for the same token replaces the first, and insertions for
    different tokens can be made in either order. *)
Theorem addInvoiceForPolling_frames_and_overwrites (token : string)
    (invoicePayment : InvoicePayment) :
  let c' := addInvoiceForPolling token invoicePayment c in
  (forall other, other <> token ->
     polledPayments c' !! other = polledPayments c !! other) /\
  dom (polledPayments c') = {[ token ]} ∪ dom (polledPayments c) /\
  cfg_MinConfirmationsRequired c' = cfg_MinConfirmationsRequired c /\
  (forall earlier,
     addInvoiceForPolling token invoicePayment
       (addInvoiceForPolling token earlier c) = c') /\
  (forall other payment, other <> token ->
     addInvoiceForPolling other payment c' =
       addInvoiceForPolling token invoicePayment
         (addInvoiceForPolling other payment c)).
Proof.
  intros c'. split; [|split; [|split; [|split]]].
  - intros other Hne. unfold c', addInvoiceForPolling. cbn.
    apply lookup_insert_ne. congruence.
  - unfold c', addInvoiceForPolling. cbn. apply dom_insert_L.
  - reflexivity.
  - intros earlier. apply cmswww_eq; [|reflexivity].
    unfold c', addInvoiceForPolling. cbn. apply insert_insert_eq.
  - intros other payment Hne. apply cmswww_eq; [|reflexivity].
    unfold c', addInvoiceForPolling. cbn. apply insert_insert_ne. exact Hne.
Qed.

(** X5.  Insertion followed by removal: the token is unbound afterwards,
    whatever it was bound to before; and when the pool did not bind the
    token before the insertion, the server is back as it was. *)
Theorem insert_then_remove (token : string) (invoicePayment : InvoicePayment) :
  let c' := removeInvoicesFromPolling [token]
              (addInvoiceForPolling token invoicePayment c) in
  polledPayments c' !! token = None /\
  polledPayments c' = delete token (polledPayments c) /\
  (polledPayments c !! token = None -> c' = c).
Proof.
  intros c'.
  assert (polledPayments c' = delete token (polledPayments c)) as Hdel.
  { unfold c', removeInvoicesFromPolling, addInvoiceForPolling. cbn.
    apply delete_insert_eq. }
  split; [rewrite Hdel; apply lookup_delete_eq|]. split; [exact Hdel|].
  intros Hnone. apply cmswww_eq; [|reflexivity].
  rewrite Hdel. apply delete_id. exact Hnone.
Qed.

End PoolOperations.

(** ** The cycle of the driver and the live pool *)

Section CycleAndPool.

Variable env : Env.
Variable c : cmswww.
Variable token : string.
Variable pp : polledPayment.
Variable h0 : history.
Variable rest : list (string * polledPayment).
Variable rem : list string.
Variable h : history.

Hypothesis Hok : range_ok env.
Hypothesis Hreaches : reaches env c token pp (polledPayments c) h0 rest rem h.

Abbreviation the_turn := (checkForInvoicePayments_body env c token pp rem h).
Abbreviation the_cycle := (checkForPayments_cycle env c h0).

(** The cycle of the driver in terms of the pass over the live pool. *)
Lemma cycle_of_pass :
  the_cycle =
    match checkForInvoicePayments env c (polledPayments c) h0 with
    | ((true, tokens), h') =>
        ((false, removeInvoicesFromPolling tokens c), h' ++ [EvSleep pollCheckGap])
    | ((false, _), h') => ((true, c), h')
    end.
Proof.
  rewrite cycle_unfold. cbn zeta.
  rewrite (createPolledPaymentsCopy_eq env c h0 Hok). reflexivity.
Qed.

(** A binding whose turn leaves the tokens to remove as they were is
    still in the pool after the cycle. *)
Lemma kept_by_cycle h' :
  tokens_match env ->
  the_turn = (NextEntry rem, h') ->
  forall returned c' hend,
    the_cycle = ((returned, c'), hend) ->
    polledPayments c' !! token = Some pp.
Proof.
  intros Hmatch Hturn returned c' hend. rewrite cycle_of_pass.
  pose proof (reaches_lookup env c token pp _ _ _ _ _ Hok Hreaches) as Hpool.
  pose proof (reaches_next _ _ _ _ _ _ _ _ _ _ _ Hreaches Hturn) as Hpass.
  destruct (reaches_fresh env c token pp _ _ _ _ _ Hreaches Hok Hmatch)
    as [Hrem Hrest].
  destruct (checkForInvoicePayments env c (polledPayments c) h0)
    as [[b tokens] h1].
  assert (token ∉ tokens) as Hnotin.
  { intros Hin. symmetry in Hpass.
    destruct (loop_tokens env c rest rem _ b tokens h1 Hmatch Hpass token Hin);
      contradiction. }
  destruct b; intros [= _ <- _]; [|exact Hpool].
  rewrite removeInvoicesFromPolling_lookup.
  rewrite bool_decide_eq_false_2 by exact Hnotin. exact Hpool.
Qed.

(** A binding whose turn adds its token to the tokens to remove is
    unbound by a cycle that completes, and still bound after a cycle that
    a shut down store cuts short. *)
Lemma removed_by_cycle h' :
  the_turn = (NextEntry (rem ++ [token]), h') ->
  forall returned c' hend,
    the_cycle = ((returned, c'), hend) ->
    if returned
    then c' = c /\ polledPayments c' !! token = Some pp
    else polledPayments c' !! token = None.
Proof.
  intros Hturn returned c' hend. rewrite cycle_of_pass.
  pose proof (reaches_lookup env c token pp _ _ _ _ _ Hok Hreaches) as Hpool.
  destruct (checkForInvoicePayments env c (polledPayments c) h0)
    as [[b tokens] h1] eqn:Hpass.
  destruct b; intros [= <- <- _].
  - destruct (pass_extends env c token pp _ _ _ _ _ Hreaches _ _ _ _ Hturn Hpass)
      as [[more ->] _].
    rewrite removeInvoicesFromPolling_lookup, bool_decide_eq_true_2;
      [reflexivity|].
    apply elem_of_app. left. apply elem_of_app. right.
    apply list_elem_of_singleton. reflexivity.
  - auto.
Qed.

(** X6.  A binding whose invoice cannot be fetched, for a reason other
    than a shut down store, is passed over: its turn is the failed fetch
    alone (no clock reading, no question to the block explorers, no
    update, no sleep), the pass goes on with the next binding, and after
    the cycle the pool still holds the binding, to be tried again. *)
Theorem fetch_error_keeps_entry (err : error) :
  tokens_match env ->
  db_GetInvoiceByToken env h token = Err err ->
  err <> ErrShutdown ->
  the_turn = (NextEntry rem, h ++ [EvGetInvoiceByToken token (Err err)]) /\
  checkForInvoicePayments env c (polledPayments c) h0 =
    checkForInvoicePayments_loop env c rest rem
      (h ++ [EvGetInvoiceByToken token (Err err)]) /\
  forall returned c' hend,
    the_cycle = ((returned, c'), hend) ->
    polledPayments c' !! token = Some pp.
Proof.
  intros Hmatch Hget Hne.
  pose proof (body_fetch_error env c token pp rem h err Hget Hne) as Hturn.
  split; [exact Hturn|].
  split; [exact (reaches_next _ _ _ _ _ _ _ _ _ _ _ Hreaches Hturn)|].
  exact (kept_by_cycle _ Hmatch Hturn).
Qed.

(** X7.  A binding for which the block explorers answer with an error:
    whatever transaction id comes with the error is ignored, no update is
    made, the turn ends without the sleep of [pollCheckGap], and after the
    cycle the pool still holds the binding. *)
Theorem oracle_error_keeps_entry (invoice : Invoice) (tx : string) (amt : Z)
    (err : error) :
  tokens_match env ->
  db_GetInvoiceByToken env h token = Ok invoice ->
  Status invoice <> InvoiceStatusPaid ->
  expired_in_turn env token pp h invoice = false ->
  oracle_answer env c token pp h invoice = (tx, amt, Some err) ->
  let evs := [EvGetInvoiceByToken token (Ok invoice);
              EvNow (clock_reading env token h invoice);
              EvFetchTx (address pp) (amount pp) (txNotBefore pp)
                (cfg_MinConfirmationsRequired c) (tx, amt, Some err)] in
  the_turn = (NextEntry rem, h ++ evs) /\
  existsb is_UpdateInvoice evs = false /\
  existsb is_Sleep evs = false /\
  forall returned c' hend,
    the_cycle = ((returned, c'), hend) ->
    polledPayments c' !! token = Some pp.
Proof.
  intros Hmatch Hget Hstatus Hexp Horacle evs.
  assert (the_turn = (NextEntry rem, h ++ evs)) as Hturn.
  { rewrite (body_oracle_error env c token pp rem h invoice tx amt err
               Hget Hstatus Hexp Horacle).
    unfold after_oracle, after_clock, after_fetch, evs. rewrite Horacle.
    rewrite <- !app_assoc. reflexivity. }
  split; [exact Hturn|]. split; [reflexivity|]. split; [reflexivity|].
  exact (kept_by_cycle _ Hmatch Hturn).
Qed.

(** X8.  A binding whose payment is found but whose store update fails,
    for a reason other than a shut down store: the update was asked for
    with the status Paid, the token is not added to the tokens to remove,
    the turn ends without the sleep of [pollCheckGap], and after the cycle
    the pool still holds the binding, so that the next cycle asks
    again. *)
Theorem update_error_keeps_entry (invoice : Invoice) (tx : string) (amt : Z)
    (err : error) :
  tokens_match env ->
  db_GetInvoiceByToken env h token = Ok invoice ->
  Status invoice <> InvoiceStatusPaid ->
  expired_in_turn env token pp h invoice = false ->
  oracle_answer env c token pp h invoice = (tx, amt, None) ->
  tx <> ""%string ->
  update_answer env c token pp h invoice = Some err ->
  err <> ErrShutdown ->
  let evs := [EvGetInvoiceByToken token (Ok invoice);
              EvNow (clock_reading env token h invoice);
              EvFetchTx (address pp) (amount pp) (txNotBefore pp)
                (cfg_MinConfirmationsRequired c) (tx, amt, None);
              EvUpdateInvoice (set_Status InvoiceStatusPaid invoice) (Some err)] in
  the_turn = (NextEntry rem, h ++ evs) /\
  existsb is_Sleep evs = false /\
  forall returned c' hend,
    the_cycle = ((returned, c'), hend) ->
    polledPayments c' !! token = Some pp.
Proof.
  intros Hmatch Hget Hstatus Hexp Horacle Htx Hupdate Hne evs.
  assert (the_turn = (NextEntry rem, h ++ evs)) as Hturn.
  { rewrite (body_update_error env c token pp rem h invoice tx amt err
               Hget Hstatus Hexp Horacle Htx Hupdate Hne).
    unfold after_update, after_oracle, after_clock, after_fetch, evs.
    rewrite Hupdate, Horacle. rewrite <- !app_assoc. reflexivity. }
  split; [exact Hturn|]. split; [reflexivity|].
  exact (kept_by_cycle _ Hmatch Hturn).
Qed.

(** X9.  A binding for which reconciliation decides the removal (its
    invoice is fetched as Paid; or it has expired, the store having
    answered with the invoice of that token; or its payment is found and
    the store update succeeds) is unbound in the live pool by a cycle
    that completes.  A cycle that a shut down store cuts short returns
    with the server as it was: the binding is still there. *)
Theorem decided_removal_is_applied_by_cycle (invoice : Invoice) :
  db_GetInvoiceByToken env h token = Ok invoice ->
  Status invoice = InvoiceStatusPaid \/
  (Token invoice = token /\ expired_in_turn env token pp h invoice = true) \/
  (Status invoice <> InvoiceStatusPaid /\
   expired_in_turn env token pp h invoice = false /\
   exists tx amt,
     oracle_answer env c token pp h invoice = (tx, amt, None) /\
     tx <> ""%string /\
     update_answer env c token pp h invoice = None) ->
  forall returned c' hend,
    the_cycle = ((returned, c'), hend) ->
    if returned
    then c' = c /\ polledPayments c' !! token = Some pp
    else polledPayments c' !! token = None.
Proof.
  intros Hget Hcase.
  assert (exists h', the_turn = (NextEntry (rem ++ [token]), h')) as [h' Hturn].
  { destruct (decide (Status invoice = InvoiceStatusPaid)) as [Hpaid|Hpaid].
    { eexists. exact (body_paid env c token pp rem h invoice Hget Hpaid). }
    destruct Hcase as [?|[[Htoken Hexp]|(_ & Hexp & tx & amt & Hor & Htx & Hup)]].
    - contradiction.
    - eexists.
      rewrite (body_expired env c token pp rem h invoice Hget Hpaid Hexp).
      rewrite Htoken. reflexivity.
    - eexists.
      exact (body_settled env c token pp rem h invoice tx amt
               Hget Hpaid Hexp Hor Htx Hup). }
  exact (removed_by_cycle _ Hturn).
Qed.

End CycleAndPool.

(** ** The shape of a turn *)

(** What follows the question to the block explorers in the events of a
    turn, for the fetched [invoice] and the answer [r]. *)
Definition polled_tail (invoice : Invoice) (r : string * Z * option error)
    (tail : history) : Prop :=
  match r with
  | (_, _, Some _) => tail = []
  | (tx, _, None) =>
      if decide (tx = ""%string) then tail = [EvSleep pollCheckGap]
      else exists res,
        tail = EvUpdateInvoice (set_Status InvoiceStatusPaid invoice) res ::
               match res with None => [EvSleep pollCheckGap] | Some _ => [] end
  end.

(** The events of the turn of the binding of [token] to [pp]. *)
Inductive turn_events (c : cmswww) (token : string) (pp : polledPayment)
  : history -> Prop :=
| turn_fetch_failed err :
    turn_events c token pp [EvGetInvoiceByToken token (Err err)]
| turn_paid invoice :
    Status invoice = InvoiceStatusPaid ->
    turn_events c token pp [EvGetInvoiceByToken token (Ok invoice)]
| turn_expired invoice now :
    Status invoice <> InvoiceStatusPaid ->
    Time.After now (Time.Unix (pollExpiry pp) 0) = true ->
    turn_events c token pp [EvGetInvoiceByToken token (Ok invoice); EvNow now]
| turn_polled invoice now r tail :
    Status invoice <> InvoiceStatusPaid ->
    Time.After now (Time.Unix (pollExpiry pp) 0) = false ->
    polled_tail invoice r tail ->
    turn_events c token pp
      ([EvGetInvoiceByToken token (Ok invoice); EvNow now;
        EvFetchTx (address pp) (amount pp) (txNotBefore pp)
          (cfg_MinConfirmationsRequired c) r] ++ tail).

Lemma body_events (env : Env) (c : cmswww) (token : string)
    (pp : polledPayment) (rem : list string) (h : history) :
  exists evs,
    (checkForInvoicePayments_body env c token pp rem h).2 = h ++ evs /\
    turn_events c token pp evs.
Proof.
  io_step.
  destruct (db_GetInvoiceByToken env h token) as [invoice|err] eqn:Hget; cbn.
  - destruct (decide (Status invoice = InvoiceStatusPaid)) as [Hpaid|Hpaid]; cbn.
    { eexists; split; [reflexivity|]. constructor. exact Hpaid. }
    destruct (Time.After _ _) eqn:Hexp; cbn.
    { eexists; split; [rewrite <- app_assoc; reflexivity|].
      constructor; assumption. }
    destruct (util_FetchTxWithBlockExplorers _ _ _ _ _ _)
      as [[tx amt] [err|]] eqn:Hor; cbn.
    { exists ([EvGetInvoiceByToken token (Ok invoice);
               EvNow (time_Now env (h ++ [EvGetInvoiceByToken token (Ok invoice)]));
               EvFetchTx (address pp) (amount pp) (txNotBefore pp)
                 (cfg_MinConfirmationsRequired c) (tx, amt, Some err)] ++ []).
      split; [rewrite <- !app_assoc; reflexivity|].
      apply turn_polled; [assumption..|reflexivity]. }
    destruct (decide (tx <> ""%string)) as [Htx|Htx]; cbn.
    + destruct (db_UpdateInvoice _ _ _) as [err|] eqn:Hup; cbn.
      * exists ([EvGetInvoiceByToken token (Ok invoice);
                 EvNow (time_Now env (h ++ [EvGetInvoiceByToken token (Ok invoice)]));
                 EvFetchTx (address pp) (amount pp) (txNotBefore pp)
                   (cfg_MinConfirmationsRequired c) (tx, amt, None)] ++
                [EvUpdateInvoice (set_Status InvoiceStatusPaid invoice) (Some err)]).
        split.
        { destruct (decide (err = ErrShutdown)); cbn;
            rewrite <- !app_assoc; reflexivity. }
        apply turn_polled; [assumption..|]. cbn.
        destruct (decide (tx = ""%string)); [contradiction|].
        exists (Some err). reflexivity.
      * exists ([EvGetInvoiceByToken token (Ok invoice);
                 EvNow (time_Now env (h ++ [EvGetInvoiceByToken token (Ok invoice)]));
                 EvFetchTx (address pp) (amount pp) (txNotBefore pp)
                   (cfg_MinConfirmationsRequired c) (tx, amt, None)] ++
                [EvUpdateInvoice (set_Status InvoiceStatusPaid invoice) None;
                 EvSleep pollCheckGap]).
        split; [rewrite <- !app_assoc; reflexivity|].
        apply turn_polled; [assumption..|]. cbn.
        destruct (decide (tx = ""%string)); [contradiction|].
        exists None. reflexivity.
    + exists ([EvGetInvoiceByToken token (Ok invoice);
               EvNow (time_Now env (h ++ [EvGetInvoiceByToken token (Ok invoice)]));
               EvFetchTx (address pp) (amount pp) (txNotBefore pp)
                 (cfg_MinConfirmationsRequired c) (tx, amt, None)] ++
              [EvSleep pollCheckGap]).
      split; [rewrite <- !app_assoc; reflexivity|].
      apply turn_polled; [assumption..|]. cbn.
      destruct (decide (tx = ""%string)) as [_|Hne]; [reflexivity|].
      exfalso. apply Hne. destruct (decide (tx = ""%string)); [assumption|].
      contradiction Htx.
  - eexists; split; [|apply (turn_fetch_failed c token pp err)].
    destruct (decide (err = ErrShutdown)); reflexivity.
Qed.

(** ** The events of a pass and of a run of the driver *)

Section Events.

Variable env : Env.

(** The events of the loop are the events of the turns of the bindings
    it visits, in order: all of them when the loop returns [true], the
    ones up to the shut down answer otherwise. *)
Lemma loop_events c l rem h :
  exists turns : list history,
    (checkForInvoicePayments_loop env c l rem h).2 = h ++ concat turns /\
    Forall2 (fun b evs => turn_events c b.1 b.2 evs)
      (take (length turns) l) turns /\
    (length turns <= length l)%nat /\
    ((checkForInvoicePayments_loop env c l rem h).1.1 = true ->
     length turns = length l).
Proof.
  revert rem h. induction l as [|[token pp] l IH]; intros rem h.
  - exists []. cbn. rewrite app_nil_r. repeat split; auto.
  - cbn [checkForInvoicePayments_loop]. unfold mbind, IO_bind.
    destruct (body_events env c token pp rem h) as (evs & Hh & Hshape).
    destruct (checkForInvoicePayments_body env c token pp rem h) as [t h1].
    cbn [snd] in Hh. subst h1. destruct t as [|rem1].
    + exists [evs]. cbn. rewrite app_nil_r.
      split; [reflexivity|]. split; [|split; [lia|discriminate]].
      repeat constructor. exact Hshape.
    + destruct (IH rem1 (h ++ evs)) as (turns & Hh2 & Hall & Hlen & Htrue).
      exists (evs :: turns). cbn [concat length take].
      rewrite app_assoc. split; [exact Hh2|].
      split; [constructor; [exact Hshape|exact Hall]|].
      split; [cbn; lia|]. intros Hb. cbn. rewrite (Htrue Hb). reflexivity.
Qed.

(** The same for a property of events that concatenation keeps. *)
Lemma pass_events_have (P : history -> Prop) :
  P [] ->
  (forall evs1 evs2, P evs1 -> P evs2 -> P (evs1 ++ evs2)) ->
  (forall c token pp evs, turn_events c token pp evs -> P evs) ->
  forall c snapshot h,
    exists evs,
      (checkForInvoicePayments env c snapshot h).2 = h ++ evs /\ P evs.
Proof.
  intros Hnil Happ Hturn c snapshot h.
  unfold checkForInvoicePayments, range, ask, mbind, IO_bind.
  destruct (loop_events c (map_range env h snapshot) [] h)
    as (turns & Hh & Hall & _).
  exists (concat turns). split; [exact Hh|].
  clear Hh. revert Hall. generalize (take (length turns) (map_range env h snapshot)).
  induction turns as [|evs turns IH]; intros l Hall; [exact Hnil|].
  inversion Hall as [|b ? l' ? Hb Hrest]; subst. cbn.
  apply Happ; [exact (Hturn _ _ _ _ Hb)|]. exact (IH _ Hrest).
Qed.

(** A driver that is still running after [cycles] cycles has made
    [cycles] passes, each followed by the sleep of [pollCheckGap]. *)
Lemma running_driver_events (P : history -> Prop) :
  P [] ->
  (forall evs1 evs2, P evs1 -> P evs2 -> P (evs1 ++ evs2)) ->
  (forall c token pp evs, turn_events c token pp evs -> P evs) ->
  forall cycles c h c' h',
    checkForPayments env cycles c h = ((false, c'), h') ->
    exists passes : list history,
      length passes = cycles /\
      h' = h ++ concat (map (fun p => p ++ [EvSleep pollCheckGap]) passes) /\
      Forall P passes.
Proof.
  intros Hnil Happ Hturn cycles.
  induction cycles as [|n IH]; intros c h c' h'.
  - cbn. intros [= <- <-]. exists []. cbn. rewrite app_nil_r. auto.
  - rewrite checkForPayments_S, cycle_unfold. cbn zeta.
    destruct (pass_events_have P Hnil Happ Hturn c
                (createPolledPaymentsCopy env c h).1 h) as (evs & Hh & HP).
    destruct (checkForInvoicePayments env c _ h) as [[[] tokens] h1];
      cbn in Hh; subst h1; [|discriminate].
    intros (passes & Hlen & -> & Hall)%IH.
    exists (evs :: passes). cbn. rewrite <- !app_assoc. cbn.
    split; [lia|]. split; [reflexivity|]. constructor; assumption.
Qed.

(** Every run of the driver, returned or not. *)
Lemma driver_events_have (P : history -> Prop) :
  P [] ->
  (forall evs1 evs2, P evs1 -> P evs2 -> P (evs1 ++ evs2)) ->
  (forall c token pp evs, turn_events c token pp evs -> P evs) ->
  P [EvSleep pollCheckGap] ->
  forall cycles c h,
    exists evs, (checkForPayments env cycles c h).2 = h ++ evs /\ P evs.
Proof.
  intros Hnil Happ Hturn Hsleep cycles.
  induction cycles as [|n IH]; intros c h.
  - exists []. cbn. rewrite app_nil_r. auto.
  - rewrite checkForPayments_S, cycle_unfold. cbn zeta.
    destruct (pass_events_have P Hnil Happ Hturn c
                (createPolledPaymentsCopy env c h).1 h) as (evs & Hh & HP).
    destruct (checkForInvoicePayments env c _ h) as [[[] tokens] h1];
      cbn in Hh; subst h1.
    + destruct (IH (removeInvoicesFromPolling tokens c)
                  ((h ++ evs) ++ [EvSleep pollCheckGap])) as (evs2 & Hh2 & HP2).
      exists ((evs ++ [EvSleep pollCheckGap]) ++ evs2).
      rewrite !app_assoc. split; [exact Hh2|].
      auto.
    + exists evs. auto.
Qed.

End Events.

(** The tokens of the invoice fetches among the events. *)
Definition fetched_tokens (evs : history) : list string :=
  omap (fun e => match e with
                 | EvGetInvoiceByToken token _ => Some token
                 | _ => None
                 end) evs.

(** The number of events of a kind. *)
Fixpoint count_events (kind : event -> bool) (evs : history) : nat :=
  match evs with
  | [] => O
  | e :: evs' => ((if kind e then 1 else 0) + count_events kind evs')%nat
  end.

(** The time slept, in nanoseconds. *)
Fixpoint total_sleep (evs : history) : Z :=
  match evs with
  | [] => 0
  | EvSleep d :: evs' => d + total_sleep evs'
  | _ :: evs' => total_sleep evs'
  end.

(** The events before an update show that it is a settlement: the
    invoice was fetched with a status other than Paid, the clock was read
    and the block explorers reported a transaction, just before. *)
Definition settlement (pre : history) (invoice : Invoice) : Prop :=
  exists pre' token fetched now addr amt notBefore minConf tx paidAmt,
    pre = pre' ++ [EvGetInvoiceByToken token (Ok fetched); EvNow now;
                   EvFetchTx addr amt notBefore minConf (tx, paidAmt, None)] /\
    tx <> ""%string /\
    Status fetched <> InvoiceStatusPaid /\
    invoice = set_Status InvoiceStatusPaid fetched.

Definition updates_are_settlements (evs : history) : Prop :=
  forall pre invoice r post,
    evs = pre ++ EvUpdateInvoice invoice r :: post -> settlement pre invoice.

Section EventFacts.

Lemma count_events_app kind evs1 evs2 :
  count_events kind (evs1 ++ evs2) =
    (count_events kind evs1 + count_events kind evs2)%nat.
Proof. induction evs1 as [|e evs1 IH]; cbn; [reflexivity|]. rewrite IH. lia. Qed.

Lemma total_sleep_app evs1 evs2 :
  total_sleep (evs1 ++ evs2) = total_sleep evs1 + total_sleep evs2.
Proof.
  induction evs1 as [|e evs1 IH]; cbn; [reflexivity|].
  destruct e; rewrite ?IH; lia.
Qed.

Lemma fetched_tokens_app evs1 evs2 :
  fetched_tokens (evs1 ++ evs2) = fetched_tokens evs1 ++ fetched_tokens evs2.
Proof. apply omap_app. Qed.

Lemma updates_are_settlements_nil : updates_are_settlements [].
Proof. intros [|e pre] invoice r post; discriminate. Qed.

Lemma updates_are_settlements_app evs1 evs2 :
  updates_are_settlements evs1 -> updates_are_settlements evs2 ->
  updates_are_settlements (evs1 ++ evs2).
Proof.
  intros H1 H2 pre invoice r post Heq.
  apply app_eq_inv in Heq as [(k & Hevs1 & Hk)|(k & Hpre & Hevs2)].
  - destruct k as [|e k].
    + cbn in Hk. symmetry in Hk.
      destruct (H2 [] invoice r post Hk) as ([|] & ? & ? & ? & ? & ? & ? & ? & ? & ? & Hnil & _);
        discriminate.
    + injection Hk as <- ->. exact (H1 _ _ _ _ Hevs1).
  - destruct (H2 _ _ _ _ Hevs2)
      as (pre' & tok & f & now & a & b & n & m & tx & pa & -> & Htx & Hst & Hinv).
    exists (evs1 ++ pre'), tok, f, now, a, b, n, m, tx, pa.
    rewrite Hpre, <- app_assoc. auto.
Qed.

Lemma no_update_no_settlement evs :
  existsb is_UpdateInvoice evs = false -> updates_are_settlements evs.
Proof.
  intros Hnone pre invoice r post ->.
  rewrite existsb_app in Hnone. cbn in Hnone.
  rewrite orb_true_r in Hnone. discriminate.
Qed.

Lemma turn_updates_are_settlements c token pp evs :
  turn_events c token pp evs -> updates_are_settlements evs.
Proof.
  intros [err|invoice Hpaid|invoice now Hst Hexp|invoice now r tail Hst Hexp Htail];
    try (apply no_update_no_settlement; reflexivity).
  destruct r as [[tx amt] [err|]]; cbn in Htail.
  { subst tail. apply no_update_no_settlement. reflexivity. }
  destruct (decide (tx = ""%string)) as [->|Htx].
  { subst tail. apply no_update_no_settlement. reflexivity. }
  destruct Htail as [res ->].
  intros pre inv r post Heq.
  destruct pre as [|e1 [|e2 [|e3 [|e4 pre]]]]; simplify_eq/=.
  - eexists [], token, invoice, now, _, _, _, _, tx, amt. cbn. auto.
  - destruct res; simplify_eq/=; destruct pre; simplify_eq/=.
    destruct pre; simplify_eq/=.
Qed.

Lemma turn_counts c token pp evs :
  turn_events c token pp evs ->
  fetched_tokens evs = [token] /\
  (count_events is_Sleep evs <= count_events is_FetchTx evs)%nat /\
  (count_events is_UpdateInvoice evs <= count_events is_FetchTx evs)%nat /\
  (count_events is_FetchTx evs <= 1)%nat.
Proof.
  intros [err|invoice Hpaid|invoice now Hst Hexp|invoice now r tail Hst Hexp Htail];
    try (cbn; repeat split; lia).
  destruct r as [[tx amt] [err|]]; cbn in Htail.
  { subst tail. cbn. repeat split; lia. }
  destruct (decide (tx = ""%string)) as [->|Htx].
  { subst tail. cbn. repeat split; lia. }
  destruct Htail as [[err|] ->]; cbn; repeat split; lia.
Qed.

Lemma turn_sleeps c token pp evs :
  turn_events c token pp evs ->
  0 <= total_sleep evs /\ forall d, EvSleep d ∈ evs -> d = pollCheckGap.
Proof.
  assert (forall d (l : history),
            existsb is_Sleep l = false -> EvSleep d ∈ l -> d = pollCheckGap)
    as Hnone.
  { intros d l Hl Hin. exfalso. induction l as [|e l IH].
    - apply elem_of_nil in Hin. exact Hin.
    - cbn in Hl. apply orb_false_elim in Hl as [He Hl].
      apply elem_of_cons in Hin as [<-|Hin]; [discriminate|auto]. }
  intros [err|invoice Hpaid|invoice now Hst Hexp|invoice now r tail Hst Hexp Htail];
    try (split; [cbn; lia|intros d; apply Hnone; reflexivity]).
  assert ((tail = []) \/ (tail = [EvSleep pollCheckGap]) \/
          exists u, is_UpdateInvoice u = true /\
            (tail = [u] \/ tail = [u; EvSleep pollCheckGap])) as Hshape.
  { destruct r as [[tx amt] [err|]]; cbn in Htail; [auto|].
    destruct (decide (tx = ""%string)); [auto|].
    destruct Htail as [[err|] ->]; right; right;
      (eexists; split; [|first [left; reflexivity|right; reflexivity]];
       reflexivity). }
  destruct Hshape as [->|[->|(u & Hu & [->| ->])]]; cbn.
  - split; [lia|intros d; apply Hnone; reflexivity].
  - split; [unfold pollCheckGap, Time.Second, Time.Nanosecond; lia|].
    intros d Hin. repeat (apply elem_of_cons in Hin as [Hin|Hin]; try discriminate).
    + injection Hin as ->. reflexivity.
    + apply elem_of_nil in Hin. contradiction.
  - destruct u; try discriminate. split; [cbn; lia|].
    intros d. apply Hnone. reflexivity.
  - destruct u; try discriminate. split.
    + cbn. unfold pollCheckGap, Time.Second, Time.Nanosecond. lia.
    + intros d Hin.
      repeat (apply elem_of_cons in Hin as [Hin|Hin]; try discriminate).
      * injection Hin as ->. reflexivity.
      * apply elem_of_nil in Hin. contradiction.
Qed.

End EventFacts.

(** ** The driver as a whole *)

Lemma removeInvoicesFromPolling_subseteq (tokens : list string) (c : cmswww) :
  polledPayments (removeInvoicesFromPolling tokens c) ⊆ polledPayments c.
Proof.
  apply map_subseteq_spec. intros token e.
  rewrite removeInvoicesFromPolling_lookup.
  destruct (bool_decide _); [discriminate|auto].
Qed.

(** X10.  With an empty pool the driver never returns and never calls
    the store, the block explorers or the clock: every cycle is nothing
    but the sleep of [pollCheckGap].  This holds in every environment, so
    also when the store has been shut down: a driver with nothing to poll
    does not notice. *)
Theorem idle_driver_only_sleeps (env : Env) (c : cmswww) :
  range_ok env ->
  polledPayments c = ∅ ->
  forall cycles h,
    checkForPayments env cycles c h =
      ((false, c), h ++ replicate cycles (EvSleep pollCheckGap)).
Proof.
  intros Hok Hempty.
  assert (forall h, checkForPayments_cycle env c h =
                      ((false, c), h ++ [EvSleep pollCheckGap])) as Hcycle.
  { intros h. rewrite cycle_unfold. cbn zeta.
    rewrite (createPolledPaymentsCopy_eq env c h Hok). cbn [fst].
    unfold checkForInvoicePayments, range, ask, mbind, IO_bind.
    assert (map_range env h (polledPayments c) = []) as ->.
    { apply Permutation_nil_r. rewrite (Hok h (polledPayments c)), Hempty.
      rewrite map_to_list_empty. reflexivity. }
    cbn. f_equal. f_equal. apply cmswww_eq; reflexivity. }
  intros cycles. induction cycles as [|n IH]; intros h.
  - cbn. rewrite app_nil_r. reflexivity.
  - rewrite checkForPayments_S, Hcycle, IH. cbn.
    rewrite <- app_assoc. reflexivity.
Qed.

(** X11.  The driver never inserts and never changes an entry: after any
    number of cycles every binding of the pool is a binding it had at the
    start, and the configuration is the same. *)
Theorem driver_only_shrinks_pool (env : Env) (cycles : nat) (c : cmswww)
    (h : history) :
  let c' := (checkForPayments env cycles c h).1.2 in
  polledPayments c' ⊆ polledPayments c /\
  (forall token entry,
     polledPayments c' !! token = Some entry ->
     polledPayments c !! token = Some entry) /\
  cfg_MinConfirmationsRequired c' = cfg_MinConfirmationsRequired c.
Proof.
  cbn zeta.
  assert (polledPayments (checkForPayments env cycles c h).1.2 ⊆ polledPayments c /\
          cfg_MinConfirmationsRequired (checkForPayments env cycles c h).1.2 =
            cfg_MinConfirmationsRequired c) as [Hsub Hcfg].
  { revert c h. induction cycles as [|n IH]; intros c h.
    - cbn. split; reflexivity.
    - rewrite checkForPayments_S, cycle_unfold. cbn zeta.
      destruct (checkForInvoicePayments env c _ h) as [[[] tokens] h1].
      + destruct (IH (removeInvoicesFromPolling tokens c)
                    (h1 ++ [EvSleep pollCheckGap])) as [Hsub Hcfg].
        split; [|exact Hcfg].
        etrans; [exact Hsub|apply removeInvoicesFromPolling_subseteq].
      + cbn. split; reflexivity. }
  split; [exact Hsub|]. split; [|exact Hcfg].
  intros token entry Hl. exact (lookup_weaken _ _ _ _ Hl Hsub).
Qed.

(** X12.  The only thing the driver ever writes to the store is a
    settlement: every [UpdateInvoice] of a run comes right after a fetch
    that returned the invoice with a status other than Paid, a reading of
    the clock and an answer of the block explorers with a transaction id
    that is not empty and no error; the invoice written is the fetched
    one with the status Paid and nothing else changed. *)
Theorem driver_writes_only_settlements (env : Env) (cycles : nat)
    (c : cmswww) (h : history) :
  exists evs,
    (checkForPayments env cycles c h).2 = h ++ evs /\
    forall pre invoice r post,
      evs = pre ++ EvUpdateInvoice invoice r :: post ->
      exists pre' token fetched now addr amt notBefore minConf tx paidAmt,
        pre = pre' ++ [EvGetInvoiceByToken token (Ok fetched); EvNow now;
                       EvFetchTx addr amt notBefore minConf (tx, paidAmt, None)] /\
        tx <> ""%string /\
        Status fetched <> InvoiceStatusPaid /\
        invoice = set_Status InvoiceStatusPaid fetched /\
        Status invoice = InvoiceStatusPaid /\
        Token invoice = Token fetched /\
        Payments invoice = Payments fetched.
Proof.
  destruct (driver_events_have env updates_are_settlements
              updates_are_settlements_nil updates_are_settlements_app
              turn_updates_are_settlements
              (no_update_no_settlement [EvSleep pollCheckGap] eq_refl)
              cycles c h) as (evs & Hh & Hsettle).
  exists evs. split; [exact Hh|].
  intros pre invoice r post Heq.
  destruct (Hsettle pre invoice r post Heq)
    as (pre' & tok & f & now & a & b & n & m & tx & pa & Hpre & Htx & Hst & ->).
  exists pre', tok, f, now, a, b, n, m, tx, pa. repeat split; auto.
Qed.

(** X13.  A pass fetches the invoices of the bindings of the snapshot one
    after the other in the order of the range, each at most once: all of
    them when it returns [true], an initial part when it returns [false].
    For each fetch it asks the block explorers at most once, and it sleeps
    and updates no more often than it asks them.  So a pass makes at most
    as many calls of each kind as the snapshot has bindings. *)
Theorem pass_visits_each_binding_once (env : Env) (c : cmswww)
    (snapshot : gmap string polledPayment) (h0 : history) :
  let bindings := map_range env h0 snapshot in
  exists evs,
    (checkForInvoicePayments env c snapshot h0).2 = h0 ++ evs /\
    fetched_tokens evs `prefix_of` bindings.*1 /\
    ((checkForInvoicePayments env c snapshot h0).1.1 = true ->
     fetched_tokens evs = bindings.*1) /\
    (count_events is_FetchTx evs <= length (fetched_tokens evs))%nat /\
    (count_events is_Sleep evs <= count_events is_FetchTx evs)%nat /\
    (count_events is_UpdateInvoice evs <= count_events is_FetchTx evs)%nat /\
    (range_ok env -> (length (fetched_tokens evs) <= size snapshot)%nat).
Proof.
  intros bindings.
  unfold checkForInvoicePayments, range, ask, mbind, IO_bind. fold bindings.
  destruct (loop_events env c bindings [] h0) as (turns & Hh & Hall & Hlen & Htrue).
  exists (concat turns). split; [exact Hh|].
  assert (fetched_tokens (concat turns) = (take (length turns) bindings).*1 /\
          (count_events is_FetchTx (concat turns)
           <= length (fetched_tokens (concat turns)))%nat /\
          (count_events is_Sleep (concat turns)
           <= count_events is_FetchTx (concat turns))%nat /\
          (count_events is_UpdateInvoice (concat turns)
           <= count_events is_FetchTx (concat turns))%nat)
    as (Hfetched & Hc1 & Hc2 & Hc3).
  { clear Hh Htrue Hlen. revert Hall.
    generalize (take (length turns) bindings).
    induction turns as [|evs turns IH]; intros l Hall.
    - inversion Hall. subst. cbn. repeat split; lia.
    - inversion Hall as [|[token pp] ? l' ? Hb Hrest]; subst. cbn.
      destruct (IH _ Hrest) as (IH1 & IH2 & IH3 & IH4).
      destruct (turn_counts _ _ _ _ Hb) as (T1 & T2 & T3 & T4).
      rewrite fetched_tokens_app, !count_events_app, T1, IH1.
      cbn in *. rewrite IH1 in IH2. repeat split; lia. }
  split; [rewrite Hfetched, fmap_take; apply prefix_take|].
  split.
  { intros Hb. rewrite Hfetched, (Htrue Hb), take_ge by lia. reflexivity. }
  split; [exact Hc1|]. split; [exact Hc2|]. split; [exact Hc3|].
  intros Hok. rewrite Hfetched, length_fmap, length_take.
  rewrite <- length_map_to_list, <- (Hok h0 snapshot). fold bindings. lia.
Qed.

(** X14.  A driver that is still running after [n] cycles has slept at
    least [n] times [pollCheckGap], that is five seconds for every cycle
    on top of the sleeps inside the passes; every sleep it makes lasts
    exactly [pollCheckGap]; and each cycle ends with one. *)
Theorem running_driver_sleeps_every_cycle (env : Env) (cycles : nat)
    (c c' : cmswww) (h h' : history) :
  checkForPayments env cycles c h = ((false, c'), h') ->
  exists evs,
    h' = h ++ evs /\
    Z.of_nat cycles * pollCheckGap <= total_sleep evs /\
    (forall d, EvSleep d ∈ evs -> d = pollCheckGap) /\
    pollCheckGap = 5000000000 /\
    ((0 < cycles)%nat -> last evs = Some (EvSleep pollCheckGap)).
Proof.
  intros Hrun.
  destruct (running_driver_events env
              (fun evs => 0 <= total_sleep evs /\
                          forall d, EvSleep d ∈ evs -> d = pollCheckGap))
    with (cycles := cycles) (c := c) (h := h) (c' := c') (h' := h')
    as (passes & Hlen & -> & Hall).
  - split; [reflexivity|]. intros d Hin. apply elem_of_nil in Hin. contradiction.
  - intros evs1 evs2 [H1 H1'] [H2 H2']. rewrite total_sleep_app.
    split; [lia|]. intros d [?|?]%elem_of_app; auto.
  - intros c0 token pp evs. apply turn_sleeps.
  - exact Hrun.
  - eexists. split; [reflexivity|]. subst cycles. clear Hrun.
    split; [|split; [|split]].
    + induction Hall as [|p passes [Hp _] _ IH]; cbn; [lia|].
      rewrite !total_sleep_app. cbn [total_sleep].
      replace (Z.of_nat (S (length passes)))
        with (1 + Z.of_nat (length passes)) by lia.
      lia.
    + intros d. induction Hall as [|p passes [_ Hp] _ IH]; cbn.
      * intros Hin. apply elem_of_nil in Hin. contradiction.
      * intros [[Hin|Hin]%elem_of_app|Hin]%elem_of_app; auto.
        apply list_elem_of_singleton in Hin. injection Hin as ->. reflexivity.
    + reflexivity.
    + intros Hpos. destruct passes as [|p passes _] using rev_ind;
        [cbn in Hpos; lia|].
      rewrite map_app, concat_app. cbn. rewrite app_nil_r, app_assoc.
      apply last_snoc.
Qed.

(** ** The tokens a pass returns *)

Lemma loop_returns_sublist (env : Env) (c : cmswww)
    (l : list (string * polledPayment)) (rem : list string) (h : history)
    (tokens : list string) (h' : history) :
  tokens_match env ->
  checkForInvoicePayments_loop env c l rem h = ((true, tokens), h') ->
  exists kept, tokens = rem ++ kept /\ kept `sublist_of` l.*1.
Proof.
  intros Hmatch. revert rem h.
  induction l as [|[token pp] l IH]; intros rem h.
  - cbn. intros [= <- <-]. exists []. rewrite app_nil_r.
    split; [reflexivity|constructor].
  - cbn [checkForInvoicePayments_loop]. unfold mbind, IO_bind.
    destruct (checkForInvoicePayments_body env c token pp rem h)
      as [[|rem1] h1] eqn:Hbody; [discriminate|].
    intros (kept & -> & Hsub)%IH.
    destruct (body_tokens _ _ _ _ _ _ _ _ Hmatch Hbody) as [->| ->].
    + exists kept. split; [reflexivity|]. cbn. apply sublist_cons. exact Hsub.
    + exists (token :: kept). rewrite <- app_assoc.
      split; [reflexivity|]. cbn. apply sublist_skip. exact Hsub.
Qed.

(** X15.  With a range that visits each binding once and a store that
    answers for the token asked, the tokens that a pass returns are keys
    of the snapshot, in the order in which the range visited them and
    without repetition; a pass that returns [false] returns none. *)
Theorem pass_returns_snapshot_tokens (env : Env) (c : cmswww)
    (snapshot : gmap string polledPayment) (h0 : history) :
  range_ok env -> tokens_match env ->
  let tokens := (checkForInvoicePayments env c snapshot h0).1.2 in
  tokens `sublist_of` (map_range env h0 snapshot).*1 /\
  NoDup tokens /\
  (forall token, token ∈ tokens -> is_Some (snapshot !! token)) /\
  (length tokens <= size snapshot)%nat /\
  ((checkForInvoicePayments env c snapshot h0).1.1 = false -> tokens = []).
Proof.
  intros Hok Hmatch tokens.
  assert (NoDup (map_range env h0 snapshot).*1) as Hnd.
  { rewrite (Hok h0 snapshot). apply NoDup_fst_map_to_list. }
  assert (tokens `sublist_of` (map_range env h0 snapshot).*1 /\
          ((checkForInvoicePayments env c snapshot h0).1.1 = false -> tokens = []))
    as [Hsub Hfalse].
  { unfold tokens, checkForInvoicePayments, range, ask, mbind, IO_bind.
    destruct (loop_history env c (map_range env h0 snapshot) [] h0)
      as (evs & _ & Hq).
    destruct (checkForInvoicePayments_loop env c _ [] h0)
      as [[[] toks] h1] eqn:Hloop; cbn in *.
    - destruct (loop_returns_sublist _ _ _ _ _ _ _ Hmatch Hloop)
        as (kept & -> & Hsub).
      split; [exact Hsub|discriminate].
    - destruct Hq as [-> _]. split; [apply sublist_nil_l|reflexivity]. }
  split; [exact Hsub|]. split; [exact (sublist_NoDup _ _ Hnd Hsub)|].
  split; [|split; [|exact Hfalse]].
  - intros token Hin. pose proof (elem_of_sublist _ _ _ Hin Hsub) as Hkey.
    apply list_elem_of_fmap in Hkey as ([t pp] & -> & Hb).
    rewrite (Hok h0 snapshot) in Hb. apply elem_of_map_to_list in Hb.
    cbn. eauto.
  - rewrite <- length_map_to_list, <- (Hok h0 snapshot).
    rewrite <- (length_fmap fst (map_range env h0 snapshot)).
    apply sublist_length. exact Hsub.
Qed.

(** ** More on the expiry test and on the seeding *)

(** X16.  Once expired, always expired: when [pollHasExpired] holds for
    an expiry at one reading of the clock, it holds for that expiry at
    every reading that is not earlier, whatever the expiry is.  Among
    the expiries below [2 ^ 63 - unixToInternal], which [time.Unix]
    shifts without wrap-around, it then holds for every earlier expiry
    as well. *)
Theorem expiry_is_monotone (env : Env) (expiry : Z) (h later : history) :
  (pollHasExpired env expiry h).1 = true ->
  Time.After (time_Now env h) (time_Now env later) = false ->
  (pollHasExpired env expiry later).1 = true /\
  (Time.representable expiry ->
   forall earlier, Time.representable earlier -> earlier <= expiry ->
     (pollHasExpired env earlier h).1 = true).
Proof.
  rewrite !pollHasExpired_eq. cbn [fst].
  intros Hexp Hlater. split.
  - set (u := Time.Unix expiry 0) in *.
    apply not_true_iff_false in Hlater. unfold Time.After in *.
    rewrite orb_true_iff, andb_true_iff, !Z.ltb_lt, Z.eqb_eq in Hexp, Hlater.
    rewrite orb_true_iff, andb_true_iff, !Z.ltb_lt, Z.eqb_eq. lia.
  - intros Hr earlier Hre Hle. rewrite pollHasExpired_eq. cbn [fst].
    apply (After_Unix _ _ Hre). apply (After_Unix _ _ Hr) in Hexp. lia.
Qed.

(** [initPaymentChecker]: the pool is seeded and, unless that failed, the
    task that runs [checkForPayments] is started.  The task is observed
    for [cycles] turns of its loop; the result is the error that
    [initPaymentChecker] returns, and what the observation of the task
    gives, [None] when it was not started. *)
Definition initPaymentChecker (env : Env) (cycles : nat) (c : cmswww)
  : IO (option error * cmswww * option (bool * cmswww)) :=
  r ← addInvoicesForPolling env c;
  let '(err, c) := r in
  match err with
  | Some err => mret (Some err, c, None)
  | None =>
      task ← checkForPayments env cycles c;
      mret (None, c, Some task)
  end.

(** X17.  When the store cannot list the invoices at startup (because it
    is shut down, or for any other reason), [addInvoicesForPolling]
    returns that error without reading the clock and leaves the pool as
    it is, and [initPaymentChecker] returns the error without starting
    the task that polls: the failed call is the only event, however long
    one waits. *)
Theorem startup_fails_with_the_store (env : Env) (c : cmswww) (h : history)
    (err : error) :
  db_GetInvoices env h = Err err ->
  addInvoicesForPolling env c h =
    ((Some err, c), h ++ [EvGetInvoices (Err err)]) /\
  forall cycles,
    initPaymentChecker env cycles c h =
      ((Some err, c, None), h ++ [EvGetInvoices (Err err)]).
Proof.
  intros Hget.
  assert (addInvoicesForPolling env c h =
            ((Some err, c), h ++ [EvGetInvoices (Err err)])) as Hseed.
  { unfold addInvoicesForPolling, GetInvoices, ask, emit, mbind, mret,
      IO_bind, IO_ret. rewrite Hget. reflexivity. }
  split; [exact Hseed|].
  intros cycles. unfold initPaymentChecker, mbind, mret, IO_bind, IO_ret.
  rewrite Hseed. reflexivity.
Qed.

Section SeedingMore.

Variable env : Env.

Lemma seeded_unchanged checks (m : gmap string polledPayment) token :
  (forall p now, (token, p, now) ∈ checks -> passed (token, p, now) = true) ->
  foldl seed_step m checks !! token = m !! token.
Proof.
  intros Hall.
  destruct (foldl seed_step m checks !! token) as [e|] eqn:Hseeded.
  - destruct (seeded_lookup checks m token e Hseeded)
      as [Hm|(p & now & Hin & Hp & _)]; [congruence|].
    rewrite (Hall _ _ Hin) in Hp. discriminate.
  - destruct (m !! token) as [e|] eqn:Hm; [|reflexivity].
    assert (is_Some (foldl seed_step m checks !! token)) as [e' He'].
    { apply seeded_is_Some. left. rewrite Hm. eauto. }
    congruence.
Qed.

Lemma seeded_last checks1 checks2 (m : gmap string polledPayment) token p now :
  passed (token, p, now) = false ->
  (forall p' now', (token, p', now') ∈ checks2 ->
                   passed (token, p', now') = true) ->
  foldl seed_step m (checks1 ++ (token, p, now) :: checks2) !! token =
    Some (polledPayment_of p).
Proof.
  intros Hp Hlater. rewrite foldl_app. cbn [foldl].
  rewrite seeded_unchanged by exact Hlater.
  unfold seed_step. rewrite Hp. cbn. apply lookup_insert_eq.
Qed.

(** X18.  Seeding never unbinds a token: whatever the pool bound before
    [addInvoicesForPolling] it binds afterwards, and a token none of
    whose rows was unexpired when tested is bound (or not) exactly as
    before.  Only the pool changes: the configuration is kept. *)
Theorem seeding_keeps_the_pool (c : cmswww) (h : history) :
  let c' := (addInvoicesForPolling env c h).1.2 in
  dom (polledPayments c) ⊆ dom (polledPayments c') /\
  cfg_MinConfirmationsRequired c' = cfg_MinConfirmationsRequired c /\
  forall invoices token,
    db_GetInvoices env h = Ok invoices ->
    (forall p now,
       (token, p, now) ∈ clock_readings env (payment_rows invoices)
                           (h ++ [EvGetInvoices (Ok invoices)]) ->
       Time.After now (Time.Unix (PollExpiry p) 0) = true) ->
    polledPayments c' !! token = polledPayments c !! token.
Proof.
  cbn zeta.
  unfold addInvoicesForPolling, GetInvoices, ask, emit, mbind, mret,
    IO_bind, IO_ret.
  destruct (db_GetInvoices env h) as [invoices|err] eqn:Hget; cbn.
  - rewrite invoices_seeded. cbn.
    split; [|split; [reflexivity|]].
    + intros token Hin. apply elem_of_dom. apply seeded_is_Some. left.
      apply elem_of_dom. exact Hin.
    + intros invoices' token [= <-] Hall. apply seeded_unchanged. exact Hall.
  - split; [reflexivity|]. split; [reflexivity|]. discriminate.
Qed.

(** X19.  Of several payment rows under one token, the last one that is
    not expired when it is tested is the one the pool ends up with: a
    later unexpired row replaces an earlier one, and rows that have
    expired replace nothing. *)
Theorem seeding_keeps_last_unexpired_row (c : cmswww) (h : history)
    (invoices : list Invoice) (token : string) (p : InvoicePayment)
    (now : Time.t)
    (before after : list (string * InvoicePayment * Time.t)) :
  db_GetInvoices env h = Ok invoices ->
  clock_readings env (payment_rows invoices)
    (h ++ [EvGetInvoices (Ok invoices)]) = before ++ (token, p, now) :: after ->
  Time.After now (Time.Unix (PollExpiry p) 0) = false ->
  (forall p' now', (token, p', now') ∈ after ->
     Time.After now' (Time.Unix (PollExpiry p') 0) = true) ->
  polledPayments (addInvoicesForPolling env c h).1.2 !! token =
    Some (polledPayment_of p).
Proof.
  intros Hget Hchecks Hp Hlater.
  unfold addInvoicesForPolling, GetInvoices, ask, emit, mbind, mret,
    IO_bind, IO_ret.
  rewrite Hget. cbn. rewrite invoices_seeded. cbn. rewrite Hchecks.
  apply seeded_last; assumption.
Qed.

End SeedingMore.


(** * The rest of the store

    The functions of [cockroachdb] that the poller does not call, as
    computations that call the collaborators of the store: the gorm
    handle, the random source of [dropTable] and the format check of
    [CreateUser].  A collaborator answers as a function of the calls made
    so far.  Invoices cross the handle already encoded and decoded, as in
    the part above. *)
Module Backend.

(** The [error] values of these functions: the ones above and two more
    sentinels of package [database]. *)
Inductive db_error : Type :=
| Plain (e : error)
| ErrInvalidEmail
| ErrUserNotFound.

#[global] Instance db_error_eq_dec : EqDecision db_error.
Proof. solve_decision. Defined.

(** A Go result pair [(value, error)] of these functions. *)
Inductive reply (A : Type) : Type :=
| Reply (a : A)
| Fail (e : db_error).
Arguments Reply {A} a.
Arguments Fail {A} e.

Definition letterBytes : string :=
  "abcdefghijklmnopqrstuvwxyzABCDEFGHIJKLMNOPQRSTUVWXYZ".

(** [letterBytes[i]].  An index out of range makes Go panic; [rand.Intn]
    of the length never gives one. *)
Definition letter_at (i : Z) : Ascii.ascii :=
  match String.get (Z.to_nat i) letterBytes with
  | Some a => a
  | None => Ascii.zero
  end.

Section Store.

(** Declared outside the sources at hand: the user as the server holds
    it ([database.User]), its row ([User]) with its [Email] field, the
    conversions between the two, and the names of the tables. *)
Variable dbUser : Type.
Variable User : Type.
Variable Email : User -> string.
Variable EncodeUser : dbUser -> User.
Variable DecodeUser : User -> result dbUser.
Variable tableNameUser : string.
Variable tableNameIdentity : string.
Variable tableNameInvoice : string.
Variable tableNameInvoiceChange : string.
Variable tableNameInvoicePayment : string.

(** The calls on the collaborators. *)
Inductive call : Type :=
| Create_user (user : User)
| Updates_user (user : User)
| First_user_where (column value : string)
| First_user_by_id (id : Z)
| First_identity_where_key (publicKey : string)
| Find_users
| Create_invoice (invoice : Invoice)
| Exec (statement : string)
| Close_handle
| Intn (n : Z).

Record collaborators : Type := mkCollaborators {
  (** the [Error] of the handle after a statement that returns no row *)
  gorm_error : list call -> call -> option error;
  (** the user row that [First] scans, or the [Error] of the handle *)
  gorm_user : list call -> call -> result User;
  (** the [UserID] of the identity row that [First] scans *)
  gorm_identity : list call -> string -> result Z;
  gorm_users : list call -> result (list User);
  rand_Intn : list call -> Z -> Z;
  checkmail_ValidateFormat : string -> option error
}.

(** [rand.Intn n] is in [0, n). *)
Definition rand_ok (w : collaborators) : Prop :=
  forall calls n, 0 < n -> 0 <= rand_Intn w calls n < n.

Definition DB (A : Type) : Type := list call -> A * list call.

#[global] Instance DB_ret : MRet DB := fun A a calls => (a, calls).
#[global] Instance DB_bind : MBind DB :=
  fun A B k m calls => let (a, calls') := m calls in k a calls'.

Definition calling {A} (answer : list call -> call -> A) (q : call) : DB A :=
  fun calls => (answer calls q, calls ++ [q]).

Variable w : collaborators.

Record cockroachdb : Type := mkStore { shutdown : bool }.

(** [gorm.IsRecordNotFoundError] *)
Definition IsRecordNotFoundError (err : error) : bool :=
  bool_decide (err = gorm_ErrRecordNotFound).

Definition dropTable (tableName : string) : DB (option error) :=
  b0 ← calling (fun calls _ => letter_at (rand_Intn w calls 52)) (Intn 52);
  b1 ← calling (fun calls _ => letter_at (rand_Intn w calls 52)) (Intn 52);
  b2 ← calling (fun calls _ => letter_at (rand_Intn w calls 52)) (Intn 52);
  b3 ← calling (fun calls _ => letter_at (rand_Intn w calls 52)) (Intn 52);
  let newTableName :=
    (tableName +:+ String b0 (String b1 (String b2 (String b3 ""))))%string in
  err ← calling (gorm_error w)
          (Exec ("ALTER TABLE IF EXISTS " +:+ tableName +:+ " RENAME TO " +:+
                 newTableName +:+ ";"));
  match err with
  | Some err => mret (Some err)
  | None =>
      calling (gorm_error w)
        (Exec ("DROP TABLE IF EXISTS " +:+ newTableName +:+ " CASCADE;"))
  end.

Definition CreateUser (c : cockroachdb) (dbUser : dbUser) : DB (option db_error) :=
  if shutdown c then mret (Some (Plain ErrShutdown))
  else
    let user := EncodeUser dbUser in
    match checkmail_ValidateFormat w (Email user) with
    | Some _ => mret (Some ErrInvalidEmail)
    | None =>
        err ← calling (gorm_error w) (Create_user user);
        mret (Plain <$> err)
    end.

Definition UpdateUser (c : cockroachdb) (dbUser : dbUser) : DB (option db_error) :=
  if shutdown c then mret (Some (Plain ErrShutdown))
  else
    let user := EncodeUser dbUser in
    err ← calling (gorm_error w) (Updates_user user);
    mret (Plain <$> err).

(** The common end of the three lookups of a user. *)
Definition found_user (r : result User) : reply dbUser :=
  match r with
  | Err err =>
      if IsRecordNotFoundError err then Fail ErrUserNotFound
      else Fail (Plain err)
  | Ok user =>
      match DecodeUser user with
      | Ok dbUser => Reply dbUser
      | Err err => Fail (Plain err)
      end
  end.

Definition GetUserByEmail (c : cockroachdb) (email : string) : DB (reply dbUser) :=
  if shutdown c then mret (Fail (Plain ErrShutdown))
  else
    r ← calling (gorm_user w) (First_user_where "email" email);
    mret (found_user r).

Definition GetUserByUsername (c : cockroachdb) (username : string)
  : DB (reply dbUser) :=
  if shutdown c then mret (Fail (Plain ErrShutdown))
  else
    r ← calling (gorm_user w) (First_user_where "username" username);
    mret (found_user r).

Definition GetUserById (c : cockroachdb) (id : Z) : DB (reply dbUser) :=
  if shutdown c then mret (Fail (Plain ErrShutdown))
  else
    r ← calling (gorm_user w) (First_user_by_id id);
    mret (found_user r).

Definition GetUserIdByPublicKey (c : cockroachdb) (publicKey : string)
  : DB (reply Z) :=
  r ← calling (fun calls _ => gorm_identity w calls publicKey)
        (First_identity_where_key publicKey);
  match r with
  | Err err => mret (Fail (Plain err))
  | Ok userID => mret (Reply userID)
  end.

(** The loop of [AllUsers]; the callback acts on a state of its own. *)
Fixpoint AllUsers_loop {S : Type} (callbackFn : dbUser -> S -> S)
    (users : list User) (s : S) : option db_error * S :=
  match users with
  | [] => (None, s)
  | user :: rest =>
      match DecodeUser user with
      | Err err => (Some (Plain err), s)
      | Ok dbUser => AllUsers_loop callbackFn rest (callbackFn dbUser s)
      end
  end.

Definition AllUsers {S : Type} (c : cockroachdb)
    (callbackFn : dbUser -> S -> S) (s : S) : DB (option db_error * S) :=
  if shutdown c then mret (Some (Plain ErrShutdown), s)
  else
    r ← calling (fun calls _ => gorm_users w calls) Find_users;
    match r with
    | Err err => mret (Some (Plain err), s)
    | Ok users => mret (AllUsers_loop callbackFn users s)
    end.

(** The row that is created is [EncodeInvoice dbInvoice]; the encoding is
    not among the sources at hand, and the call is recorded with the
    invoice that is encoded. *)
Definition CreateInvoice (c : cockroachdb) (dbInvoice : Invoice)
  : DB (option db_error) :=
  if shutdown c then mret (Some (Plain ErrShutdown))
  else
    err ← calling (gorm_error w) (Create_invoice dbInvoice);
    mret (Plain <$> err).

Definition DeleteAllData (c : cockroachdb) : DB (option db_error) :=
  if shutdown c then mret (Some (Plain ErrShutdown))
  else
    _ ← dropTable tableNameInvoicePayment;
    _ ← dropTable tableNameInvoiceChange;
    _ ← dropTable tableNameInvoice;
    _ ← dropTable tableNameIdentity;
    _ ← dropTable tableNameUser;
    mret None.

Definition Close (c : cockroachdb) : DB (option error * cockroachdb) :=
  err ← calling (gorm_error w) Close_handle;
  mret (err, {| shutdown := true |}).

(** *** Facts *)

Ltac db_unfold :=
  unfold CreateUser, UpdateUser, GetUserByEmail, GetUserByUsername,
    GetUserById, GetUserIdByPublicKey, AllUsers, CreateInvoice,
    DeleteAllData, Close, calling, mbind, mret, DB_bind, DB_ret in *.

(** X20.  Once [Close] has run, every function of the store that looks
    at the [shutdown] flag returns ErrShutdown and makes no call on the
    handle, the random source or the format check: no user or invoice is
    created or updated, no table is dropped and the callback of
    [AllUsers] is not called.  [Close] itself closes the handle once and
    hands on its error. *)
Theorem closed_store_does_nothing (c : cockroachdb) (calls0 : list call) :
  let closed := (Close c calls0).1.2 in
  (Close c calls0).2 = calls0 ++ [Close_handle] /\
  (Close c calls0).1.1 = gorm_error w calls0 Close_handle /\
  shutdown closed = true /\
  forall calls,
    (forall u, CreateUser closed u calls = (Some (Plain ErrShutdown), calls)) /\
    (forall u, UpdateUser closed u calls = (Some (Plain ErrShutdown), calls)) /\
    (forall email,
       GetUserByEmail closed email calls = (Fail (Plain ErrShutdown), calls)) /\
    (forall username,
       GetUserByUsername closed username calls =
         (Fail (Plain ErrShutdown), calls)) /\
    (forall id, GetUserById closed id calls = (Fail (Plain ErrShutdown), calls)) /\
    (forall (S : Type) (callbackFn : dbUser -> S -> S) (s : S),
       AllUsers closed callbackFn s calls =
         ((Some (Plain ErrShutdown), s), calls)) /\
    (forall invoice,
       CreateInvoice closed invoice calls = (Some (Plain ErrShutdown), calls)) /\
    DeleteAllData closed calls = (Some (Plain ErrShutdown), calls).
Proof. cbn zeta. db_unfold. cbn. repeat split. Qed.

(** X22.  [CreateUser] never asks the handle to create a user whose
    email does not pass the format check, and never more than one user:
    whatever it asks the handle to create is the encoded user it was
    given, on an open store, with an email that passes.  A failed check
    gives ErrInvalidEmail, whatever error the check reported. *)
Theorem CreateUser_creates_only_valid (c : cockroachdb) (u : dbUser)
    (calls : list call) :
  exists new,
    (CreateUser c u calls).2 = calls ++ new /\
    (new = [] \/ new = [Create_user (EncodeUser u)]) /\
    (new <> [] ->
       shutdown c = false /\
       checkmail_ValidateFormat w (Email (EncodeUser u)) = None /\
       (CreateUser c u calls).1 =
         Plain <$> gorm_error w calls (Create_user (EncodeUser u))) /\
    (shutdown c = false ->
     forall err, checkmail_ValidateFormat w (Email (EncodeUser u)) = Some err ->
       (CreateUser c u calls).1 = Some ErrInvalidEmail /\ new = []).
Proof.
  db_unfold. destruct (shutdown c); cbn.
  { exists []. rewrite app_nil_r. split; [reflexivity|]. split; [auto|].
    split; [intros H; contradiction H; reflexivity|discriminate]. }
  destruct (checkmail_ValidateFormat w (Email (EncodeUser u))) as [err|]; cbn.
  - exists []. rewrite app_nil_r. split; [reflexivity|]. split; [auto|].
    split; [intros H; contradiction H; reflexivity|auto].
  - exists [Create_user (EncodeUser u)]. split; [reflexivity|].
    split; [auto|]. split; [auto|]. intros _ err. discriminate.
Qed.

(** X23.  [AllUsers] hands the users to the callback in the order of the
    rows, up to the first row that cannot be decoded: the callback has
    run on every user before that row and on none after it, and the error
    returned is the one of the decoding.  Without such a row the callback
    has run on all of them and no error is returned. *)
Theorem AllUsers_stops_at_first_bad_row {S : Type} (c : cockroachdb)
    (callbackFn : dbUser -> S -> S) (s : S) (calls : list call)
    (rows : list User) :
  shutdown c = false ->
  gorm_users w calls = Ok rows ->
  exists (good : list User) (users : list dbUser) (rest : list User),
    rows = good ++ rest /\
    Forall2 (fun row u => DecodeUser row = Ok u) good users /\
    (AllUsers c callbackFn s calls).1.2 =
      foldl (fun s u => callbackFn u s) s users /\
    (AllUsers c callbackFn s calls).2 = calls ++ [Find_users] /\
    match (AllUsers c callbackFn s calls).1.1 with
    | None => rest = []
    | Some e =>
        exists row rest' err,
          rest = row :: rest' /\ DecodeUser row = Err err /\ e = Plain err
    end.
Proof.
  intros Hopen Hrows. db_unfold. rewrite Hopen, Hrows. cbn.
  clear Hrows. revert s. induction rows as [|row rows IH]; intros s.
  - exists [], [], []. cbn. repeat split; constructor.
  - cbn. destruct (DecodeUser row) as [u|err] eqn:Hrow.
    + destruct (IH (callbackFn u s))
        as (good & users & rest & -> & Hall & Hstate & Hcalls & Herr).
      exists (row :: good), (u :: users), rest. cbn.
      split; [reflexivity|]. split; [constructor; assumption|].
      split; [exact Hstate|]. split; [reflexivity|exact Herr].
    + exists [], [], (row :: rows). cbn.
      split; [reflexivity|]. split; [constructor|].
      split; [reflexivity|]. split; [reflexivity|].
      exists row, rows, err. auto.
Qed.

(** *** Dropping tables *)

Definition rename_statement (tableName newTableName : string) : string :=
  ("ALTER TABLE IF EXISTS " +:+ tableName +:+ " RENAME TO " +:+
   newTableName +:+ ";")%string.

Definition drop_statement (newTableName : string) : string :=
  ("DROP TABLE IF EXISTS " +:+ newTableName +:+ " CASCADE;")%string.

Definition is_letter (a : Ascii.ascii) : bool :=
  existsb (Ascii.eqb a) (list_ascii_of_string letterBytes).

Definition all_letters (s : string) : bool :=
  forallb is_letter (list_ascii_of_string s).

(** The calls of one [dropTable]: four draws, the renaming to the table
    name with the suffix drawn, and the drop of the renamed table unless
    the renaming failed. *)
Definition drop_calls (b : string * string * bool) : list call :=
  let '(tableName, suffix, dropped) := b in
  replicate 4 (Intn 52) ++
  Exec (rename_statement tableName (tableName +:+ suffix)) ::
  (if dropped then [Exec (drop_statement (tableName +:+ suffix))] else []).

Lemma letter_at_is_letter (i : Z) :
  0 <= i < 52 -> is_letter (letter_at i) = true.
Proof.
  intros Hi. unfold letter_at.
  assert (Z.to_nat i < 52)%nat as Hn by lia.
  revert Hn. generalize (Z.to_nat i). intros n Hn.
  do 52 (destruct n as [|n]; [vm_compute; reflexivity|]). lia.
Qed.

Lemma dropTable_calls (tableName : string) (calls : list call) :
  rand_ok w ->
  exists suffix dropped,
    String.length suffix = 4%nat /\
    all_letters suffix = true /\
    (dropTable tableName calls).2 =
      calls ++ drop_calls (tableName, suffix, dropped).
Proof.
  intros Hrand.
  set (b0 := letter_at (rand_Intn w calls 52)).
  set (b1 := letter_at (rand_Intn w (calls ++ [Intn 52]) 52)).
  set (b2 := letter_at (rand_Intn w ((calls ++ [Intn 52]) ++ [Intn 52]) 52)).
  set (b3 := letter_at
               (rand_Intn w (((calls ++ [Intn 52]) ++ [Intn 52]) ++ [Intn 52]) 52)).
  exists (String b0 (String b1 (String b2 (String b3 "")))).
  unfold dropTable, calling, mbind, mret, DB_bind, DB_ret.
  fold b0 b1 b2 b3.
  destruct (gorm_error w _ _) as [err|] eqn:Hren.
  - exists false. split; [reflexivity|]. split.
    { change (is_letter b0 && (is_letter b1 && (is_letter b2 &&
                (is_letter b3 && true))) = true).
      unfold b0, b1, b2, b3.
      rewrite !letter_at_is_letter by (apply Hrand; lia). reflexivity. }
    cbn. rewrite <- !app_assoc. reflexivity.
  - exists true. split; [reflexivity|]. split.
    { change (is_letter b0 && (is_letter b1 && (is_letter b2 &&
                (is_letter b3 && true))) = true).
      unfold b0, b1, b2, b3.
      rewrite !letter_at_is_letter by (apply Hrand; lia). reflexivity. }
    cbn. rewrite <- !app_assoc. reflexivity.
Qed.

(** X24.  [dropTable] first renames the table to its name followed by
    four letters drawn from [letterBytes], and then drops the renamed
    table.  When the renaming fails its error is returned and nothing is
    dropped; otherwise the result is that of the drop.  The table is never
    dropped under its own name. *)
Theorem dropTable_renames_then_drops (tableName : string) (calls : list call) :
  rand_ok w ->
  exists suffix,
    String.length suffix = 4%nat /\
    all_letters suffix = true /\
    let newTableName := (tableName +:+ suffix)%string in
    let drawn := calls ++ replicate 4 (Intn 52) in
    let rename := Exec (rename_statement tableName newTableName) in
    let drop := Exec (drop_statement newTableName) in
    match gorm_error w drawn rename with
    | Some err =>
        dropTable tableName calls =
          (Some err, calls ++ drop_calls (tableName, suffix, false))
    | None =>
        dropTable tableName calls =
          (gorm_error w (drawn ++ [rename]) drop,
           calls ++ drop_calls (tableName, suffix, true))
    end.
Proof.
  intros Hrand.
  set (b0 := letter_at (rand_Intn w calls 52)).
  set (b1 := letter_at (rand_Intn w (calls ++ [Intn 52]) 52)).
  set (b2 := letter_at (rand_Intn w ((calls ++ [Intn 52]) ++ [Intn 52]) 52)).
  set (b3 := letter_at
               (rand_Intn w (((calls ++ [Intn 52]) ++ [Intn 52]) ++ [Intn 52]) 52)).
  exists (String b0 (String b1 (String b2 (String b3 "")))).
  split; [reflexivity|]. split.
  { change (is_letter b0 && (is_letter b1 && (is_letter b2 &&
              (is_letter b3 && true))) = true).
    unfold b0, b1, b2, b3.
    rewrite !letter_at_is_letter by (apply Hrand; lia). reflexivity. }
  cbn zeta. unfold dropTable, calling, mbind, mret, DB_bind, DB_ret.
  fold b0 b1 b2 b3.
  assert (((((calls ++ [Intn 52]) ++ [Intn 52]) ++ [Intn 52]) ++ [Intn 52])
          = calls ++ replicate 4 (Intn 52)) as ->.
  { cbn. rewrite <- !app_assoc. reflexivity. }
  unfold drop_calls, rename_statement, drop_statement.
  destruct (gorm_error w (calls ++ replicate 4 (Intn 52)) _) as [err|].
  - rewrite <- !app_assoc. reflexivity.
  - rewrite <- !app_assoc. reflexivity.
Qed.

(** X25.  On an open store [DeleteAllData] returns no error, whatever
    the statements answer: the errors of the five [dropTable] are dropped.
    It goes through the tables of the invoice payments, the invoice
    changes, the invoices, the identities and the users, in this order,
    each with the calls of one [dropTable]; a table whose renaming fails
    is left in place and the next one is tried all the same. *)
Theorem DeleteAllData_ignores_errors (c : cockroachdb) (calls : list call) :
  rand_ok w ->
  shutdown c = false ->
  (DeleteAllData c calls).1 = None /\
  exists blocks : list (string * string * bool),
    blocks.*1.*1 =
      [tableNameInvoicePayment; tableNameInvoiceChange; tableNameInvoice;
       tableNameIdentity; tableNameUser] /\
    Forall (fun b => String.length b.1.2 = 4%nat /\ all_letters b.1.2 = true)
      blocks /\
    (DeleteAllData c calls).2 = calls ++ concat (drop_calls <$> blocks).
Proof.
  intros Hrand Hopen. unfold DeleteAllData, mbind, mret, DB_bind, DB_ret.
  rewrite Hopen.
  destruct (dropTable_calls tableNameInvoicePayment calls Hrand)
    as (s1 & d1 & L1 & A1 & H1).
  destruct (dropTable tableNameInvoicePayment calls) as [r1 c1].
  cbn [snd] in H1. subst c1.
  destruct (dropTable_calls tableNameInvoiceChange
              (calls ++ drop_calls (tableNameInvoicePayment, s1, d1)) Hrand)
    as (s2 & d2 & L2 & A2 & H2).
  destruct (dropTable tableNameInvoiceChange _) as [r2 c2].
  cbn [snd] in H2. subst c2.
  destruct (dropTable_calls tableNameInvoice
              ((calls ++ drop_calls (tableNameInvoicePayment, s1, d1)) ++
               drop_calls (tableNameInvoiceChange, s2, d2)) Hrand)
    as (s3 & d3 & L3 & A3 & H3).
  destruct (dropTable tableNameInvoice _) as [r3 c3].
  cbn [snd] in H3. subst c3.
  destruct (dropTable_calls tableNameIdentity
              (((calls ++ drop_calls (tableNameInvoicePayment, s1, d1)) ++
                drop_calls (tableNameInvoiceChange, s2, d2)) ++
               drop_calls (tableNameInvoice, s3, d3)) Hrand)
    as (s4 & d4 & L4 & A4 & H4).
  destruct (dropTable tableNameIdentity _) as [r4 c4].
  cbn [snd] in H4. subst c4.
  destruct (dropTable_calls tableNameUser
              ((((calls ++ drop_calls (tableNameInvoicePayment, s1, d1)) ++
                 drop_calls (tableNameInvoiceChange, s2, d2)) ++
                drop_calls (tableNameInvoice, s3, d3)) ++
               drop_calls (tableNameIdentity, s4, d4)) Hrand)
    as (s5 & d5 & L5 & A5 & H5).
  destruct (dropTable tableNameUser _) as [r5 c5].
  cbn [snd] in H5. subst c5.
  split; [reflexivity|].
  exists [(tableNameInvoicePayment, s1, d1); (tableNameInvoiceChange, s2, d2);
          (tableNameInvoice, s3, d3); (tableNameIdentity, s4, d4);
          (tableNameUser, s5, d5)].
  split; [reflexivity|]. split; [repeat constructor; assumption|].
  cbn [fmap list_fmap concat snd]. rewrite app_nil_r, <- !app_assoc.
  reflexivity.
Qed.

End Store.

End Backend.

(** * Listing invoices

    [GetInvoices] for any request, with [addWhereClause]. *)

#[global] Instance InvoiceStatusT_countable : Countable InvoiceStatusT.
Proof.
  refine (inj_countable'
    (fun s => match s with
              | InvoiceStatusNotReviewed => inl 0%nat
              | InvoiceStatusRejected => inl 1%nat
              | InvoiceStatusApproved => inl 2%nat
              | InvoiceStatusPaid => inl 3%nat
              | InvoiceStatusOther code => inr code
              end)
    (fun x => match x with
              | inl 0%nat => InvoiceStatusNotReviewed
              | inl 1%nat => InvoiceStatusRejected
              | inl 2%nat => InvoiceStatusApproved
              | inl _ => InvoiceStatusPaid
              | inr code => InvoiceStatusOther code
              end) _).
  intros []; reflexivity.
Defined.

Module Query.

(** The values that [GetInvoices] binds to the placeholders of its
    clauses: the user id parsed, the list of status numbers, and the
    month or the year. *)
Inductive value : Type :=
| V_uint64 (n : Z)
| V_uints (statuses : list Z)
| V_number (n : Z).

#[global] Instance value_eq_dec : EqDecision value.
Proof. solve_decision. Defined.

(** [database.InvoicesRequest] is declared outside the sources at hand;
    these are the fields that [GetInvoices] reads.  A [StatusMap] that is
    nil and one that is empty are treated alike by the code. *)
Record InvoicesRequest : Type := mkRequest {
  UserID : string;
  StatusMap : gmap InvoiceStatusT bool;
  Month : Z;
  Year : Z
}.

(** The statement that gorm is asked to scan. *)
Record statement : Type := mkStatement {
  Table : string;
  Select : string;
  Joins : string;
  Where : list (string * value)
}.

(** What [GetInvoices] calls: the parsing of the user id, the scan of
    the statement by gorm, which gives rows of the type [Row] (the
    [Invoice] of the package, declared outside the sources at hand), and
    [DecodeInvoices], which turns the rows into invoices or fails and is
    not among the sources either. *)
Record collaborators (Row : Type) : Type := mkCollaborators {
  strconv_ParseUint : string -> result Z;
  gorm_Scan : statement -> result (list Row);
  DecodeInvoices : list Row -> result (list Invoice);
  (** the order in which a [range] visits the parameters and the statuses *)
  range_params : gmap string value -> list (string * value);
  range_statuses : gmap InvoiceStatusT bool -> list (InvoiceStatusT * bool)
}.

Arguments mkCollaborators {Row}.
Arguments strconv_ParseUint {Row}.
Arguments gorm_Scan {Row}.
Arguments DecodeInvoices {Row}.
Arguments range_params {Row}.
Arguments range_statuses {Row}.

Definition ranges_ok {Row : Type} (w : collaborators Row) : Prop :=
  (forall m, range_params w m ≡ₚ map_to_list m) /\
  (forall m, range_statuses w m ≡ₚ map_to_list m).

Section GetInvoices.

(** Declared outside the sources at hand: the names of the two tables and
    the numbers of the statuses. *)
Variable tableNameInvoice : string.
Variable tableNameUser : string.
Variable uint_of_status : InvoiceStatusT -> Z.

Context {Row : Type}.
Variable w : collaborators Row.

Definition addWhereClause (db : statement)
    (paramsMap : gmap string value) : statement :=
  foldl (fun db kv =>
           {| Table := Table db; Select := Select db; Joins := Joins db;
              Where := Where db ++ [((kv.1 +:+ "= ?")%string, kv.2)] |})
        db (range_params w paramsMap).

(** The parameters that the request asks for, once the user id is
    parsed. *)
Definition params_of (userID : option Z) (invoicesRequest : InvoicesRequest)
  : gmap string value :=
  let paramsMap : gmap string value := ∅ in
  let paramsMap :=
    match userID with
    | Some n => <["i.user_id"%string := V_uint64 n]> paramsMap
    | None => paramsMap
    end in
  let paramsMap :=
    if bool_decide (0 < size (StatusMap invoicesRequest))%nat
    then <["i.status"%string :=
             V_uints ((fun kv => uint_of_status kv.1) <$>
                      range_statuses w (StatusMap invoicesRequest))]> paramsMap
    else paramsMap in
  let paramsMap :=
    if bool_decide (Month invoicesRequest <> 0)
    then <["i.month"%string := V_number (Month invoicesRequest)]> paramsMap
    else paramsMap in
  if bool_decide (Year invoicesRequest <> 0)
  then <["i.year"%string := V_number (Year invoicesRequest)]> paramsMap
  else paramsMap.

(** The result of [GetInvoices] and the statements it had scanned. *)
Definition GetInvoices (shutdown : bool) (invoicesRequest : InvoicesRequest)
  : Backend.reply (list Invoice) * list statement :=
  if shutdown then (Backend.Fail (Backend.Plain ErrShutdown), [])
  else
    let parsed :=
      if bool_decide (UserID invoicesRequest <> ""%string)
      then match strconv_ParseUint w (UserID invoicesRequest) with
           | Ok n => Ok (Some n)
           | Err err => Err err
           end
      else Ok None in
    match parsed with
    | Err err => (Backend.Fail (Backend.Plain err), [])
    | Ok userID =>
        let db :=
          {| Table := (tableNameInvoice +:+ " i")%string;
             Select := "i.*, u.username";
             Joins := ("inner join " +:+ tableNameUser +:+
                       " u on i.user_id = u.id")%string;
             Where := [] |} in
        let db := addWhereClause db (params_of userID invoicesRequest) in
        match gorm_Scan w db with
        | Err err =>
            if bool_decide (err = gorm_ErrRecordNotFound)
            then (Backend.Fail (Backend.Plain ErrInvoiceNotFound), [db])
            else (Backend.Fail (Backend.Plain err), [db])
        | Ok invoices =>
            match DecodeInvoices w invoices with
            | Ok decoded => (Backend.Reply decoded, [db])
            | Err err => (Backend.Fail (Backend.Plain err), [db])
            end
        end
    end.

(** *** Facts *)

Lemma length_append (s1 s2 : string) :
  String.length (s1 +:+ s2) = (String.length s1 + String.length s2)%nat.
Proof.
  induction s1 as [|a s1 IH]; [reflexivity|].
  change (S (String.length (s1 +:+ s2)) =
          S (String.length s1 + String.length s2)).
  f_equal. exact IH.
Qed.

Lemma append_inj_r (s k1 k2 : string) :
  (k1 +:+ s = k2 +:+ s)%string -> k1 = k2.
Proof.
  revert k2. induction k1 as [|a k1 IH]; intros [|b k2] Heq.
  - reflexivity.
  - apply (f_equal String.length) in Heq.
    rewrite !length_append in Heq. cbn in Heq. lia.
  - apply (f_equal String.length) in Heq.
    rewrite !length_append in Heq. cbn in Heq. lia.
  - cbn in Heq. injection Heq as -> Heq. f_equal. apply IH. exact Heq.
Qed.

Definition clause_of (kv : string * value) : string * value :=
  ((kv.1 +:+ "= ?")%string, kv.2).

(** [addWhereClause] adds one clause for each parameter, in the order of
    the range. *)
Lemma addWhereClause_eq (db : statement) (paramsMap : gmap string value) :
  addWhereClause db paramsMap =
    {| Table := Table db; Select := Select db; Joins := Joins db;
       Where := Where db ++ (clause_of <$> range_params w paramsMap) |}.
Proof.
  unfold addWhereClause. generalize (range_params w paramsMap). intros l.
  revert db. induction l as [|kv l IH]; intros db; cbn.
  - rewrite app_nil_r. destruct db. reflexivity.
  - rewrite IH. cbn. rewrite <- app_assoc. reflexivity.
Qed.

Lemma addWhereClause_adds_each_parameter_once_aux (db : statement)
    (paramsMap : gmap string value) :
  ranges_ok w ->
  exists added,
    addWhereClause db paramsMap =
      {| Table := Table db; Select := Select db; Joins := Joins db;
         Where := Where db ++ added |} /\
    NoDup (added.*1) /\
    (forall k v,
       ((k +:+ "= ?")%string, v) ∈ added <-> paramsMap !! k = Some v) /\
    (forall clause, clause ∈ added ->
       exists k v, clause = ((k +:+ "= ?")%string, v)).
Proof.
  intros [Hrange _]. rewrite addWhereClause_eq.
  exists (clause_of <$> range_params w paramsMap).
  split; [reflexivity|]. split.
  { rewrite <- list_fmap_compose.
    apply NoDup_fmap_2_strong.
    - intros [k1 v1] [k2 v2] H1 H2 Heq. cbn in Heq.
      apply append_inj_r in Heq. subst k2.
      rewrite (Hrange paramsMap) in H1, H2.
      apply elem_of_map_to_list in H1, H2. congruence.
    - rewrite (Hrange paramsMap). apply NoDup_map_to_list. }
  split.
  { intros k v. rewrite list_elem_of_fmap. split.
    - intros ([k' v'] & Heq & Hin). unfold clause_of in Heq. cbn in Heq.
      injection Heq as Hk ->. apply append_inj_r in Hk. subst k'.
      rewrite (Hrange paramsMap) in Hin. apply elem_of_map_to_list. exact Hin.
    - intros Hl. exists (k, v). split; [reflexivity|].
      rewrite (Hrange paramsMap). apply elem_of_map_to_list. exact Hl. }
  intros clause ([k v] & -> & _)%list_elem_of_fmap. exists k, v. reflexivity.
Qed.

(** X26.  [addWhereClause] adds to the statement exactly one clause for
    each parameter of the map, the name of the parameter followed by
    [= ?] with the value of the parameter, and touches nothing else of
    the statement: no parameter is left out, none is added twice, and an
    empty map leaves the statement as it is. *)
Theorem addWhereClause_adds_each_parameter_once (db : statement)
    (paramsMap : gmap string value) :
  ranges_ok w ->
  exists added,
    Where (addWhereClause db paramsMap) = Where db ++ added /\
    Table (addWhereClause db paramsMap) = Table db /\
    Select (addWhereClause db paramsMap) = Select db /\
    Joins (addWhereClause db paramsMap) = Joins db /\
    length added = size paramsMap /\
    NoDup (added.*1) /\
    (forall k v,
       ((k +:+ "= ?")%string, v) ∈ added <-> paramsMap !! k = Some v) /\
    (forall clause, clause ∈ added ->
       exists k v, clause = ((k +:+ "= ?")%string, v)) /\
    (paramsMap = ∅ -> addWhereClause db paramsMap = db).
Proof.
  intros [Hrange _]. rewrite addWhereClause_eq. cbn.
  exists (clause_of <$> range_params w paramsMap).
  split; [reflexivity|]. split; [reflexivity|]. split; [reflexivity|].
  split; [reflexivity|].
  split; [rewrite length_fmap, (Hrange paramsMap); apply length_map_to_list|].
  split.
  { rewrite <- list_fmap_compose.
    apply NoDup_fmap_2_strong.
    - intros [k1 v1] [k2 v2] H1 H2 Heq. cbn in Heq.
      apply append_inj_r in Heq. subst k2.
      rewrite (Hrange paramsMap) in H1, H2.
      apply elem_of_map_to_list in H1, H2. congruence.
    - rewrite (Hrange paramsMap). apply NoDup_map_to_list. }
  split.
  { intros k v. rewrite list_elem_of_fmap. split.
    - intros ([k' v'] & Heq & Hin). unfold clause_of in Heq. cbn in Heq.
      injection Heq as Hk ->. apply append_inj_r in Hk. subst k'.
      rewrite (Hrange paramsMap) in Hin. apply elem_of_map_to_list. exact Hin.
    - intros Hl. exists (k, v). split; [reflexivity|].
      rewrite (Hrange paramsMap). apply elem_of_map_to_list. exact Hl. }
  split.
  { intros clause ([k v] & -> & _)%list_elem_of_fmap. exists k, v. reflexivity. }
  intros ->.
  assert (range_params w ∅ = []) as ->.
  { apply Permutation_nil_r. rewrite (Hrange ∅), map_to_list_empty. reflexivity. }
  cbn. rewrite app_nil_r. destruct db. reflexivity.
Qed.

(** The numbers of the statuses asked for, in the order of the range. *)
Definition statuses_of (invoicesRequest : InvoicesRequest) : list Z :=
  (fun kv => uint_of_status kv.1) <$>
  range_statuses w (StatusMap invoicesRequest).

#[local] Set Warnings "-clear-no-such-hyp".

Lemma params_of_lookup (userID : option Z) (invoicesRequest : InvoicesRequest)
    (k : string) (v : value) :
  params_of userID invoicesRequest !! k = Some v <->
  (k = "i.user_id"%string /\ exists n, userID = Some n /\ v = V_uint64 n) \/
  (k = "i.status"%string /\ StatusMap invoicesRequest <> ∅ /\
   v = V_uints (statuses_of invoicesRequest)) \/
  (k = "i.month"%string /\ Month invoicesRequest <> 0 /\
   v = V_number (Month invoicesRequest)) \/
  (k = "i.year"%string /\ Year invoicesRequest <> 0 /\
   v = V_number (Year invoicesRequest)).
Proof.
  unfold params_of, statuses_of.
  assert ((0 < size (StatusMap invoicesRequest))%nat <->
          StatusMap invoicesRequest <> ∅) as Hsize.
  { rewrite <- map_size_non_empty_iff. lia. }
  destruct userID as [n|];
    repeat case_bool_decide;
    rewrite ?lookup_insert_Some, ?lookup_empty;
    naive_solver.
Qed.

(** X27.  [GetInvoices] asks gorm for one statement whose clauses are
    exactly those of the fields that the request sets: the user id when
    [UserID] is not empty, the statuses when [StatusMap] is not empty, the
    month and the year when they are not 0; each at most once and nothing
    else, so that the empty request gives a statement without clauses.  A
    [UserID] that does not parse ends the call with the error of the
    parsing before anything is asked of gorm, and so does a store that
    is shut down.  When gorm reports that no record was found the error
    is ErrInvoiceNotFound and any other error of the scan is handed on;
    the rows of a scan that succeeds go through [DecodeInvoices], whose
    result is the result of the call. *)
Theorem GetInvoices_asks_for_what_is_set (invoicesRequest : InvoicesRequest) :
  ranges_ok w ->
  GetInvoices true invoicesRequest =
    (Backend.Fail (Backend.Plain ErrShutdown), []) /\
  (forall err,
     UserID invoicesRequest <> ""%string ->
     strconv_ParseUint w (UserID invoicesRequest) = Err err ->
     GetInvoices false invoicesRequest =
       (Backend.Fail (Backend.Plain err), [])) /\
  (forall userID,
     (UserID invoicesRequest = ""%string /\ userID = None) \/
     (UserID invoicesRequest <> ""%string /\
      exists n, strconv_ParseUint w (UserID invoicesRequest) = Ok n /\
                userID = Some n) ->
     exists clauses,
       let db := {| Table := (tableNameInvoice +:+ " i")%string;
                    Select := "i.*, u.username";
                    Joins := ("inner join " +:+ tableNameUser +:+
                              " u on i.user_id = u.id")%string;
                    Where := clauses |} in
       (GetInvoices false invoicesRequest).2 = [db] /\
       (GetInvoices false invoicesRequest).1 =
         match gorm_Scan w db with
         | Ok invoices =>
             match DecodeInvoices w invoices with
             | Ok decoded => Backend.Reply decoded
             | Err err => Backend.Fail (Backend.Plain err)
             end
         | Err err =>
             if decide (err = gorm_ErrRecordNotFound)
             then Backend.Fail (Backend.Plain ErrInvoiceNotFound)
             else Backend.Fail (Backend.Plain err)
         end /\
       NoDup (clauses.*1) /\
       (forall k v,
          (k, v) ∈ clauses <->
          (k = "i.user_id= ?"%string /\
           exists n, userID = Some n /\ v = V_uint64 n) \/
          (k = "i.status= ?"%string /\ StatusMap invoicesRequest <> ∅ /\
           v = V_uints (statuses_of invoicesRequest)) \/
          (k = "i.month= ?"%string /\ Month invoicesRequest <> 0 /\
           v = V_number (Month invoicesRequest)) \/
          (k = "i.year= ?"%string /\ Year invoicesRequest <> 0 /\
           v = V_number (Year invoicesRequest)))) /\
  statuses_of invoicesRequest ≡ₚ
    (fun kv => uint_of_status kv.1) <$> map_to_list (StatusMap invoicesRequest).
Proof.
  intros Hranges. split; [reflexivity|]. split; [|split].
  - intros err Hid Hparse. unfold GetInvoices.
    rewrite bool_decide_eq_true_2 by exact Hid. rewrite Hparse. reflexivity.
  - intros userID Hparsed.
    destruct (addWhereClause_adds_each_parameter_once_aux
                {| Table := (tableNameInvoice +:+ " i")%string;
                   Select := "i.*, u.username";
                   Joins := ("inner join " +:+ tableNameUser +:+
                             " u on i.user_id = u.id")%string;
                   Where := [] |}
                (params_of userID invoicesRequest) Hranges)
      as (clauses & Hdb & Hnd & Hmem & Hshape).
    exists clauses. cbn zeta.
    assert ((if bool_decide (UserID invoicesRequest <> ""%string)
             then match strconv_ParseUint w (UserID invoicesRequest) with
                  | Ok n => Ok (Some n)
                  | Err err => Err err
                  end
             else Ok None) = Ok userID) as Hp.
    { destruct Hparsed as [[Hid ->]|(Hid & n & Hn & ->)].
      - rewrite bool_decide_eq_false_2 by (intros H; exact (H Hid)).
        reflexivity.
      - rewrite bool_decide_eq_true_2 by exact Hid. rewrite Hn. reflexivity. }
    cbn [Table Select Joins Where app] in Hdb.
    unfold GetInvoices. rewrite Hp. cbn zeta. rewrite Hdb.
    split; [destruct (gorm_Scan w _) as [rows|err];
              [destruct (DecodeInvoices w rows); reflexivity|];
            destruct (bool_decide (err = gorm_ErrRecordNotFound)); reflexivity|].
    split.
    { destruct (gorm_Scan w _) as [rows|err];
        [destruct (DecodeInvoices w rows); reflexivity|].
      destruct (decide (err = gorm_ErrRecordNotFound)) as [->|Hne];
        [rewrite bool_decide_eq_true_2 by reflexivity
        |rewrite bool_decide_eq_false_2 by exact Hne]; reflexivity. }
    split; [exact Hnd|].
    intros k v. split.
    + intros Hin. destruct (Hshape _ Hin) as (k0 & v0 & [= -> ->]).
      apply Hmem, params_of_lookup in Hin.
      destruct Hin as [[-> H]|[[-> H]|[[-> H]|[-> H]]]]; auto.
    + intros [[-> H]|[[-> H]|[[-> H]|[-> H]]]].
      * apply (Hmem "i.user_id"%string), params_of_lookup. auto.
      * apply (Hmem "i.status"%string), params_of_lookup. auto.
      * apply (Hmem "i.month"%string), params_of_lookup. auto.
      * apply (Hmem "i.year"%string), params_of_lookup. auto 6.
  - unfold statuses_of. destruct Hranges as [_ Hst]. rewrite (Hst _).
    reflexivity.
Qed.

End GetInvoices.

End Query.

(** * The further properties, run *)

Module Demo.

(** The block explorers cannot be reached. *)
Definition explorers_unreachable : Sim.scenario :=
  {| Sim.table := [Sim.invoice_abc]; Sim.missing := [];
     Sim.closed_from := None; Sim.txs := [];
     Sim.explorers_down := true; Sim.clock := Time.mk 2000 0 |}.

(** The payment has arrived, but the store refuses every update. *)
Definition refusing_updates : Env :=
  let env := Sim.env_of Sim.paying in
  {| db_GetInvoices := db_GetInvoices env;
     db_GetInvoiceByToken := db_GetInvoiceByToken env;
     db_UpdateInvoice := fun _ _ => Some (ErrOther "write refused");
     util_FetchTxWithBlockExplorers := util_FetchTxWithBlockExplorers env;
     time_Now := time_Now env;
     map_range := map_range env |}.

(** An invoice with three payments: the first has expired, the other two
    have not. *)
Definition invoice_xyz : Invoice :=
  {| Token := "xyz"; Status := InvoiceStatusApproved;
     Payments := [ mkInvoicePayment "A7" 100 1000 1500;
                   mkInvoicePayment "A8" 200 1000 3000;
                   mkInvoicePayment "A9" 300 1000 4000 ] |}.

Definition three_payments : Sim.scenario :=
  {| Sim.table := [invoice_xyz]; Sim.missing := []; Sim.closed_from := None;
     Sim.txs := []; Sim.explorers_down := false; Sim.clock := Time.mk 2000 0 |}.

(** The store was shut down before the server started. *)
Definition closed_at_start : Sim.scenario :=
  {| Sim.table := [Sim.invoice_abc]; Sim.missing := [];
     Sim.closed_from := Some 0%nat; Sim.txs := [];
     Sim.explorers_down := false; Sim.clock := Time.mk 2000 0 |}.

(** Users are held by their email; a row without email cannot be
    decoded. *)
Definition DecodeUser (row : string) : result string :=
  if decide (row = ""%string) then Err (ErrOther "row without email")
  else Ok row.

Definition world (locked : bool) : Backend.collaborators string :=
  {| Backend.gorm_error := fun calls q =>
       match q with
       | Backend.Exec _ _ => if locked then Some (ErrOther "table locked") else None
       | _ => None
       end;
     Backend.gorm_user := fun _ _ => Err gorm_ErrRecordNotFound;
     Backend.gorm_identity := fun _ _ => Ok 7;
     Backend.gorm_users := fun _ =>
       Ok ["ann@example.org"; "bob@example.org"; ""; "cyd@example.org"]%string;
     Backend.rand_Intn := fun calls n => Z.of_nat (length calls) mod n;
     Backend.checkmail_ValidateFormat := fun email =>
       if decide (email = ""%string) then Some (ErrOther "no address") else None |}.

Definition listing : Query.collaborators unit :=
  {| Query.strconv_ParseUint := fun s =>
       if decide (s = "42"%string) then Ok 42
       else Err (ErrOther "invalid syntax");
     Query.gorm_Scan := fun _ => Ok [];
     Query.DecodeInvoices := fun _ => Ok [];
     Query.range_params := map_to_list;
     Query.range_statuses := map_to_list |}.

Definition request : Query.InvoicesRequest :=
  {| Query.UserID := "42";
     Query.StatusMap := {[ InvoiceStatusApproved := true ]};
     Query.Month := 0; Query.Year := 2019 |}.

End Demo.

Lemma world_rand_ok (locked : bool) : Backend.rand_ok string (Demo.world locked).
Proof. intros calls n Hn. cbn. apply Z.mod_pos_bound. exact Hn. Qed.

Lemma listing_ranges_ok : Query.ranges_ok Demo.listing.
Proof. split; intros m; reflexivity. Qed.

Lemma refusing_updates_tokens_match : tokens_match Demo.refusing_updates.
Proof. exact (env_of_tokens_match Sim.paying). Qed.

Lemma refusing_updates_range_ok : range_ok Demo.refusing_updates.
Proof. exact (Sim.env_of_range_ok Sim.paying). Qed.

Lemma reaches_abc_refusing :
  reaches Demo.refusing_updates Sim.server "abc" Sim.entry_abc
    (polledPayments Sim.server) [] [] [] [].
Proof. exists []. split; vm_compute; reflexivity. Defined.

Lemma removes_exactly_witness :
  polledPayments (removeInvoicesFromPolling ["abc"; "nope"]%string Sim.server2)
    !! "abc"%string = None /\
  polledPayments (removeInvoicesFromPolling ["abc"; "nope"]%string Sim.server2)
    !! "def"%string = Some Sim.entry_def /\
  removeInvoicesFromPolling ["nope"]%string Sim.server2 = Sim.server2.
Proof.
  destruct (removeInvoicesFromPolling_removes_exactly Sim.server2
              ["abc"; "nope"]%string) as (Hin & Hout & _).
  destruct (removeInvoicesFromPolling_removes_exactly Sim.server2
              ["nope"]%string) as (_ & _ & _ & _ & _ & Hsame).
  split; [apply Hin; apply elem_of_cons; left; reflexivity|].
  split.
  - rewrite Hout; [vm_compute; reflexivity|].
    intros Hin'. repeat (apply elem_of_cons in Hin' as [Hin'|Hin']; try discriminate).
    apply elem_of_nil in Hin'. exact Hin'.
  - apply Hsame. intros token Hin'.
    apply list_elem_of_singleton in Hin'. subst token. vm_compute. reflexivity.
Defined.

Lemma order_irrelevant_witness :
  removeInvoicesFromPolling ["abc"; "def"; "abc"]%string Sim.server2 =
  removeInvoicesFromPolling ["def"; "abc"]%string Sim.server2.
Proof.
  apply removeInvoicesFromPolling_order_irrelevant.
  intros token. rewrite !elem_of_cons, !elem_of_nil. tauto.
Defined.

Lemma frames_witness :
  polledPayments
    (addInvoiceForPolling "def" (mkInvoicePayment "A2" 700 1000 9999999999)
       Sim.server) !! "abc"%string = Some Sim.entry_abc.
Proof.
  destruct (addInvoiceForPolling_frames_and_overwrites Sim.server "def"
              (mkInvoicePayment "A2" 700 1000 9999999999)) as (Hother & _).
  rewrite Hother by discriminate. vm_compute. reflexivity.
Defined.

Lemma insert_then_remove_witness :
  removeInvoicesFromPolling ["def"%string]
    (addInvoiceForPolling "def" (mkInvoicePayment "A2" 700 1000 9999999999)
       Sim.server) = Sim.server.
Proof.
  destruct (insert_then_remove Sim.server "def"
              (mkInvoicePayment "A2" 700 1000 9999999999)) as (_ & _ & Hback).
  apply Hback. vm_compute. reflexivity.
Defined.

Lemma fetch_error_witness :
  polledPayments
    (checkForPayments_cycle (Sim.env_of Sim.lapsed_unreadable) Sim.server []).1.2
    !! "abc"%string = Some Sim.entry_abc.
Proof.
  destruct (fetch_error_keeps_entry (Sim.env_of Sim.lapsed_unreadable)
              Sim.server "abc" Sim.entry_abc [] [] [] []
              (Sim.env_of_range_ok _) (reaches_abc _) ErrInvoiceNotFound
              (env_of_tokens_match _)) as (_ & _ & Hkept); [by_running..|].
  destruct (checkForPayments_cycle _ _ _) as [[returned c'] hend].
  exact (Hkept _ _ _ eq_refl).
Defined.

Lemma oracle_error_witness :
  polledPayments
    (checkForPayments_cycle (Sim.env_of Demo.explorers_unreachable) Sim.server []).1.2
    !! "abc"%string = Some Sim.entry_abc.
Proof.
  destruct (oracle_error_keeps_entry (Sim.env_of Demo.explorers_unreachable)
              Sim.server "abc" Sim.entry_abc [] [] [] []
              (Sim.env_of_range_ok _) (reaches_abc _) Sim.invoice_abc
              ""%string 0 (ErrOther "explorer unreachable")
              (env_of_tokens_match _)) as (_ & _ & _ & Hkept); [by_running..|].
  destruct (checkForPayments_cycle _ _ _) as [[returned c'] hend].
  exact (Hkept _ _ _ eq_refl).
Defined.

Lemma update_error_witness :
  polledPayments
    (checkForPayments_cycle Demo.refusing_updates Sim.server []).1.2
    !! "abc"%string = Some Sim.entry_abc.
Proof.
  destruct (update_error_keeps_entry Demo.refusing_updates
              Sim.server "abc" Sim.entry_abc [] [] [] []
              refusing_updates_range_ok reaches_abc_refusing Sim.invoice_abc
              "txid123"%string 500 (ErrOther "write refused")
              refusing_updates_tokens_match) as (_ & _ & Hkept);
    [by_running..|].
  destruct (checkForPayments_cycle _ _ _) as [[returned c'] hend].
  exact (Hkept _ _ _ eq_refl).
Defined.

Lemma decided_removal_witness :
  polledPayments
    (checkForPayments_cycle (Sim.env_of Sim.paying) Sim.server []).1.2
    !! "abc"%string = None.
Proof.
  pose proof (decided_removal_is_applied_by_cycle (Sim.env_of Sim.paying)
                Sim.server "abc" Sim.entry_abc [] [] [] []
                (Sim.env_of_range_ok _) (reaches_abc _) Sim.invoice_abc) as H.
  assert (checkForPayments_cycle (Sim.env_of Sim.paying) Sim.server [] =
            ((false, (checkForPayments_cycle (Sim.env_of Sim.paying)
                        Sim.server []).1.2),
             (checkForPayments_cycle (Sim.env_of Sim.paying) Sim.server []).2))
    as Hcycle by (vm_compute; reflexivity).
  apply (H ltac:(vm_compute; reflexivity)) in Hcycle; [exact Hcycle|].
  right. right. split; [discriminate|]. split; [vm_compute; reflexivity|].
  exists "txid123"%string, 500. repeat split; try by_running.
Defined.

Lemma idle_driver_witness :
  checkForPayments (Sim.env_of Demo.closed_at_start) 3 Sim.empty_server [] =
    ((false, Sim.empty_server),
     [EvSleep pollCheckGap; EvSleep pollCheckGap; EvSleep pollCheckGap]).
Proof.
  apply (idle_driver_only_sleeps (Sim.env_of Demo.closed_at_start)
           Sim.empty_server (Sim.env_of_range_ok _) eq_refl 3%nat []).
Defined.

Lemma shrinking_pool_witness :
  polledPayments
    (checkForPayments (Sim.env_of Sim.both_paid) 2 Sim.server2 []).1.2
    !! "new"%string = None.
Proof.
  destruct (driver_only_shrinks_pool (Sim.env_of Sim.both_paid) 2
              Sim.server2 []) as (_ & Hold & _).
  destruct (polledPayments _ !! "new"%string) as [entry|] eqn:Hnew;
    [|reflexivity].
  apply Hold in Hnew. vm_compute in Hnew. discriminate.
Defined.

Lemma settlements_witness :
  existsb is_UpdateInvoice
    (checkForPayments (Sim.env_of Sim.paying) 2 Sim.server []).2 = true /\
  Forall (fun e => match e with
                   | EvUpdateInvoice invoice _ =>
                       Status invoice = InvoiceStatusPaid
                   | _ => True
                   end)
    (checkForPayments (Sim.env_of Sim.paying) 2 Sim.server []).2.
Proof.
  split; [vm_compute; reflexivity|].
  apply Forall_forall. intros e Hin.
  destruct e as [| |invoice r| | |]; try exact I.
  destruct (driver_writes_only_settlements (Sim.env_of Sim.paying) 2
              Sim.server []) as (evs & Hh & Hsettle).
  cbn [app] in Hh. rewrite Hh in Hin.
  apply list_elem_of_split in Hin as (pre & post & Heq).
  destruct (Hsettle pre invoice r post Heq)
    as (? & ? & ? & ? & ? & ? & ? & ? & ? & ? & _ & _ & _ & _ & Hpaid & _).
  exact Hpaid.
Defined.

Lemma visits_witness :
  fetched_tokens
    (checkForInvoicePayments (Sim.env_of Sim.both_paid) Sim.server2
       (polledPayments Sim.server2) []).2 = ["abc"; "def"]%string.
Proof.
  destruct (pass_visits_each_binding_once (Sim.env_of Sim.both_paid)
              Sim.server2 (polledPayments Sim.server2) [])
    as (evs & Hh & _ & Hall & _).
  cbn [app] in Hh. rewrite Hh, Hall; vm_compute; reflexivity.
Defined.

Lemma sleeps_witness :
  exists evs,
    (checkForPayments (Sim.env_of Sim.quiet) 3 Sim.server []).2 = evs /\
    3 * pollCheckGap <= total_sleep evs.
Proof.
  destruct (running_driver_sleeps_every_cycle (Sim.env_of Sim.quiet) 3
              Sim.server
              (checkForPayments (Sim.env_of Sim.quiet) 3 Sim.server []).1.2
              []
              (checkForPayments (Sim.env_of Sim.quiet) 3 Sim.server []).2)
    as (evs & Hh & Hsleep & _); [vm_compute; reflexivity|].
  exists evs. split; [exact Hh|exact Hsleep].
Defined.

Lemma returned_tokens_witness :
  NoDup (checkForInvoicePayments (Sim.env_of Sim.both_paid) Sim.server2
           (polledPayments Sim.server2) []).1.2.
Proof.
  destruct (pass_returns_snapshot_tokens (Sim.env_of Sim.both_paid)
              Sim.server2 (polledPayments Sim.server2) []
              (Sim.env_of_range_ok _) (env_of_tokens_match _))
    as (_ & Hnd & _).
  exact Hnd.
Defined.

Lemma monotone_witness :
  (pollHasExpired (Sim.env_of Sim.just_lapsed) 9999999999
     [EvSleep pollCheckGap]).1 = true /\
  (pollHasExpired (Sim.env_of Sim.just_lapsed) 9999999000 []).1 = true.
Proof.
  destruct (expiry_is_monotone (Sim.env_of Sim.just_lapsed) 9999999999
              [] [EvSleep pollCheckGap]) as [Hlater Hearlier];
    [vm_compute; reflexivity..|].
  split; [exact Hlater|].
  apply Hearlier;
    try (split; vm_compute; first [reflexivity|discriminate]).
  vm_compute. discriminate.
Defined.

Lemma startup_witness :
  initPaymentChecker (Sim.env_of Demo.closed_at_start) 3 Sim.server [] =
    ((Some ErrShutdown, Sim.server, None), [EvGetInvoices (Err ErrShutdown)]).
Proof.
  destruct (startup_fails_with_the_store (Sim.env_of Demo.closed_at_start)
              Sim.server [] ErrShutdown) as [_ Hinit];
    [vm_compute; reflexivity|].
  exact (Hinit 3%nat).
Defined.

Lemma seeding_keeps_witness :
  polledPayments
    (addInvoicesForPolling (Sim.env_of Sim.lapsed) Sim.server2 []).1.2
    !! "abc"%string = Some Sim.entry_abc.
Proof.
  destruct (seeding_keeps_the_pool (Sim.env_of Sim.lapsed) Sim.server2 [])
    as (_ & _ & Hsame).
  rewrite (Hsame [Sim.invoice_abc] "abc"%string);
    [vm_compute; reflexivity|vm_compute; reflexivity|].
  intros p now Hin. vm_compute in Hin.
  apply list_elem_of_singleton in Hin. simplify_eq.
  vm_compute. reflexivity.
Defined.

Lemma last_row_witness :
  polledPayments
    (addInvoicesForPolling (Sim.env_of Demo.three_payments)
       Sim.empty_server []).1.2 !! "xyz"%string =
    Some {| address := "A9"; amount := 300; txNotBefore := 1000;
            pollExpiry := 4000 |}.
Proof.
  apply (seeding_keeps_last_unexpired_row (Sim.env_of Demo.three_payments)
           Sim.empty_server [] [Demo.invoice_xyz] "xyz"
           (mkInvoicePayment "A9" 300 1000 4000) (Time.mk 2000 0)
           [("xyz"%string, mkInvoicePayment "A7" 100 1000 1500, Time.mk 2000 0);
            ("xyz"%string, mkInvoicePayment "A8" 200 1000 3000, Time.mk 2000 0)]
           []).
  - vm_compute. reflexivity.
  - vm_compute. reflexivity.
  - vm_compute. reflexivity.
  - intros p' now' Hin. apply elem_of_nil in Hin. contradiction.
Defined.

Lemma create_user_witness :
  Backend.CreateUser string string id id (Demo.world false)
    {| Backend.shutdown := false |} ""%string [] =
    (Some Backend.ErrInvalidEmail, []).
Proof.
  destruct (Backend.CreateUser_creates_only_valid string string id id
              (Demo.world false) {| Backend.shutdown := false |} ""%string [])
    as (new & Hcalls & _ & _ & Hinvalid).
  destruct (Hinvalid eq_refl (ErrOther "no address") eq_refl) as [Herr ->].
  destruct (Backend.CreateUser _ _ _ _ _ _ _ _) as [r calls].
  cbn in Herr, Hcalls. subst. reflexivity.
Defined.

Lemma all_users_witness :
  Backend.AllUsers string string Demo.DecodeUser (Demo.world false)
    {| Backend.shutdown := false |} (fun u seen => seen ++ [u]) [] [] =
    ((Some (Backend.Plain (ErrOther "row without email")),
      ["ann@example.org"; "bob@example.org"]%string),
     [Backend.Find_users string]).
Proof.
  destruct (Backend.AllUsers_stops_at_first_bad_row string string
              Demo.DecodeUser (Demo.world false)
              {| Backend.shutdown := false |} (fun u seen => seen ++ [u]) []
              [] ["ann@example.org"; "bob@example.org"; ""; "cyd@example.org"]%string
              eq_refl eq_refl)
    as (good & users & rest & _ & _ & _ & _ & _).
  vm_compute. reflexivity.
Defined.

Lemma drop_table_witness :
  exists suffix,
    Backend.dropTable string (Demo.world true) "users" [] =
      (Some (ErrOther "table locked"),
       Backend.drop_calls string ("users"%string, suffix, false)) /\
    Backend.all_letters suffix = true.
Proof.
  destruct (Backend.dropTable_renames_then_drops string (Demo.world true)
              "users" [] (world_rand_ok true)) as (suffix & _ & Hletters & Hrun).
  exists suffix. split; [exact Hrun|exact Hletters].
Defined.

Lemma delete_all_witness :
  (Backend.DeleteAllData string "users" "identities" "invoices"
     "invoice_changes" "invoice_payments" (Demo.world true)
     {| Backend.shutdown := false |} []).1 = None.
Proof.
  destruct (Backend.DeleteAllData_ignores_errors string "users" "identities"
              "invoices" "invoice_changes" "invoice_payments" (Demo.world true)
              {| Backend.shutdown := false |} [] (world_rand_ok true) eq_refl)
    as [Hnone _].
  exact Hnone.
Defined.

Lemma where_clause_witness :
  ("i.year= ?"%string, Query.V_number 2019) ∈
    Query.Where
      (Query.addWhereClause Demo.listing
         (Query.mkStatement "invoice i" "i.*" "" [])
         {[ "i.year"%string := Query.V_number 2019 ]}).
Proof.
  destruct (Query.addWhereClause_adds_each_parameter_once Demo.listing
              (Query.mkStatement "invoice i" "i.*" "" [])
              {[ "i.year"%string := Query.V_number 2019 ]} listing_ranges_ok)
    as (added & Hwhere & _ & _ & _ & _ & _ & Hmem & _).
  rewrite Hwhere. cbn [Query.Where app].
  apply (Hmem "i.year"%string). apply lookup_singleton_eq.
Defined.

Lemma get_invoices_witness :
  exists clauses,
    (Query.GetInvoices "invoice" "users" (fun _ => 5) Demo.listing false
       Demo.request).2 =
      [Query.mkStatement "invoice i" "i.*, u.username"
         "inner join users u on i.user_id = u.id" clauses] /\
    ("i.year= ?"%string, Query.V_number 2019) ∈ clauses /\
    ("i.user_id= ?"%string, Query.V_uint64 42) ∈ clauses /\
    forall v, ("i.month= ?"%string, v) ∉ clauses.
Proof.
  destruct (Query.GetInvoices_asks_for_what_is_set "invoice" "users"
              (fun _ => 5) Demo.listing Demo.request listing_ranges_ok)
    as (_ & _ & Hasked & _).
  destruct (Hasked (Some 42)) as (clauses & Hdb & _ & _ & Hmem).
  { right. split; [discriminate|]. exists 42. split; reflexivity. }
  exists clauses. split; [exact Hdb|]. split; [|split].
  - apply Hmem. right. right. right.
    split; [reflexivity|]. split; [discriminate|reflexivity].
  - apply Hmem. left. split; [reflexivity|]. exists 42. split; reflexivity.
  - intros v Hin. apply Hmem in Hin. clear Hdb Hmem Hasked.
    destruct Hin as [[Hk _]|[[Hk _]|[(_ & Hmonth & _)|[Hk _]]]].
    + discriminate Hk.
    + discriminate Hk.
    + exact (Hmonth eq_refl).
    + discriminate Hk.
Defined.
